(** * Review-feedback aggregation: a shallow embedding of [src/index.ts]

    The development follows the pipeline of the action:
    noise filter, structured-text extractor, resolution reconciler,
    aggregator ([groupByFile] and the open/resolved partition), renderer
    ([generateMarkdown]) and the file sink of the publisher.

    JavaScript strings are sequences of UTF-16 code units; they are modelled
    as lists of [N].  Numbers that the program uses as identifiers, counts
    and line numbers are integers and are modelled as [Z]. *)

From Stdlib Require Import ZArith NArith List Lia Bool String Ascii.
From Stdlib Require Import Permutation Sorted.
From stdpp Require Import base gmap.
Import ListNotations.

Set Default Proof Using "Type".
Open Scope Z_scope.

(* ===================================================================== *)
(** * JavaScript strings *)
(* ===================================================================== *)

Module JsString.

(** A string is its sequence of UTF-16 code units. *)
Definition t := list N.

(** Literals of the source, which are all ASCII unless written out. *)
Definition js (s : string) : t := map N_of_ascii (list_ascii_of_string s).

Definition eqb (a b : t) : bool :=
  bool_decide (a = b).

(** [a || b] on strings: the empty string is falsy. *)
Definition orElse (a b : t) : t :=
  match a with [] => b | _ => a end.

(** ** [String.prototype.includes] *)

Fixpoint startsWith (needle s : t) : bool :=
  match needle, s with
  | [], _ => true
  | _ :: _, [] => false
  | x :: needle', y :: s' => (x =? y)%N && startsWith needle' s'
  end.

Fixpoint includes (s needle : t) : bool :=
  startsWith needle s ||
  match s with
  | [] => false
  | _ :: s' => includes s' needle
  end.

(** ** [String.prototype.toLowerCase]

    ASCII capitals go to their small letters.  Outside ASCII only two code
    units lower-case to something that holds an ASCII letter: U+0130
    (capital I with dot) becomes [i] followed by U+0307, and U+212A (the
    Kelvin sign) becomes [k].  Every other code unit outside ASCII
    lower-cases to code units outside ASCII; the model keeps it as it is,
    which is immaterial when the result is only searched for ASCII text. *)
Definition lowerUnit (c : N) : t :=
  if ((65 <=? c) && (c <=? 90))%N then [(c + 32)%N]
  else if (c =? 304)%N then [105%N; 775%N]
  else if (c =? 8490)%N then [107%N]
  else [c].

Definition toLowerCase (s : t) : t := flat_map lowerUnit s.

(** ** White space, line terminators, [trim]

    [isSpace] is the class [\s] of regular expressions, which is also the
    set that [trim] strips: WhiteSpace and LineTerminator code points. *)
Definition isSpace (c : N) : bool :=
  ((9 <=? c) && (c <=? 13) || (c =? 32) || (c =? 160) || (c =? 5760)
   || (8192 <=? c) && (c <=? 8202) || (c =? 8232) || (c =? 8233)
   || (c =? 8239) || (c =? 8287) || (c =? 12288) || (c =? 65279))%N.

Definition isLineTerminator (c : N) : bool :=
  ((c =? 10) || (c =? 13) || (c =? 8232) || (c =? 8233))%N.

Definition isDigit (c : N) : bool := ((48 <=? c) && (c <=? 57))%N.

Fixpoint trimStart (s : t) : t :=
  match s with
  | c :: s' => if isSpace c then trimStart s' else s
  | [] => []
  end.

Definition trimEnd (s : t) : t := rev (trimStart (rev s)).

Definition trim (s : t) : t := trimEnd (trimStart s).

(** ** [split('\n')] and [join('\n')] *)

Definition newline : N := 10%N.

(** [split s] is never empty: the empty string splits into one empty
    piece. *)
Fixpoint split (s : t) : list t :=
  match s with
  | [] => [[]]
  | c :: s' =>
      if (c =? newline)%N then [] :: split s'
      else match split s' with
           | piece :: pieces => (c :: piece) :: pieces
           | [] => [[c]]
           end
  end.

Fixpoint join (lines : list t) : t :=
  match lines with
  | [] => []
  | [l] => l
  | l :: rest => l ++ newline :: join rest
  end.

(** ** Numbers and strings *)

Fixpoint digitsOfUint (d : Decimal.uint) : t :=
  match d with
  | Decimal.Nil => []
  | Decimal.D0 d' => 48%N :: digitsOfUint d'
  | Decimal.D1 d' => 49%N :: digitsOfUint d'
  | Decimal.D2 d' => 50%N :: digitsOfUint d'
  | Decimal.D3 d' => 51%N :: digitsOfUint d'
  | Decimal.D4 d' => 52%N :: digitsOfUint d'
  | Decimal.D5 d' => 53%N :: digitsOfUint d'
  | Decimal.D6 d' => 54%N :: digitsOfUint d'
  | Decimal.D7 d' => 55%N :: digitsOfUint d'
  | Decimal.D8 d' => 56%N :: digitsOfUint d'
  | Decimal.D9 d' => 57%N :: digitsOfUint d'
  end.

(** The text a template literal gives for an integer (below [10^21] in
    magnitude, where the decimal form is used). *)
Definition ofNumber (z : Z) : t :=
  match z with
  | Z0 => [48%N]
  | Zpos p => digitsOfUint (Pos.to_uint p)
  | Zneg p => 45%N :: digitsOfUint (Pos.to_uint p)
  end.

(** [parseInt(digits, 10)] on a string of decimal digits.  The code's
    result is a Number, which is the integer that the digits spell as long
    as that integer is at most [2 ^ 53 - 1]; beyond it the Number is the
    nearest double, and [Infinity] from some 309 digits on.  This
    definition is the integer at every length, so it is the code's value
    up to [2 ^ 53 - 1] only, and what is stated of the value of a parsed
    line is stated up to that bound ([Grammar.lineOf]).  An order or a
    comparison with a bound below [2 ^ 53] is the same for both, rounding
    being monotone. *)
Definition parseInt (digits : t) : Z :=
  fold_left (fun acc c => 10 * acc + (Z.of_N c - 48)) digits 0.

End JsString.

Abbreviation jsstring := JsString.t.
Abbreviation js := JsString.js.


(* ===================================================================== *)
(** * Regular expressions

    A backtracking matcher for the fragment of ECMAScript regular
    expressions that the source uses: literal text, the classes [\s], [\d],
    [.] and [[\s\S]], a single literal character, repetition of a class
    (greedy or lazy, with bounds), sequence, alternation, one capturing
    group, an optional non-capturing group and [$] (without the [m] flag).
    All four expressions of the source carry the [i] flag. *)
(* ===================================================================== *)

Module Regex.

Inductive cclass :=
| CSpace              (* \s *)
| CDigit              (* \d *)
| CDot                (* .  : anything but a line terminator *)
| CAny                (* [\s\S] *)
| CChar (c : N).      (* one literal character *)

Inductive t :=
| Lit (text : jsstring)
| Rep (c : cclass) (lo : nat) (hi : option nat) (greedy : bool)
| Seq (r1 r2 : t)
| Alt (r1 r2 : t)
| Group (r : t)       (* ( r ), capture 1 *)
| Opt (r : t)         (* (?: r )? *)
| End.                (* $ *)

(** Canonicalize of the [i] flag (non-unicode mode): upper-casing of one
    code unit.  A code unit outside ASCII never canonicalizes into ASCII,
    so against the ASCII text of the patterns only ASCII letters fold. *)
Definition canonicalize (c : N) : N :=
  if ((97 <=? c) && (c <=? 122))%N then (c - 32)%N else c.

Definition charEq (p c : N) : bool := (canonicalize p =? canonicalize c)%N.

Definition inClass (cl : cclass) (c : N) : bool :=
  match cl with
  | CSpace => JsString.isSpace c
  | CDigit => JsString.isDigit c
  | CDot => negb (JsString.isLineTerminator c)
  | CAny => true
  | CChar p => charEq p c
  end.

(** The rest of the input after the literal [text], if the input starts
    with it. *)
Fixpoint stripLit (text s : jsstring) : option jsstring :=
  match text, s with
  | [], _ => Some s
  | _ :: _, [] => None
  | p :: text', c :: s' => if charEq p c then stripLit text' s' else None
  end.

Section Matcher.
Context {X : Type}.

(** [cl{lo,hi}]: a greedy repetition first tries one more character and
    falls back to stopping; a lazy one first tries to stop. *)
Fixpoint mrep (cl : cclass) (lo : nat) (hi : option nat) (greedy : bool)
    (s : jsstring) (k : jsstring -> option X) {struct s} : option X :=
  let more (_ : unit) :=
    match s, hi with
    | c :: s', None =>
        if inClass cl c then mrep cl (Nat.pred lo) None greedy s' k
        else None
    | c :: s', Some (S h) =>
        if inClass cl c then mrep cl (Nat.pred lo) (Some h) greedy s' k
        else None
    | _, _ => None
    end in
  let stop (_ : unit) :=
    match lo with O => k s | S _ => None end in
  if greedy
  then match more tt with Some x => Some x | None => stop tt end
  else match stop tt with Some x => Some x | None => more tt end.

(** [rmatch r s cap k]: match [r] at the start of [s]; [cap] is the
    current value of capture 1; the continuation [k] receives the rest
    of the input and the capture, and a [None] from it makes the
    matcher backtrack. *)
Fixpoint rmatch (r : t) (s : jsstring) (cap : option jsstring)
    (k : jsstring -> option jsstring -> option X) : option X :=
  match r with
  | Lit text =>
      match stripLit text s with
      | Some s' => k s' cap
      | None => None
      end
  | Rep cl lo hi greedy => mrep cl lo hi greedy s (fun s' => k s' cap)
  | Seq r1 r2 => rmatch r1 s cap (fun s' cap' => rmatch r2 s' cap' k)
  | Alt r1 r2 =>
      match rmatch r1 s cap k with
      | Some x => Some x
      | None => rmatch r2 s cap k
      end
  | Group r1 =>
      rmatch r1 s cap
        (fun s' _ => k s' (Some (firstn (length s - length s') s)))
  | Opt r1 =>
      match rmatch r1 s cap k with
      | Some x => Some x
      | None => k s cap
      end
  | End =>
      match s with
      | [] => k s cap
      | _ :: _ => None
      end
  end.
End Matcher.

(** A successful match: capture 1 and the input after the match. *)
Record result := { capture : option jsstring; rest : jsstring }.

Definition matchHere (r : t) (s : jsstring) : option result :=
  rmatch r s None (fun s' cap => Some {| capture := cap; rest := s' |}).

(** The leftmost match: every start position is tried in turn, the end of
    the input included.  With the [g] flag the search of the next call
    starts at [lastIndex], the end of the previous match: the input of the
    next call is then the [rest] of this one. *)
Fixpoint exec (r : t) (s : jsstring) : option result :=
  match matchHere r s with
  | Some m => Some m
  | None =>
      match s with
      | [] => None
      | _ :: s' => exec r s'
      end
  end.

(** [str.match(r)] for an expression without the [g] flag, read at
    capture 1. *)
Definition match1 (r : t) (s : jsstring) : option jsstring :=
  match exec r s with
  | Some m => Some (default [] (capture m))
  | None => None
  end.

(** What an expression denotes, whatever the order in which the matcher
    tries the alternatives: [matches r s s' cap cap'] when [r] can consume
    the part of [s] before its suffix [s'], taking capture 1 from [cap] to
    [cap']. *)
Fixpoint matches (r : t) (s s' : jsstring) (cap cap' : option jsstring)
    : Prop :=
  match r with
  | Lit text =>
      cap' = cap
      /\ exists mid, s = mid ++ s'
                     /\ Forall2 (fun p c => charEq p c = true) text mid
  | Rep cl lo hi _ =>
      cap' = cap
      /\ exists mid, s = mid ++ s'
                     /\ Forall (fun c => inClass cl c = true) mid
                     /\ (lo <= length mid)%nat
                     /\ match hi with
                        | Some h => (length mid <= h)%nat
                        | None => True
                        end
  | Seq r1 r2 =>
      exists s1 cap1, matches r1 s s1 cap cap1 /\ matches r2 s1 s' cap1 cap'
  | Alt r1 r2 => matches r1 s s' cap cap' \/ matches r2 s s' cap cap'
  | Group r1 =>
      exists mid cap1, matches r1 s s' cap cap1
                       /\ s = mid ++ s' /\ cap' = Some mid
  | Opt r1 => matches r1 s s' cap cap' \/ (s' = s /\ cap' = cap)
  | End => s = [] /\ s' = [] /\ cap' = cap
  end.

(** [r] matches somewhere in [s], with capture 1 equal to [cap]. *)
Definition occursIn (r : t) (s : jsstring) (cap : option jsstring) : Prop :=
  exists before after rest,
    s = before ++ after /\ matches r after rest None cap.

(** [cat [r1; ...; rn]] is the sequence [r1 ... rn]. *)
Fixpoint cat (rs : list t) : t :=
  match rs with
  | [] => Lit []
  | [r] => r
  | r :: rs' => Seq r (cat rs')
  end.

Definition star (cl : cclass) : t := Rep cl 0 None true.
Definition plus (cl : cclass) : t := Rep cl 1 None true.
Definition lazyStar (cl : cclass) : t := Rep cl 0 None false.
Definition between (cl : cclass) (lo hi : nat) : t :=
  Rep cl lo (Some hi) true.

End Regex.

(* ===================================================================== *)
(** * Data model *)
(* ===================================================================== *)

Module ReviewComment.
Record t := mk {
  id : Z;
  path : jsstring;
  line : option Z;          (* number | null *)
  body : jsstring;
  user : jsstring;
  url : jsstring;
  createdAt : jsstring;
  isResolved : bool
}.

Definition setResolved (c : t) (b : bool) : t :=
  mk (id c) (path c) (line c) (body c) (user c) (url c) (createdAt c) b.
End ReviewComment.

Module Review.
Record t := mk {
  id : Z;
  body : jsstring;
  user : jsstring;
  state : jsstring;
  url : jsstring;
  submittedAt : jsstring
}.
End Review.

Module AggregatedFeedback.
Record t := mk {
  prNumber : Z;
  prTitle : jsstring;
  prUrl : jsstring;
  openComments : list ReviewComment.t;
  resolvedComments : list ReviewComment.t;
  reviews : list Review.t;
  updatedAt : jsstring
}.
End AggregatedFeedback.

(* ===================================================================== *)
(** * Noise filter *)
(* ===================================================================== *)

Definition isIgnoredBotComment (body : jsstring) : bool :=
  let lowerBody := JsString.toLowerCase body in
  if JsString.includes lowerBody (js "rate limit")
     && JsString.includes lowerBody (js "coderabbit")
  then true
  else false.

(* ===================================================================== *)
(** * Structured-text extractor *)
(* ===================================================================== *)

Module Extractor.
Import Regex.

Definition backtick : N := 96%N.

(** [/<details><summary>Prompt To Fix With AI<\/summary>\s*`{3,5}markdown\s*([\s\S]*?)`{3,5}\s*<\/details>/gi] *)
Definition promptBlockRegex : Regex.t :=
  cat [ Lit (js "<details><summary>Prompt To Fix With AI</summary>");
        star CSpace;
        between (CChar backtick) 3 5;
        Lit (js "markdown");
        star CSpace;
        Group (lazyStar CAny);
        between (CChar backtick) 3 5;
        star CSpace;
        Lit (js "</details>") ].

(** [/Path:\s*(.+)/i] *)
Definition pathRegex : Regex.t :=
  cat [ Lit (js "Path:"); star CSpace; Group (plus CDot) ].

(** [/Line:\s*(\d+)(?::\d+)?/i] *)
Definition lineRegex : Regex.t :=
  cat [ Lit (js "Line:"); star CSpace; Group (plus CDigit);
        Opt (cat [ Lit (js ":"); plus CDigit ]) ].

(** [/Comment:\s*([\s\S]*?)(?:How can I resolve|$)/i] *)
Definition commentRegex : Regex.t :=
  cat [ Lit (js "Comment:"); star CSpace; Group (lazyStar CAny);
        Alt (Lit (js "How can I resolve")) End ].

Section Parse.
Variables (commentId : Z) (user url createdAt : jsstring).

(** The body of the [while] loop for one [blockMatch]: the comments
    array after the iteration. *)
Definition parseBlock (blockContent : jsstring)
    (comments : list ReviewComment.t) : list ReviewComment.t :=
  let pathMatch := match1 pathRegex blockContent in
  let lineMatch := match1 lineRegex blockContent in
  let commentMatch := match1 commentRegex blockContent in
  match pathMatch, commentMatch with
  | Some pathMatch1, Some commentMatch1 =>
      let path := JsString.trim pathMatch1 in
      let line :=
        match lineMatch with
        | Some lineMatch1 => Some (JsString.parseInt lineMatch1)
        | None => None
        end in
      let commentText := JsString.trim commentMatch1 in
      comments ++
      [ ReviewComment.mk (commentId + Z.of_nat (length comments))
          path line commentText user url createdAt false ]
  | _, _ => comments
  end.

(** The [while ((blockMatch = promptBlockRegex.exec(body)) !== null)]
    loop.  [input] is the part of the body from [lastIndex] on; [fuel]
    bounds the number of iterations. *)
Fixpoint parseLoop (fuel : nat) (input : jsstring)
    (comments : list ReviewComment.t) : list ReviewComment.t :=
  match fuel with
  | O => comments
  | S fuel' =>
      match exec promptBlockRegex input with
      | None => comments
      | Some blockMatch =>
          let blockContent := default [] (capture blockMatch) in
          parseLoop fuel' (rest blockMatch)
            (parseBlock blockContent comments)
      end
  end.

(** Every match consumes at least the opening tag, so the loop runs at
    most [length body] times (see [parseLoop_fuel]). *)
Definition parseGreptileComments (body : jsstring)
    : list ReviewComment.t :=
  parseLoop (S (length body)) body [].
End Parse.

End Extractor.

(** The loop of the extractor taken apart, for the proofs: the matches it
    goes through, and what one iteration does with a match.
    [ExtractorFacts.parseGreptileComments_imap] shows that this is the
    loop. *)
Module Unrolled.

(** Capture 1 of the successive matches of the [while] loop. *)
Fixpoint blocksFrom (fuel : nat) (input : jsstring) : list jsstring :=
  match fuel with
  | O => []
  | S fuel' =>
      match Regex.exec Extractor.promptBlockRegex input with
      | None => []
      | Some blockMatch =>
          default [] (Regex.capture blockMatch)
          :: blocksFrom fuel' (Regex.rest blockMatch)
      end
  end.

Definition blockContents (body : jsstring) : list jsstring :=
  blocksFrom (S (length body)) body.

(** What the body of the loop computes from one [blockContent], when the
    [if] accepts it: [path], [line] and [commentText]. *)
Definition blockFields (blockContent : jsstring)
    : option (jsstring * option Z * jsstring) :=
  match Regex.match1 Extractor.pathRegex blockContent,
        Regex.match1 Extractor.commentRegex blockContent with
  | Some pathText, Some commentText =>
      Some (JsString.trim pathText,
            option_map JsString.parseInt
              (Regex.match1 Extractor.lineRegex blockContent),
            JsString.trim commentText)
  | _, _ => None
  end.

(** The object that the loop pushes, [ordinal] being [comments.length]. *)
Definition commentOf (commentId : Z) (user url createdAt : jsstring)
    (ordinal : nat) (fields : jsstring * option Z * jsstring)
    : ReviewComment.t :=
  let '(path, line, text) := fields in
  ReviewComment.mk (commentId + Z.of_nat ordinal) path line text
    user url createdAt false.

End Unrolled.

(* ===================================================================== *)
(** * Effects: exceptions and the action log *)
(* ===================================================================== *)

(** The completion of a call that may throw. *)
Inductive completion (A : Type) :=
| Normal (value : A)
| Throw (error : jsstring).
Arguments Normal {A} value.
Arguments Throw {A} error.

Definition bind {A B} (c : completion A) (f : A -> completion B)
    : completion B :=
  match c with
  | Normal a => f a
  | Throw e => Throw e
  end.

Notation "'let*' x ':=' c 'in' k" := (bind c (fun x => k))
  (at level 10, x name, c at level 100, k at level 200).

(** What the run reports through [core.info], [core.warning] and
    [core.setFailed]. *)
Inductive LogEntry :=
| Info (message : jsstring)
| Warning (message : jsstring)
| Failed (message : jsstring).

(* ===================================================================== *)
(** * Sources: issue comments, inline comments, reviews *)
(* ===================================================================== *)

(** A record of [issues.listComments].  [login] is [comment.user?.login]
    and [body] is [comment.body]; both may be missing. *)
Module IssueComment.
Record t := mk {
  id : Z;
  login : option jsstring;
  body : option jsstring;
  html_url : jsstring;
  created_at : jsstring
}.
End IssueComment.

Definition fetchGreptileCommentsFromIssueComments
    (issueComments : list IssueComment.t) : list ReviewComment.t :=
  fold_left
    (fun greptileComments comment =>
       let user :=
         JsString.orElse (default [] (IssueComment.login comment))
           (js "unknown") in
       if JsString.eqb user (js "greptile-apps[bot]")
          && match IssueComment.body comment with
             | Some body => JsString.includes body (js "Prompt To Fix With AI")
             | None => false
             end
       then
         let parsed :=
           Extractor.parseGreptileComments
             (IssueComment.id comment) user
             (IssueComment.html_url comment)
             (IssueComment.created_at comment)
             (default [] (IssueComment.body comment)) in
         greptileComments ++ parsed
       else greptileComments)
    issueComments [].

(** A record of [pulls.listReviewComments]. *)
Module InlineComment.
Record t := mk {
  id : Z;
  path : jsstring;
  line : option Z;
  original_line : option Z;
  body : jsstring;
  login : option jsstring;
  html_url : jsstring;
  created_at : jsstring
}.
End InlineComment.

(** [a || b] on [number | null]: [null] and [0] are falsy. *)
Definition numberOr (a b : option Z) : option Z :=
  match a with
  | Some n => if n =? 0 then b else a
  | None => b
  end.

Definition fetchReviewComments (reviewComments : list InlineComment.t)
    : list ReviewComment.t :=
  map (fun comment =>
         ReviewComment.mk
           (InlineComment.id comment)
           (InlineComment.path comment)
           (numberOr (numberOr (InlineComment.line comment)
                               (InlineComment.original_line comment))
                     None)
           (InlineComment.body comment)
           (JsString.orElse (default [] (InlineComment.login comment))
              (js "unknown"))
           (InlineComment.html_url comment)
           (InlineComment.created_at comment)
           false)
      reviewComments.

(** A record of [pulls.listReviews]. *)
Module RawReview.
Record t := mk {
  id : Z;
  body : option jsstring;
  login : option jsstring;
  state : jsstring;
  html_url : jsstring;
  submitted_at : option jsstring
}.
End RawReview.

Definition fetchReviews (reviews : list RawReview.t) : list Review.t :=
  map (fun review =>
         Review.mk
           (RawReview.id review)
           (JsString.orElse (default [] (RawReview.body review)) [])
           (JsString.orElse (default [] (RawReview.login review))
              (js "unknown"))
           (RawReview.state review)
           (RawReview.html_url review)
           (JsString.orElse (default [] (RawReview.submitted_at review)) []))
      (List.filter
         (fun review =>
            match RawReview.body review with
            | Some body =>
                negb (JsString.eqb body [])
                && negb (JsString.eqb (JsString.trim body) [])
            | None => false
            end)
         reviews).

(* ===================================================================== *)
(** * Resolution reconciler *)
(* ===================================================================== *)

(** One node of [reviewThreads]: its flag and the [databaseId] of the
    nodes of [comments(first: 1)]; [databaseId] is nullable. *)
Module ReviewThread.
Record t := mk {
  isResolved : bool;
  comments : list (option Z)
}.
End ReviewThread.

(** What [octokit.graphql] does: it returns the threads, or it throws. *)
Inductive GraphqlResponse :=
| GraphqlData (threads : list ReviewThread.t)
| GraphqlFailure (error : jsstring).

(** The [Set] built by the loop over the threads. *)
Definition resolvedThreadIds (threads : list ReviewThread.t)
    : gset (option Z) :=
  fold_left
    (fun ids thread =>
       if ReviewThread.isResolved thread
          && (0 <? length (ReviewThread.comments thread))%nat
       then
         match ReviewThread.comments thread with
         | databaseId :: _ => ids ∪ {[ databaseId ]}
         | [] => ids
         end
       else ids)
    threads ∅.

Definition fetchResolvedStatus (response : GraphqlResponse)
    (comments : list ReviewComment.t)
    : list ReviewComment.t * list LogEntry :=
  match response with
  | GraphqlData threads =>
      let ids := resolvedThreadIds threads in
      (map (fun comment =>
              ReviewComment.setResolved comment
                (bool_decide (Some (ReviewComment.id comment) ∈ ids)))
           comments,
       [])
  | GraphqlFailure error =>
      (comments,
       [Warning (js "Could not fetch resolved status via GraphQL: " ++ error)])
  end.

(* ===================================================================== *)
(** * Arrays and plain objects *)
(* ===================================================================== *)

(** [Array.prototype.sort] with a comparator.  The sort of ECMAScript is
    stable, so for a comparator that is a consistent order the result is
    the one stable sorted arrangement; insertion sort computes it. *)
Module JsArray.
Section Sort.
Context {A : Type} (compareFn : A -> A -> Z).

Fixpoint insert (x : A) (l : list A) : list A :=
  match l with
  | [] => [x]
  | y :: l' =>
      if compareFn x y <=? 0 then x :: l else y :: insert x l'
  end.

Fixpoint sort (l : list A) : list A :=
  match l with
  | [] => []
  | x :: l' => insert x (sort l')
  end.
End Sort.
End JsArray.

(** A plain object ([{}]) used as a map from strings to values.  The own
    properties are kept in creation order.  Reading a key that is not an
    own property falls through to [Object.prototype].  [Object.keys] and
    [Object.entries] list the own keys that are array indices first, in
    ascending numeric order, and then the other keys in creation order
    (OrdinaryOwnPropertyKeys). *)
Module JsObject.

(** The property names of [Object.prototype]; each holds a function, or
    for [__proto__] the prototype object itself: a truthy value that is
    not an array. *)
Definition objectPrototypeNames : list jsstring :=
  [ js "constructor"; js "__defineGetter__"; js "__defineSetter__";
    js "hasOwnProperty"; js "__lookupGetter__"; js "__lookupSetter__";
    js "isPrototypeOf"; js "propertyIsEnumerable"; js "toString";
    js "valueOf"; js "__proto__"; js "toLocaleString" ].

Definition isInherited (key : jsstring) : bool :=
  existsb (JsString.eqb key) objectPrototypeNames.

(** An array index is the canonical decimal text of an integer below
    [2^32 - 1]: digits only, and no leading zero except for ["0"]. *)
Definition isArrayIndex (key : jsstring) : bool :=
  match key with
  | [] => false
  | c :: more =>
      forallb JsString.isDigit key
      && (negb (c =? 48)%N || match more with [] => true | _ => false end)
      && (JsString.parseInt key <? 2 ^ 32 - 1)
  end.

Section Object.
Context {V : Type}.

Definition t := list (jsstring * V).

Inductive lookup :=
| Own (value : V)
| Inherited
| Undefined.

Fixpoint getOwn (obj : t) (key : jsstring) : option V :=
  match obj with
  | [] => None
  | (k, v) :: obj' =>
      if JsString.eqb k key then Some v else getOwn obj' key
  end.

(** [obj[key]] *)
Definition get (obj : t) (key : jsstring) : lookup :=
  match getOwn obj key with
  | Some v => Own v
  | None => if isInherited key then Inherited else Undefined
  end.

(** [obj[key] = v] for a key that is an own property or is not
    inherited: an existing property keeps its place, a new one is
    created last. *)
Fixpoint set (obj : t) (key : jsstring) (v : V) : t :=
  match obj with
  | [] => [(key, v)]
  | (k, v0) :: obj' =>
      if JsString.eqb k key then (k, v) :: obj'
      else (k, v0) :: set obj' key v
  end.

Definition compareIndex (a b : jsstring * V) : Z :=
  JsString.parseInt (fst a) - JsString.parseInt (fst b).

(** [Object.entries(obj)] *)
Definition entries (obj : t) : list (jsstring * V) :=
  JsArray.sort compareIndex
    (List.filter (fun kv => isArrayIndex (fst kv)) obj)
  ++ List.filter (fun kv => negb (isArrayIndex (fst kv))) obj.

(** [Object.keys(obj)] *)
Definition keys (obj : t) : list jsstring := map fst (entries obj).
End Object.

Arguments t : clear implicits.
Arguments lookup : clear implicits.
End JsObject.

(* ===================================================================== *)
(** * Aggregator: [groupByFile] *)
(* ===================================================================== *)

(** [comment.path || 'general'] *)
Definition groupKey (comment : ReviewComment.t) : jsstring :=
  JsString.orElse (ReviewComment.path comment) (js "general").

(** [comment.line || 0] *)
Definition lineOrZero (comment : ReviewComment.t) : Z :=
  match ReviewComment.line comment with
  | Some n => n
  | None => 0
  end.

Definition compareByLine (a b : ReviewComment.t) : Z :=
  lineOrZero a - lineOrZero b.

(** One iteration of the first loop.  When [groups[path]] is inherited from
    [Object.prototype] it is truthy, no array is created, and the call of
    its [push] throws a TypeError. *)
Definition addToGroup (groups : JsObject.t (list ReviewComment.t))
    (comment : ReviewComment.t)
    : completion (JsObject.t (list ReviewComment.t)) :=
  let path := groupKey comment in
  match JsObject.get groups path with
  | JsObject.Undefined => Normal (JsObject.set groups path [comment])
  | JsObject.Own group => Normal (JsObject.set groups path (group ++ [comment]))
  | JsObject.Inherited => Throw (js "groups[path].push is not a function")
  end.

(** One iteration of the second loop: [groups[path].sort(...)] sorts the
    array in place. *)
Definition sortGroup (groups : JsObject.t (list ReviewComment.t))
    (path : jsstring) : JsObject.t (list ReviewComment.t) :=
  match JsObject.getOwn groups path with
  | Some group => JsObject.set groups path (JsArray.sort compareByLine group)
  | None => groups
  end.

Definition groupByFile (comments : list ReviewComment.t)
    : completion (JsObject.t (list ReviewComment.t)) :=
  let* groups :=
    fold_left (fun acc comment => let* groups := acc in addToGroup groups comment)
      comments (Normal []) in
  Normal (fold_left sortGroup (JsObject.keys groups) groups).

(* ===================================================================== *)
(** * Renderer: [generateMarkdown] *)
(* ===================================================================== *)

Module Renderer.
Import AggregatedFeedback.

(** U+00B7, the middle dot of the item lines. *)
Definition middleDot : jsstring := [183%N].

(** A number in a condition: [null] and [0] are falsy. *)
Definition truthy (n : option Z) : bool :=
  match n with
  | Some z => negb (z =? 0)
  | None => false
  end.

(** [str.replace(from, to)] for one-character strings: the first
    occurrence only. *)
Fixpoint replaceFirst (from to : N) (s : jsstring) : jsstring :=
  match s with
  | [] => []
  | c :: s' => if (c =? from)%N then to :: s' else c :: replaceFirst from to s'
  end.

(** Lines 238-245. *)
Definition headerLines (feedback : t) : list jsstring :=
  [ js "# PR #" ++ JsString.ofNumber (prNumber feedback) ++ js " Review Feedback";
    [];
    js "> **For AI coding assistants:** Fix all unchecked items below. Each item includes";
    js "> the file path, line number, reviewer, and their feedback.";
    js ">";
    js "> **PR:** [" ++ prTitle feedback ++ js "](" ++ prUrl feedback ++ js ")";
    js "> **Last updated:** " ++ updatedAt feedback;
    [] ].

(** Lines 250-256: the status, each [push] one element of [lines]. *)
Definition statusLines (openCount resolvedCount : Z)
    (includeResolved : bool) : list jsstring :=
  [ js "**Status:** " ++ JsString.ofNumber openCount ++ js " open issue"
      ++ (if negb (openCount =? 1) then js "s" else []) ]
  ++ (if includeResolved && (0 <? resolvedCount)
      then [ js " | " ++ JsString.ofNumber resolvedCount ++ js " resolved" ]
      else [])
  ++ [ []; js "---"; [] ].

(** Lines 270-278: one open comment. *)
Definition commentLines (comment : ReviewComment.t) : list jsstring :=
  let lineInfo :=
    if truthy (ReviewComment.line comment)
    then js "Line " ++ JsString.ofNumber (default 0 (ReviewComment.line comment))
    else js "General" in
  [ js "- [ ] **" ++ lineInfo ++ js "** " ++ middleDot ++ js " @"
      ++ ReviewComment.user comment;
    [] ]
  ++ map (fun bodyLine => js "  > " ++ bodyLine)
       (JsString.split (ReviewComment.body comment))
  ++ [ [] ].

(** Lines 266-279: one file group. *)
Definition groupLines (entry : jsstring * list ReviewComment.t)
    : list jsstring :=
  let (filePath, comments) := entry in
  [ js "### `" ++ filePath ++ js "`"; [] ]
  ++ flat_map commentLines comments.

Definition noOpenIssuesLines : list jsstring :=
  [ js "## No Open Issues";
    [];
    js "All review comments have been resolved!";
    [] ].

(** Lines 259-286: the issues section. *)
Definition issuesLines (feedback : t) : completion (list jsstring) :=
  let openCount := Z.of_nat (length (openComments feedback)) in
  if 0 <? openCount then
    let* byFile := groupByFile (openComments feedback) in
    Normal ([ js "## Open Issues"; [] ]
            ++ flat_map groupLines (JsObject.entries byFile))
  else Normal noOpenIssuesLines.

(** Lines 296-299: one resolved comment. *)
Definition resolvedLine (comment : ReviewComment.t) : jsstring :=
  let location :=
    if truthy (ReviewComment.line comment)
    then js "`" ++ ReviewComment.path comment ++ js ":"
         ++ JsString.ofNumber (default 0 (ReviewComment.line comment))
         ++ js "`"
    else js "`" ++ ReviewComment.path comment ++ js "`" in
  js "- [x] ~~" ++ location ++ js " " ++ middleDot ++ js " @"
    ++ ReviewComment.user comment ++ js "~~".

(** Lines 289-302: the resolved section. *)
Definition resolvedLines (feedback : t) (includeResolved : bool)
    : list jsstring :=
  let resolvedCount := Z.of_nat (length (resolvedComments feedback)) in
  if includeResolved && (0 <? resolvedCount)
  then [ js "---"; []; js "## Resolved"; [] ]
       ++ map resolvedLine (resolvedComments feedback)
       ++ [ [] ]
  else [].

(** Lines 316-328: one review; the three state markers of the source are
    empty strings. *)
Definition reviewLines (review : Review.t) : list jsstring :=
  let stateEmoji : jsstring :=
    if JsString.eqb (Review.state review) (js "APPROVED") then []
    else if JsString.eqb (Review.state review) (js "CHANGES_REQUESTED") then []
    else [] in
  [ js "### " ++ stateEmoji ++ js " @" ++ Review.user review ++ js " ("
      ++ replaceFirst 95 32 (JsString.toLowerCase (Review.state review))
      ++ js ")";
    [] ]
  ++ map (fun bodyLine => js "> " ++ bodyLine)
       (JsString.split (Review.body review))
  ++ [ [] ].

(** Lines 305-330: the review summaries. *)
Definition reviewsLines (feedback : t) : list jsstring :=
  let significantReviews :=
    List.filter
      (fun r => (20 <? length (Review.body r))%nat
                && negb (JsString.eqb (Review.state r) (js "PENDING")))
      (reviews feedback) in
  if (0 <? length significantReviews)%nat
  then [ js "---"; []; js "## Review Summaries"; [] ]
       ++ flat_map reviewLines significantReviews
  else [].

(** The [lines] array at the [return]. *)
Definition markdownLines (feedback : t) (includeResolved : bool)
    : completion (list jsstring) :=
  let openCount := Z.of_nat (length (openComments feedback)) in
  let resolvedCount := Z.of_nat (length (resolvedComments feedback)) in
  let* issues := issuesLines feedback in
  Normal (headerLines feedback
          ++ statusLines openCount resolvedCount includeResolved
          ++ issues
          ++ resolvedLines feedback includeResolved
          ++ reviewsLines feedback).

Definition generateMarkdown (feedback : t) (includeResolved : bool)
    : completion jsstring :=
  let* lines := markdownLines feedback includeResolved in
  Normal (JsString.join lines).

End Renderer.


(* ===================================================================== *)
(** * The renderer and the arrays it works on

    [generateMarkdown] is given the snapshot by reference, and
    [groupByFile] builds its groups by mutation: it creates arrays, pushes
    to them and sorts them in place.  Here the arrays of Comments live in
    a heap, the snapshot holds references to its two arrays, and the two
    functions are followed statement by statement.  The Comments
    themselves, the strings and the array of reviews are never written to
    and stay values. *)
(* ===================================================================== *)

Module Heap.

Definition ref := nat.

(** The arrays of Comments, by reference. *)
Definition t := list (list ReviewComment.t).

Definition get (h : t) (r : ref) : list ReviewComment.t :=
  default [] (h !! r).

(** The array literal [[]]: a new array. *)
Definition alloc (h : t) : t * ref := (h ++ [ [] ], length h).

Definition set (h : t) (r : ref) (array : list ReviewComment.t) : t :=
  <[r := array]> h.

(** [array.push(comment)] *)
Definition push (h : t) (r : ref) (comment : ReviewComment.t) : t :=
  set h r (get h r ++ [comment]).

(** [array.sort(compareFn)], in place. *)
Definition sort (compareFn : ReviewComment.t -> ReviewComment.t -> Z)
    (h : t) (r : ref) : t :=
  set h r (JsArray.sort compareFn (get h r)).

End Heap.

Module Stateful.

(** The snapshot as [generateMarkdown] receives it. *)
Record Snapshot := mkSnapshot {
  prNumber : Z;
  prTitle : jsstring;
  prUrl : jsstring;
  openComments : Heap.ref;
  resolvedComments : Heap.ref;
  reviews : list Review.t;
  updatedAt : jsstring
}.

(** What the snapshot holds in a given heap. *)
Definition read (h : Heap.t) (s : Snapshot) : AggregatedFeedback.t :=
  AggregatedFeedback.mk (prNumber s) (prTitle s) (prUrl s)
    (Heap.get h (openComments s)) (Heap.get h (resolvedComments s))
    (reviews s) (updatedAt s).

(** The result of a call and the heap it leaves. *)
Definition outcome (A : Type) : Type := completion A * Heap.t.

(** The first loop of [groupByFile], [for (const comment of comments)]:
    the iterator reads the array at index [i] at every step.  [None]
    stands for a loop that has not ended when [fuel] is used up. *)
Fixpoint groupLoop (fuel : nat) (h : Heap.t) (comments : Heap.ref)
    (i : nat) (groups : JsObject.t Heap.ref)
    : option (outcome (JsObject.t Heap.ref)) :=
  match fuel with
  | O => None
  | S fuel' =>
      match Heap.get h comments !! i with
      | None => Some (Normal groups, h)
      | Some comment =>
          let path := groupKey comment in
          (* if (!groups[path]) { groups[path] = [] } *)
          let '(h1, groups1) :=
            match JsObject.get groups path with
            | JsObject.Undefined =>
                let (h', r) := Heap.alloc h in
                (h', JsObject.set groups path r)
            | _ => (h, groups)
            end in
          (* groups[path].push(comment) *)
          match JsObject.get groups1 path with
          | JsObject.Own r =>
              groupLoop fuel' (Heap.push h1 r comment) comments (S i) groups1
          | _ => Some (Throw (js "groups[path].push is not a function"), h1)
          end
      end
  end.

(** One iteration of the second loop: [groups[path].sort(...)]. *)
Definition sortGroup (groups : JsObject.t Heap.ref) (h : Heap.t)
    (path : jsstring) : Heap.t :=
  match JsObject.getOwn groups path with
  | Some r => Heap.sort compareByLine h r
  | None => h
  end.

Definition groupByFile (h : Heap.t) (comments : Heap.ref)
    : option (outcome (JsObject.t Heap.ref)) :=
  match groupLoop (S (length (Heap.get h comments))) h comments 0 [] with
  | Some (Normal groups, h1) =>
      Some (Normal groups,
            fold_left (sortGroup groups) (JsObject.keys groups) h1)
  | other => other
  end.

(** Lines 259-286: the issues section; the arrays of the groups are read
    when they are iterated. *)
Definition issuesLines (h : Heap.t) (s : Snapshot) (openCount : Z)
    : option (outcome (list jsstring)) :=
  if 0 <? openCount then
    match groupByFile h (openComments s) with
    | Some (Normal byFile, h1) =>
        Some (Normal
                ([ js "## Open Issues"; [] ]
                 ++ flat_map
                      (fun entry =>
                         Renderer.groupLines
                           (fst entry, Heap.get h1 (snd entry)))
                      (JsObject.entries byFile)),
              h1)
    | Some (Throw error, h1) => Some (Throw error, h1)
    | None => None
    end
  else Some (Normal Renderer.noOpenIssuesLines, h).

(** Lines 289-302: the counts were read before the groups were built, the
    array of resolved Comments is read now. *)
Definition resolvedLines (h : Heap.t) (s : Snapshot) (resolvedCount : Z)
    (includeResolved : bool) : list jsstring :=
  if includeResolved && (0 <? resolvedCount)
  then [ js "---"; []; js "## Resolved"; [] ]
       ++ map Renderer.resolvedLine (Heap.get h (resolvedComments s))
       ++ [ [] ]
  else [].

Definition generateMarkdown (h : Heap.t) (s : Snapshot)
    (includeResolved : bool) : option (outcome jsstring) :=
  let feedback := read h s in
  let openCount :=
    Z.of_nat (length (AggregatedFeedback.openComments feedback)) in
  let resolvedCount :=
    Z.of_nat (length (AggregatedFeedback.resolvedComments feedback)) in
  match issuesLines h s openCount with
  | Some (Normal issues, h1) =>
      Some (Normal
              (JsString.join
                 (Renderer.headerLines feedback
                  ++ Renderer.statusLines openCount resolvedCount
                       includeResolved
                  ++ issues
                  ++ resolvedLines h1 s resolvedCount includeResolved
                  ++ Renderer.reviewsLines feedback)),
            h1)
  | Some (Throw error, h1) => Some (Throw error, h1)
  | None => None
  end.

(** The groups of [groupByFile] while it runs from the heap [h0]: the
    object [groups] holds in the heap [h] the arrays that [byFile] holds
    as values; these arrays were created after [h0], none is held twice,
    and the arrays of [h0] are as they were. *)
Definition represents (h0 h : Heap.t) (groups : JsObject.t Heap.ref)
    (byFile : JsObject.t (list ReviewComment.t)) : Prop :=
  (length h0 <= length h)%nat
  /\ (forall r, (r < length h0)%nat -> Heap.get h r = Heap.get h0 r)
  /\ Forall (fun entry => (length h0 <= snd entry < length h)%nat) groups
  /\ NoDup (map snd groups)
  /\ byFile = map (fun entry => (fst entry, Heap.get h (snd entry))) groups.

(** A call leaves the arrays that were there. *)
Definition preserves (h0 h : Heap.t) : Prop :=
  (length h0 <= length h)%nat
  /\ forall r, (r < length h0)%nat -> Heap.get h r = Heap.get h0 r.

End Stateful.

(* ===================================================================== *)
(** * Publisher: the committed feedback file *)
(* ===================================================================== *)

(** The files of the PR branch as the contents API of the platform shows
    them: a path holds a file, with the token ([sha]) of its current
    version, or a directory.  The API is taken to be reliable: a read fails
    only with status 404 for a path that holds nothing, and a write fails
    only when the token it is given is not the current one. *)
Module Publisher.

Inductive entry :=
| File (sha content : jsstring)
| Directory.

Inductive response (A : Type) :=
| Ok (data : A)
| HttpError (status : Z) (message : jsstring).
Arguments Ok {A} data.
Arguments HttpError {A} status message.

Section Sink.
(** The version token that the platform gives to a new content. *)
Variable blobSha : jsstring -> jsstring.

Definition getContent (files : gmap jsstring entry) (path : jsstring)
    : response entry :=
  match files !! path with
  | Some e => Ok e
  | None => HttpError 404 (js "Not Found")
  end.

Definition createOrUpdateFileContents (files : gmap jsstring entry)
    (path content : jsstring) (sha : option jsstring)
    : response (gmap jsstring entry) :=
  match files !! path, sha with
  | None, None => Ok (<[path := File (blobSha content) content]> files)
  | Some (File current _), Some given =>
      if JsString.eqb current given
      then Ok (<[path := File (blobSha content) content]> files)
      else HttpError 409 (js "Conflict")
  | _, _ => HttpError 422 (js "Unprocessable Entity")
  end.

Definition deleteFile (files : gmap jsstring entry)
    (path sha : jsstring) : response (gmap jsstring entry) :=
  match files !! path with
  | Some (File current _) =>
      if JsString.eqb current sha
      then Ok (delete path files)
      else HttpError 409 (js "Conflict")
  | Some Directory => HttpError 422 (js "Unprocessable Entity")
  | None => HttpError 404 (js "Not Found")
  end.

(** The result of a sink: the files afterwards and what was logged. *)
Definition outcome : Type := gmap jsstring entry * list LogEntry.

Definition commitFeedbackFile (files : gmap jsstring entry)
    (filePath content : jsstring) (prNumber : Z) : completion outcome :=
  let* sha :=
    match getContent files filePath with
    | Ok (File sha _) => Normal (Some sha)
    | Ok Directory => Normal None
    | HttpError status message =>
        if negb (status =? 404) then Throw message else Normal None
    end in
  match createOrUpdateFileContents files filePath content sha with
  | Ok files' =>
      Normal (files', [Info (js "Committed feedback file to " ++ filePath)])
  | HttpError _ message => Throw message
  end.

Definition deleteFeedbackFile (files : gmap jsstring entry)
    (filePath : jsstring) (prNumber : Z) : completion outcome :=
  match getContent files filePath with
  | Ok (File sha _) =>
      match deleteFile files filePath sha with
      | Ok files' =>
          Normal (files', [Info (js "Deleted feedback file " ++ filePath)])
      | HttpError status message =>
          if negb (status =? 404) then Throw message else Normal (files, [])
      end
  | Ok Directory => Normal (files, [])
  | HttpError status message =>
      if negb (status =? 404) then Throw message else Normal (files, [])
  end.

(** Lines 558-565 of [run]; an empty path disables the sink. *)
Definition publishFeedbackFile (files : gmap jsstring entry)
    (feedbackFilePath : jsstring) (openComments : list ReviewComment.t)
    (markdown : jsstring) (prNumber : Z) : completion outcome :=
  match feedbackFilePath with
  | _ :: _ =>
      if (length openComments =? 0)%nat
      then deleteFeedbackFile files feedbackFilePath prNumber
      else commitFeedbackFile files feedbackFilePath markdown prNumber
  | [] => Normal (files, [])
  end.
End Sink.

End Publisher.

(* ===================================================================== *)
(** * The run *)
(* ===================================================================== *)

(** What one run reads: the inputs of the action, the number of the PR in
    the event, and the answers of the platform. *)
Module RunInput.
Record t := mk {
  feedbackFilePath : jsstring;
  includeResolved : bool;
  prNumber : option Z;
  prTitle : jsstring;
  prUrl : jsstring;
  reviewComments : list InlineComment.t;
  graphql : GraphqlResponse;
  reviews : list RawReview.t;
  issueComments : list IssueComment.t;
  now : jsstring
}.
End RunInput.

(** Lines 517-531: fetch, reconcile, merge, filter.  The result is the
    filtered comment set, with what these steps log. *)
Definition collectComments (input : RunInput.t)
    : list ReviewComment.t * list LogEntry :=
  let comments := fetchReviewComments (RunInput.reviewComments input) in
  let (comments, log) := fetchResolvedStatus (RunInput.graphql input) comments in
  let greptileComments :=
    fetchGreptileCommentsFromIssueComments (RunInput.issueComments input) in
  let found :=
    if (0 <? length greptileComments)%nat
    then [Info (js "Found "
                ++ JsString.ofNumber (Z.of_nat (length greptileComments))
                ++ js " Greptile comments from issue comments")]
    else [] in
  let comments := comments ++ greptileComments in
  (List.filter (fun c => negb (isIgnoredBotComment (ReviewComment.body c)))
     comments,
   log ++ found).

(** Lines 532-545: the snapshot. *)
Definition buildFeedback (input : RunInput.t) (prNumber : Z)
    (comments : list ReviewComment.t) : AggregatedFeedback.t :=
  let filteredReviews :=
    List.filter (fun r => negb (isIgnoredBotComment (Review.body r)))
      (fetchReviews (RunInput.reviews input)) in
  let openComments :=
    List.filter (fun c => negb (ReviewComment.isResolved c)) comments in
  let resolvedComments :=
    List.filter (fun c => ReviewComment.isResolved c) comments in
  AggregatedFeedback.mk prNumber (RunInput.prTitle input) (RunInput.prUrl input)
    openComments resolvedComments filteredReviews (RunInput.now input).

Module RunResult.
Record t := mk {
  files : gmap jsstring Publisher.entry;
  log : list LogEntry;
  openCount : option nat;
  resolvedCount : option nat
}.
End RunResult.

(** [run], for what it does to the committed file, to the log and to the
    outputs.  The PR-comment sink (lines 552-555) writes to the
    conversation of the PR only and is left out. *)
Definition run (blobSha : jsstring -> jsstring) (input : RunInput.t)
    (files : gmap jsstring Publisher.entry) : RunResult.t :=
  match numberOr (RunInput.prNumber input) None with
  | None =>
      RunResult.mk files
        [Failed (js "Could not determine PR number from context")] None None
  | Some prNumber =>
      let processing :=
        Info (js "Processing PR #" ++ JsString.ofNumber prNumber ++ js ": "
              ++ RunInput.prTitle input) in
      let (comments, log) := collectComments input in
      let feedback := buildFeedback input prNumber comments in
      let openComments := AggregatedFeedback.openComments feedback in
      let resolvedComments := AggregatedFeedback.resolvedComments feedback in
      let counted :=
        Info (js "Found "
              ++ JsString.ofNumber (Z.of_nat (length openComments))
              ++ js " open, "
              ++ JsString.ofNumber (Z.of_nat (length resolvedComments))
              ++ js " resolved comments") in
      let published :=
        let* markdown :=
          Renderer.generateMarkdown feedback (RunInput.includeResolved input) in
        Publisher.publishFeedbackFile blobSha files
          (RunInput.feedbackFilePath input) openComments markdown prNumber in
      match published with
      | Normal (files', log') =>
          RunResult.mk files'
            (processing :: log ++ counted :: log' ++ [Info (js "Done!")])
            (Some (length openComments)) (Some (length resolvedComments))
      | Throw message =>
          RunResult.mk files (processing :: log ++ [counted; Failed message])
            None None
      end
  end.

(* ===================================================================== *)
(** * Vocabulary of the properties *)
(* ===================================================================== *)

Module Spec.

(** ASCII case folding: two code units are the same letter when they are
    equal or differ only in the case of an ASCII letter. *)
Definition foldCase (c : N) : N :=
  if ((65 <=? c) && (c <=? 90))%N then (c + 32)%N else c.

Definition sameLetter (a b : N) : Prop := foldCase a = foldCase b.

(** [needle] occurs in [s]. *)
Definition contains (s needle : jsstring) : Prop :=
  exists pre post, s = pre ++ needle ++ post.

(** [needle] occurs in [s] when the case of letters is ignored. *)
Definition containsIgnoringCase (s needle : jsstring) : Prop :=
  exists pre mid post, s = pre ++ mid ++ post /\ Forall2 sameLetter mid needle.

(** The distinct elements of a list of keys, in the order of their first
    occurrence. *)
Fixpoint firstSeen (keys : list jsstring) : list jsstring :=
  match keys with
  | [] => []
  | k :: keys' =>
      k :: List.filter (fun k' => negb (JsString.eqb k' k)) (firstSeen keys')
  end.

(** The comments of a list that belong to the group [key], in the order
    of the list. *)
Definition groupMembers (key : jsstring) (comments : list ReviewComment.t)
    : list ReviewComment.t :=
  List.filter (fun c => JsString.eqb (groupKey c) key) comments.

(** The groups of a list of comments in creation order: one per distinct
    key, in the order in which the keys are first seen, each with its
    members in the order of the list. *)
Definition grouped (comments : list ReviewComment.t)
    : JsObject.t (list ReviewComment.t) :=
  map (fun key => (key, groupMembers key comments))
    (firstSeen (map groupKey comments)).

(** An issue comment that the extractor is applied to: its author is the
    bot and its body holds the marker text. *)
Definition isGreptilePrompt (comment : IssueComment.t) : Prop :=
  IssueComment.login comment = Some (js "greptile-apps[bot]")
  /\ exists body, IssueComment.body comment = Some body
                 /\ contains body (js "Prompt To Fix With AI").

(** [id] is the anchor of a resolved thread: the [databaseId] of the first
    comment of a thread that is flagged resolved. *)
Definition isResolvedAnchor (threads : list ReviewThread.t) (id : Z) : Prop :=
  exists thread,
    In thread threads
    /\ ReviewThread.isResolved thread = true
    /\ head (ReviewThread.comments thread) = Some (Some id).

(** A needle is plain when its code units are ASCII, are not capitals,
    none is [k], and the last one is not [i]: on such a needle, searching
    the lower-cased text is searching the text with the case of ASCII
    letters ignored. *)
Definition plainUnit (p : N) : Prop :=
  (p < 128)%N /\ foldCase p = p /\ p <> 107%N.

Definition plain (needle : jsstring) : Prop :=
  Forall plainUnit needle /\ List.last needle 0%N <> 105%N.

(** What one issue comment adds to [greptileComments]. *)
Definition contribution (comment : IssueComment.t) : list ReviewComment.t :=
  fetchGreptileCommentsFromIssueComments [comment].

(** A list is ascending for a key. *)
Definition ascending {A : Type} (key : A -> Z) : list A -> Prop :=
  StronglySorted (fun a b => key a <= key b).

(** An entry with its group sorted. *)
Definition sortValue (entry : jsstring * list ReviewComment.t) :=
  (fst entry, JsArray.sort compareByLine (snd entry)).

(** The keys in the order in which [Object.keys] lists them, for keys
    created in the order [keys]. *)
Definition listed (keys : list jsstring) : list jsstring :=
  JsArray.sort (fun a b => JsString.parseInt a - JsString.parseInt b)
    (List.filter JsObject.isArrayIndex keys)
  ++ List.filter (fun k => negb (JsObject.isArrayIndex k)) keys.

(** A log without failure. *)
Definition noFailure (log : list LogEntry) : Prop :=
  Forall (fun entry => forall message, entry <> Failed message) log.

End Spec.

(* ===================================================================== *)
(** * Example inputs *)
(* ===================================================================== *)

Module Examples.

(** A block in the format of the bot around the given inner text. *)
Definition promptBlock (inner : jsstring) : jsstring :=
  js "<details><summary>Prompt To Fix With AI</summary>

`````markdown
This is a comment left during a code review.
" ++ inner ++ js "

How can I resolve this? If you propose a fix, please make it concise.
`````
</details>
".

Definition greptile (id : Z) (body : jsstring) : IssueComment.t :=
  IssueComment.mk id (Some (js "greptile-apps[bot]")) (Some body)
    (js "https://example.test/issuecomment") (js "2024-01-15T10:30:00Z").

(** Two comments of the bot with consecutive ids; the first one holds two
    blocks. *)
Definition consecutiveIssueComments : list IssueComment.t :=
  [ greptile 100
      (promptBlock (js "Path: src/a.go
Line: 10:12
Comment:
Check the error.")
       ++ promptBlock (js "Path: src/b.go
Line: 3
Comment:
Unused import."));
    greptile 101
      (promptBlock (js "Path: src/c.go
Line: 7
Comment:
Name the constant.")) ].

Definition consecutiveRun : RunInput.t :=
  RunInput.mk (js ".github/REVIEW_FEEDBACK.md") true (Some 123)
    (js "Add user authentication") (js "https://example.test/pull/123")
    [] (GraphqlData []) [] consecutiveIssueComments
    (js "2024-01-15T10:30:00Z").

End Examples.

Module ExtractorExamples.

(** A body with a block that has no path field, followed by a block with
    all three fields. *)
Definition body : jsstring :=
  js "Review summary.
"
  ++ Examples.promptBlock (js "Line: 3
Comment: no path here")
  ++ Examples.promptBlock (js "Path: src/app.ts
Line: 12:15

Comment:
**Missing null check**").



End ExtractorExamples.

Module FetchExamples.

(** The same body, once posted by another author and once by the bot. *)
Definition byAlice : IssueComment.t :=
  IssueComment.mk 100 (Some (js "alice")) (Some ExtractorExamples.body)
    (js "https://example.test/issuecomment") (js "2024-01-15T10:30:00Z").

Definition byGreptile (id : Z) : IssueComment.t :=
  Examples.greptile id ExtractorExamples.body.

End FetchExamples.

Module GroupExamples.

Definition openComment (path : jsstring) (line : Z) : ReviewComment.t :=
  ReviewComment.mk line path (Some line) (js "Please fix.") (js "alice")
    (js "https://example.test/comment") (js "2024-01-15T10:30:00Z") false.

(** The comments of the scenario: paths [b.go], [a.go], [b.go] with the
    lines 5, 1 and 2. *)
Definition scenario : list ReviewComment.t :=
  [ openComment (js "b.go") 5; openComment (js "a.go") 1;
    openComment (js "b.go") 2 ].

(** A file named [b.go] and then a file named [7]. *)
Definition numericPath : list ReviewComment.t :=
  [ openComment (js "b.go") 5; openComment (js "7") 1 ].

End GroupExamples.

Module RenderExamples.

Definition inline (id : Z) (path : jsstring) (line : Z) (user : jsstring)
    (resolved : bool) : ReviewComment.t :=
  ReviewComment.mk id path (Some line) (js "Please fix.") user
    (js "https://example.test/comment") (js "2024-01-15T10:30:00Z") resolved.

(** PR #123 with two open comments on [src/a.go] and one resolved comment
    on [src/b.go]. *)
Definition scenario : AggregatedFeedback.t :=
  AggregatedFeedback.mk 123 (js "Add user authentication")
    (js "https://example.test/pull/123")
    [ inline 1 (js "src/a.go") 10 (js "alice") false;
      inline 2 (js "src/a.go") 5 (js "bob") false ]
    [ inline 3 (js "src/b.go") 1 (js "carol") true ]
    []
    (js "2024-01-15T10:30:00Z").

(** The same PR by reference: the heap holds the array of open comments
    and the array of resolved comments, the snapshot refers to them. *)
Definition heap : Heap.t :=
  [ AggregatedFeedback.openComments scenario;
    AggregatedFeedback.resolvedComments scenario ].

Definition snapshot : Stateful.Snapshot :=
  Stateful.mkSnapshot 123 (js "Add user authentication")
    (js "https://example.test/pull/123") 0%nat 1%nat []
    (js "2024-01-15T10:30:00Z").

End RenderExamples.

Module RunExamples.

Definition feedbackPath : jsstring := js ".github/REVIEW_FEEDBACK.md".

(** A run whose only comment is an inline comment of a resolved thread. *)
Definition allResolved : RunInput.t :=
  RunInput.mk feedbackPath true (Some 123)
    (js "Add user authentication") (js "https://example.test/pull/123")
    [ InlineComment.mk 3 (js "src/b.go") (Some 1) None (js "Done?")
        (Some (js "carol")) (js "https://example.test/comment")
        (js "2024-01-15T10:30:00Z") ]
    (GraphqlData [ ReviewThread.mk true [Some 3] ])
    [] []
    (js "2024-01-15T10:30:00Z").

(** A branch that holds the feedback file of an earlier run. *)
Definition withFeedbackFile : gmap jsstring Publisher.entry :=
  {[ feedbackPath := Publisher.File (js "3b18e512") (js "# PR #123 Review Feedback") ]}.

End RunExamples.

(* ===================================================================== *)
(** * Publisher: the PR comment *)
(* ===================================================================== *)

(** The conversation of the PR as the platform keeps it: its comments in
    the order of their creation.  [issues.listComments] is called with
    [per_page: 100] and without a page, so it answers with the first
    hundred comments.  The API is taken to be reliable: an update fails
    only with status 404, for an id that no comment has. *)
Module CommentSink.

Definition marker : jsstring := js "<!-- AGENT_CODE_REVIEW_FEEDBACK -->".

Definition listComments (conversation : list IssueComment.t)
    : list IssueComment.t :=
  firstn 100 conversation.

(** [c.body?.includes(marker)] *)
Definition hasMarker (c : IssueComment.t) : bool :=
  match IssueComment.body c with
  | Some body => JsString.includes body marker
  | None => false
  end.

Definition findExistingComment (conversation : list IssueComment.t)
    : option Z :=
  let comments := listComments conversation in
  let existing := List.find hasMarker comments in
  match existing with
  | Some c => numberOr (Some (IssueComment.id c)) None
  | None => None
  end.

Definition setBody (c : IssueComment.t) (body : jsstring) : IssueComment.t :=
  IssueComment.mk (IssueComment.id c) (IssueComment.login c) (Some body)
    (IssueComment.html_url c) (IssueComment.created_at c).

(** [issues.updateComment]: the comment of that id gets the body. *)
Definition updateComment (conversation : list IssueComment.t)
    (comment_id : Z) (body : jsstring)
    : Publisher.response (list IssueComment.t) :=
  if existsb (fun c => IssueComment.id c =? comment_id) conversation
  then Publisher.Ok
         (map (fun c => if IssueComment.id c =? comment_id
                        then setBody c body else c)
            conversation)
  else Publisher.HttpError 404 (js "Not Found").

Section Sink.
(** The comment that the platform creates for the token of the run, apart
    from its body: its id, author, permalink and time. *)
Variable created : IssueComment.t.

(** [issues.createComment]: a new comment, the last of the conversation. *)
Definition createComment (conversation : list IssueComment.t)
    (body : jsstring) : list IssueComment.t :=
  conversation ++ [setBody created body].

Definition postOrUpdateComment (conversation : list IssueComment.t)
    (markdown : jsstring)
    : completion (list IssueComment.t * list LogEntry) :=
  let body := marker ++ JsString.newline :: markdown in
  match findExistingComment conversation with
  | Some existingId =>
      match updateComment conversation existingId body with
      | Publisher.Ok conversation' =>
          Normal (conversation',
                  [Info (js "Updated existing comment "
                         ++ JsString.ofNumber existingId)])
      | Publisher.HttpError _ message => Throw message
      end
  | None =>
      Normal (createComment conversation body,
              [Info (js "Created new comment")])
  end.

(** Lines 552-555 of [run]. *)
Definition publishComment (postComment : bool)
    (conversation : list IssueComment.t) (markdown : jsstring)
    : completion (list IssueComment.t * list LogEntry) :=
  if postComment then postOrUpdateComment conversation markdown
  else Normal (conversation, []).
End Sink.

End CommentSink.

(* ===================================================================== *)
(** * Vocabulary of further properties *)
(* ===================================================================== *)

Module Props.

(** A string that [trim] leaves as it is: no white space at either end. *)
Definition trimmed (s : jsstring) : Prop := JsString.trim s = s.

(** A string that does not start with white space. *)
Definition startsClean (s : jsstring) : Prop :=
  match s with
  | c :: _ => JsString.isSpace c = false
  | [] => True
  end.

(** The phrase that ends the comment text of a block. *)
Definition promptPhrase : jsstring := js "How can I resolve".

(** A string on one line. *)
Definition singleLine (s : jsstring) : Prop :=
  Forall (fun c => JsString.isLineTerminator c = false) s.

(** A string that holds something other than white space. *)
Definition notBlank (s : jsstring) : Prop :=
  Exists (fun c => JsString.isSpace c = false) s.

(** A body that the noise filter excludes. *)
Definition noise (body : jsstring) : Prop :=
  Spec.containsIgnoringCase body (js "rate limit")
  /\ Spec.containsIgnoringCase body (js "coderabbit").

(** The line of an unchecked item of the document. *)
Definition isOpenItem (line : jsstring) : bool :=
  JsString.startsWith (js "- [ ] **") line.

(** The line of a checked item of the document. *)
Definition isResolvedItem (line : jsstring) : bool :=
  JsString.startsWith (js "- [x] ~~") line.

(** The body of the comment that carries the document. *)
Definition feedbackBody (markdown : jsstring) : jsstring :=
  CommentSink.marker ++ JsString.newline :: markdown.

(** The ids that the platform assigns are not zero. *)
Definition idsNonZero (conversation : list IssueComment.t) : Prop :=
  Forall (fun c => IssueComment.id c <> 0) conversation.

(** The group key of the comment names a property of [Object.prototype]. *)
Definition inheritedKey (c : ReviewComment.t) : Prop :=
  JsObject.isInherited (groupKey c) = true.

(** A string without a line feed. *)
Definition noNewline (s : jsstring) : Prop :=
  Forall (fun c => c <> JsString.newline) s.

(** A snapshot whose one-line fields hold no line feed: the title, the
    link and the time of the PR, the paths and the authors of the comments,
    the authors and the states of the reviews. *)
Definition oneLineFields (feedback : AggregatedFeedback.t) : Prop :=
  noNewline (AggregatedFeedback.prTitle feedback)
  /\ noNewline (AggregatedFeedback.prUrl feedback)
  /\ noNewline (AggregatedFeedback.updatedAt feedback)
  /\ Forall (fun c => noNewline (ReviewComment.path c)
                      /\ noNewline (ReviewComment.user c))
       (AggregatedFeedback.openComments feedback
        ++ AggregatedFeedback.resolvedComments feedback)
  /\ Forall (fun r => noNewline (Review.user r)
                      /\ noNewline (Review.state r))
       (AggregatedFeedback.reviews feedback).

End Props.

(* ===================================================================== *)
(** * The format of the structured blocks

    What the extractor reads, told without the regular expressions: where
    a block starts and ends in a body, and where its three fields are in
    its content. *)
(* ===================================================================== *)

Module Grammar.

Definition backtick : N := 96%N.

(** The same text, when the case of ASCII letters is ignored. *)
Definition sameText (a b : jsstring) : Prop := Forall2 Spec.sameLetter a b.

(** White space only. *)
Definition blank (s : jsstring) : Prop :=
  Forall (fun c => JsString.isSpace c = true) s.

(** Three to five backticks. *)
Definition fence (s : jsstring) : Prop :=
  exists k, (3 <= k <= 5)%nat /\ s = repeat backtick k.

(** The opening of a block: the summary tag, a fence with the word
    [markdown], and the white space around the fence. *)
Definition opening (s : jsstring) : Prop :=
  exists tag ws1 ticks word ws2,
    s = tag ++ ws1 ++ ticks ++ word ++ ws2
    /\ sameText tag (js "<details><summary>Prompt To Fix With AI</summary>")
    /\ blank ws1 /\ fence ticks
    /\ sameText word (js "markdown") /\ blank ws2.

(** The closing of a block: a fence, white space and the end tag. *)
Definition closing (s : jsstring) : Prop :=
  exists ticks ws tag,
    s = ticks ++ ws ++ tag
    /\ fence ticks /\ blank ws /\ sameText tag (js "</details>").

(** [s] starts with an opening that is closed further on. *)
Definition delimited (s : jsstring) : Prop :=
  exists o content c rest,
    s = o ++ content ++ c ++ rest /\ opening o /\ closing c.

(** The block that [s] starts with: the white space after [markdown]
    belongs to the opening, so the content does not start with white
    space; the content ends at the first closing that comes after it, so
    no closing starts inside the content.  [rest] is what follows that
    closing. *)
Definition blockAt (s content rest : jsstring) : Prop :=
  exists o c,
    s = o ++ content ++ c ++ rest /\ opening o /\ closing c
    /\ Props.startsClean content
    /\ forall pre post c' rest',
         content = pre ++ post -> post <> [] ->
         post ++ c ++ rest = c' ++ rest' -> ~ closing c'.

(** The contents of the blocks of a body, from left to right: a block
    starts at the first place that is delimited, and the search for the
    next one starts behind its closing. *)
Inductive scanned : jsstring -> list jsstring -> Prop :=
| scanned_done (s : jsstring) :
    (forall pre post, s = pre ++ post -> ~ delimited post) ->
    scanned s []
| scanned_block (gap s content rest : jsstring) (contents : list jsstring) :
    (forall pre post, gap = pre ++ post -> post <> [] ->
                      ~ delimited (post ++ s)) ->
    blockAt s content rest ->
    scanned rest contents ->
    scanned (gap ++ s) (content :: contents).

(** ** The fields *)
















End Grammar.

(* ===================================================================== *)
(** * Tactics *)
(* ===================================================================== *)

(** Case analysis on every [match] a hypothesis is stuck on. *)
Ltac break_matches H :=
  repeat match type of H with
         | context [match ?e with _ => _ end] =>
             let E := fresh "E" in destruct e eqn:E
         end.

(** Take apart what [Regex.matches] says of a concrete expression. *)
Ltac open_matches H :=
  simpl in H;
  repeat match goal with
         | H : exists _, _ |- _ => destruct H
         | H : _ /\ _ |- _ => destruct H
         | H : _ \/ _ |- _ => destruct H
         end;
  subst.

(** Case analysis on the comparisons of code units in the goal. *)
Ltac ncases :=
  repeat match goal with
         | |- context [(?a <=? ?b)%N] => destruct (N.leb_spec a b)
         | |- context [(?a =? ?b)%N] => destruct (N.eqb_spec a b)
         | H : context [(?a <=? ?b)%N] |- _ => destruct (N.leb_spec a b)
         | H : context [(?a =? ?b)%N] |- _ => destruct (N.eqb_spec a b)
         end;
  simpl in *.


(* ===================================================================== *)
(** * The leftmost match *)
(* ===================================================================== *)


Module RegexFacts.
Import Regex.

(** The match that [exec] returns starts at some suffix of the input. *)
Lemma exec_matchHere r s m :
  exec r s = Some m ->
  exists pre s0, s = pre ++ s0 /\ matchHere r s0 = Some m.
Proof.
  induction s as [|c s IH]; simpl; intros H.
  - destruct (matchHere r []) eqn:E; [|discriminate].
    injection H as ->. exists [], []. auto.
  - destruct (matchHere r (c :: s)) eqn:E.
    + injection H as ->. exists [], (c :: s). auto.
    + destruct (IH H) as (pre & s0 & -> & ?).
      exists (c :: pre), s0. auto.
Qed.

End RegexFacts.

(* ===================================================================== *)
(** * The matcher finds what the expression denotes *)
(* ===================================================================== *)

Module MatcherFacts.
Import Regex.

Lemma stripLit_sound text : forall s s',
  stripLit text s = Some s' ->
  exists mid, s = mid ++ s' /\ Forall2 (fun p c => charEq p c = true) text mid.
Proof.
  induction text as [|p text IH]; intros s s' H; simpl in H.
  - injection H as <-. exists []. split; [reflexivity|constructor].
  - destruct s as [|c s]; [discriminate|].
    destruct (charEq p c) eqn:E; [|discriminate].
    destruct (IH _ _ H) as (mid & -> & Hmid).
    exists (c :: mid). split; [reflexivity|constructor; assumption].
Qed.

Lemma stripLit_complete text : forall mid s',
  Forall2 (fun p c => charEq p c = true) text mid ->
  stripLit text (mid ++ s') = Some s'.
Proof.
  induction text as [|p text IH]; intros mid s' H; inversion H; subst; simpl.
  - reflexivity.
  - match goal with E : charEq _ _ = true |- _ => rewrite E end.
    apply IH. assumption.
Qed.

Lemma matches_suffix r : forall s s' cap cap',
  matches r s s' cap cap' -> exists mid, s = mid ++ s'.
Proof.
  induction r as [text|cl lo hi g|r1 IH1 r2 IH2|r1 IH1 r2 IH2|r IH|r IH|];
    intros s s' cap cap' H; simpl in H.
  - destruct H as (_ & mid & -> & _). eauto.
  - destruct H as (_ & mid & -> & _). eauto.
  - destruct H as (s1 & cap1 & H1 & H2).
    apply IH1 in H1 as (mid1 & ->). apply IH2 in H2 as (mid2 & ->).
    exists (mid1 ++ mid2). rewrite app_assoc. reflexivity.
  - destruct H as [H|H]; eauto.
  - destruct H as (mid & _ & _ & -> & _). eauto.
  - destruct H as [H|[-> _]]; [eauto|]. exists []. reflexivity.
  - destruct H as (-> & -> & _). exists []. reflexivity.
Qed.

Lemma firstn_consumed (mid s' : jsstring) :
  firstn (length (mid ++ s') - length s') (mid ++ s') = mid.
Proof.
  rewrite length_app, Nat.add_sub. apply take_app_length.
Qed.

Section Continuations.
Context {X : Type}.

Lemma mrep_sound cl g s : forall lo hi (k : jsstring -> option X) x,
  mrep cl lo hi g s k = Some x ->
  exists mid s',
    s = mid ++ s'
    /\ Forall (fun c => inClass cl c = true) mid
    /\ (lo <= length mid)%nat
    /\ match hi with Some h => (length mid <= h)%nat | None => True end
    /\ k s' = Some x.
Proof.
  induction s as [|c s IH]; intros lo hi k x H.
  - exists [], []. simpl in H.
    assert (lo = 0%nat /\ k [] = Some x) as [-> Hk].
    { destruct g, lo; break_matches H; split; congruence. }
    repeat split; try assumption; try constructor.
    destruct hi; [simpl; lia|exact I].
  - assert (Hstop : lo = 0%nat -> k (c :: s) = Some x ->
              exists mid s',
                c :: s = mid ++ s'
                /\ Forall (fun c => inClass cl c = true) mid
                /\ (lo <= length mid)%nat
                /\ match hi with Some h => (length mid <= h)%nat | None => True end
                /\ k s' = Some x).
    { intros -> Hk. exists [], (c :: s).
      repeat split; try assumption; try constructor.
      destruct hi; [simpl; lia|exact I]. }
    assert (Hmore : forall hi',
              inClass cl c = true ->
              match hi, hi' with
              | Some h, Some h' => h = S h'
              | None, None => True
              | _, _ => False
              end ->
              mrep cl (Nat.pred lo) hi' g s k = Some x ->
              exists mid s',
                c :: s = mid ++ s'
                /\ Forall (fun c => inClass cl c = true) mid
                /\ (lo <= length mid)%nat
                /\ match hi with Some h => (length mid <= h)%nat | None => True end
                /\ k s' = Some x).
    { intros hi' Hc Hhi E.
      destruct (IH _ _ _ _ E) as (mid & s' & -> & Hmid & Hlo & Hbound & Hk).
      exists (c :: mid), s'. simpl.
      repeat split; try assumption; [constructor; assumption|lia|].
      destruct hi as [h|], hi' as [h'|]; try contradiction; [lia|exact I]. }
    simpl in H.
    destruct g, lo, hi as [[|h]|]; destruct (inClass cl c) eqn:Ec;
      break_matches H; try discriminate; try (injection H as ->);
      first [ apply Hstop; first [reflexivity|assumption]
            | eapply (Hmore (Some h)); first [reflexivity|eassumption]
            | eapply (Hmore None); first [reflexivity|exact I|eassumption] ].
Qed.

Lemma mrep_complete cl g s : forall lo hi (k : jsstring -> option X),
  mrep cl lo hi g s k = None ->
  forall mid s',
    s = mid ++ s' ->
    Forall (fun c => inClass cl c = true) mid ->
    (lo <= length mid)%nat ->
    match hi with Some h => (length mid <= h)%nat | None => True end ->
    k s' = None.
Proof.
  induction s as [|c s IH]; intros lo hi k H mid s' Hs Hmid Hlo Hhi.
  - symmetry in Hs. apply app_eq_nil in Hs as [-> ->]. simpl in Hlo.
    assert (lo = 0%nat) as -> by lia. simpl in H.
    destruct g; break_matches H; congruence.
  - destruct mid as [|c' mid]; simpl in Hs.
    + subst s'. simpl in Hlo. assert (lo = 0%nat) as -> by lia.
      simpl in H. destruct g; break_matches H; congruence.
    + injection Hs as <- ->. inversion Hmid as [|? ? Hc Hmid']; subst.
      simpl in Hlo, Hhi. simpl in H. rewrite Hc in H.
      destruct hi as [[|h]|]; [lia| |].
      * assert (Hnone : mrep cl (Nat.pred lo) (Some h) g (mid ++ s') k = None)
          by (destruct g, lo; break_matches H; congruence).
        apply (IH _ _ _ Hnone mid s' eq_refl Hmid'); lia.
      * assert (Hnone : mrep cl (Nat.pred lo) None g (mid ++ s') k = None)
          by (destruct g, lo; break_matches H; congruence).
        apply (IH _ _ _ Hnone mid s' eq_refl Hmid'); [lia|exact I].
Qed.

Lemma rmatch_sound r :
  forall s cap (k : jsstring -> option jsstring -> option X) x,
    rmatch r s cap k = Some x ->
    exists s' cap', matches r s s' cap cap' /\ k s' cap' = Some x.
Proof.
  induction r as [text|cl lo hi g|r1 IH1 r2 IH2|r1 IH1 r2 IH2|r IH|r IH|];
    intros s cap k x H; simpl in H.
  - destruct (stripLit text s) as [s'|] eqn:E; [|discriminate].
    apply stripLit_sound in E. exists s', cap. simpl. auto.
  - apply mrep_sound in H as (mid & s' & -> & Hmid & Hlo & Hhi & Hk).
    exists s', cap. simpl. split; [|assumption].
    split; [reflexivity|]. exists mid. auto.
  - apply IH1 in H as (s1 & cap1 & H1 & H).
    apply IH2 in H as (s2 & cap2 & H2 & H).
    exists s2, cap2. simpl. eauto.
  - destruct (rmatch r1 s cap k) eqn:E.
    + injection H as ->. apply IH1 in E as (s' & cap' & ? & ?).
      exists s', cap'. simpl. auto.
    + apply IH2 in H as (s' & cap' & ? & ?). exists s', cap'. simpl. auto.
  - apply IH in H as (s' & cap1 & Hm & Hk).
    destruct (matches_suffix _ _ _ _ _ Hm) as (mid & ->).
    rewrite firstn_consumed in Hk.
    exists s', (Some mid). simpl. split; [|assumption].
    exists mid, cap1. auto.
  - destruct (rmatch r s cap k) eqn:E.
    + injection H as ->. apply IH in E as (s' & cap' & ? & ?).
      exists s', cap'. simpl. auto.
    + exists s, cap. simpl. auto.
  - destruct s; [|discriminate]. exists [], cap. simpl. auto.
Qed.

Lemma rmatch_complete r :
  forall s cap (k : jsstring -> option jsstring -> option X),
    rmatch r s cap k = None ->
    forall s' cap', matches r s s' cap cap' -> k s' cap' = None.
Proof.
  induction r as [text|cl lo hi g|r1 IH1 r2 IH2|r1 IH1 r2 IH2|r IH|r IH|];
    intros s cap k H s' cap' Hm; simpl in H, Hm.
  - destruct Hm as (-> & mid & -> & Hmid).
    rewrite (stripLit_complete _ _ _ Hmid) in H. assumption.
  - destruct Hm as (-> & mid & -> & Hmid & Hlo & Hhi).
    apply (mrep_complete _ _ _ _ _ _ H mid s'); auto.
  - destruct Hm as (s1 & cap1 & H1 & H2).
    eapply IH2; [|exact H2].
    apply (IH1 _ _ _ H _ _ H1).
  - destruct (rmatch r1 s cap k) eqn:E; [discriminate|].
    destruct Hm as [Hm|Hm]; eauto.
  - destruct Hm as (mid & cap1 & Hm & -> & ->).
    pose proof (IH _ _ _ H _ _ Hm) as Hk. simpl in Hk.
    rewrite firstn_consumed in Hk. assumption.
  - destruct (rmatch r s cap k) eqn:E; [discriminate|].
    destruct Hm as [Hm|[-> ->]]; eauto.
  - destruct Hm as (-> & -> & ->). assumption.
Qed.
End Continuations.

Lemma matchHere_sound r s m :
  matchHere r s = Some m -> matches r s (rest m) None (capture m).
Proof.
  unfold matchHere. intros H.
  apply rmatch_sound in H as (s' & cap' & Hm & [= <-]). exact Hm.
Qed.

Lemma matchHere_complete r s :
  matchHere r s = None -> forall s' cap', ~ matches r s s' None cap'.
Proof.
  unfold matchHere. intros H s' cap' Hm.
  pose proof (rmatch_complete _ _ _ _ H _ _ Hm) as E. discriminate.
Qed.

(** [exec] finds a match exactly when the expression occurs in the input,
    and what it returns is an occurrence. *)
Lemma exec_sound r s m :
  exec r s = Some m -> occursIn r s (capture m).
Proof.
  intros H. apply RegexFacts.exec_matchHere in H as (pre & s0 & -> & H).
  exists pre, s0, (rest m). split; [reflexivity|].
  apply matchHere_sound. assumption.
Qed.

Lemma exec_complete r s :
  exec r s = None -> forall cap, ~ occursIn r s cap.
Proof.
  induction s as [|c s IH]; simpl; intros H cap (before & after & s' & Hs & Hm).
  - destruct (matchHere r []) eqn:E; [discriminate|].
    symmetry in Hs. apply app_eq_nil in Hs as [-> ->].
    exact (matchHere_complete _ _ E _ _ Hm).
  - destruct (matchHere r (c :: s)) eqn:E; [discriminate|].
    destruct before as [|c' before]; simpl in Hs.
    + subst after. exact (matchHere_complete _ _ E _ _ Hm).
    + injection Hs as <- ->.
      apply (IH H cap). exists before, after, s'. auto.
Qed.

Lemma exec_occurs r s :
  (exists m, exec r s = Some m) <-> exists cap, occursIn r s cap.
Proof.
  split.
  - intros (m & H). exists (capture m). apply exec_sound. assumption.
  - intros (cap & H). destruct (exec r s) as [m|] eqn:E; [eauto|].
    exfalso. exact (exec_complete _ _ E _ H).
Qed.

(** An expression that starts with a non-empty literal consumes input. *)
Lemma exec_progress text r s m :
  text <> [] ->
  exec (Seq (Lit text) r) s = Some m ->
  (length (rest m) < length s)%nat.
Proof.
  intros Htext H.
  apply RegexFacts.exec_matchHere in H as (pre & s0 & -> & H).
  apply matchHere_sound in H. simpl in H.
  destruct H as (s1 & cap1 & (_ & mid & -> & Hmid) & H2).
  apply matches_suffix in H2 as (mid2 & ->).
  apply Forall2_length in Hmid. rewrite !length_app.
  destruct text; [congruence|simpl in Hmid; lia].
Qed.

End MatcherFacts.

(* ===================================================================== *)
(** * Facts about strings *)
(* ===================================================================== *)


Module StringFacts.
Import JsString.

Lemma startsWith_spec needle : forall s,
  startsWith needle s = true <-> exists post, s = needle ++ post.
Proof.
  induction needle as [|x needle IH]; intros s; simpl.
  - split; eauto.
  - destruct s as [|y s].
    + split; [discriminate|]. intros (post & E). discriminate.
    + rewrite andb_true_iff, IH, N.eqb_eq. split.
      * intros (-> & post & ->). eauto.
      * intros (post & [= -> ->]). eauto.
Qed.

Lemma includes_spec s needle :
  includes s needle = true <-> Spec.contains s needle.
Proof.
  unfold Spec.contains. induction s as [|c s IH]; simpl.
  - rewrite orb_false_r, startsWith_spec. split.
    + intros (post & E). exists [], post. assumption.
    + intros (pre & post & E).
      symmetry in E. apply app_eq_nil in E as (-> & E).
      exists post. symmetry. assumption.
  - rewrite orb_true_iff, startsWith_spec, IH. split.
    + intros [(post & E)|(pre & post & E)].
      * exists [], post. assumption.
      * exists (c :: pre), post. rewrite E. reflexivity.
    + intros ([|c' pre] & post & E).
      * left. exists post. assumption.
      * right. injection E as <- E. eauto.
Qed.

Lemma includes_false s needle :
  includes s needle = false <-> ~ Spec.contains s needle.
Proof.
  rewrite <- includes_spec. destruct (includes s needle); split;
    congruence.
Qed.

Lemma toLowerCase_app a b :
  toLowerCase (a ++ b) = toLowerCase a ++ toLowerCase b.
Proof. apply flat_map_app. Qed.

(** ** Lower-casing and ASCII needles *)

Lemma plain_tail p q needle :
  Spec.plain (p :: q :: needle) -> Spec.plain (q :: needle).
Proof.
  intros [H1 H2]. split; [inversion H1; assumption|exact H2].
Qed.

Lemma lowerUnit_sameLetter c p :
  Spec.plainUnit p -> Spec.sameLetter c p -> lowerUnit c = [p].
Proof.
  unfold Spec.plainUnit, Spec.sameLetter, Spec.foldCase, lowerUnit.
  intros (Hlt & Hfold & _) H. ncases; try lia; f_equal; lia.
Qed.

Lemma toLowerCase_sameLetter mid needle :
  Forall Spec.plainUnit needle -> Forall2 Spec.sameLetter mid needle ->
  toLowerCase mid = needle.
Proof.
  intros Hplain H. induction H as [|c p mid needle Hcp _ IH]; [reflexivity|].
  inversion Hplain; subst. simpl.
  rewrite (lowerUnit_sameLetter c p), IH; auto.
Qed.

(** The first unit of a lower-cased text that starts with a plain needle
    comes from one unit of the text, the same letter. *)
Lemma startsWith_lowerUnit p needle c text :
  Spec.plain (p :: needle) ->
  startsWith (p :: needle) (lowerUnit c ++ text) = true ->
  Spec.sameLetter c p /\ startsWith needle text = true.
Proof.
  intros [Hall Hlast]. inversion Hall as [|? ? (Hlt & Hfold & Hk) Hrest]; subst.
  unfold lowerUnit, Spec.sameLetter, Spec.foldCase in *.
  destruct ((65 <=? c)%N && (c <=? 90)%N) eqn:Eup; simpl.
  - rewrite andb_true_iff, N.eqb_eq. intros [-> H]. split; [|assumption].
    revert Hfold. ncases; lia.
  - destruct (N.eqb_spec c 304) as [->|]; simpl.
    { rewrite andb_true_iff, N.eqb_eq. intros [-> H].
      destruct needle as [|q needle]; [simpl in Hlast; congruence|].
      simpl in H. apply andb_true_iff in H as [H _].
      apply N.eqb_eq in H. subst q.
      inversion Hrest as [|? ? (Hq & _) _]; subst. lia. }
    destruct (N.eqb_spec c 8490) as [->|]; simpl.
    { rewrite andb_true_iff, N.eqb_eq. intros [-> _]. congruence. }
    rewrite andb_true_iff, N.eqb_eq. intros [-> H]. split; [|assumption].
    congruence.
Qed.

Lemma startsWith_toLowerCase needle : forall text,
  Spec.plain needle ->
  startsWith needle (toLowerCase text) = true ->
  exists mid post, text = mid ++ post /\ Forall2 Spec.sameLetter mid needle.
Proof.
  induction needle as [|p needle IH]; intros text Hplain H.
  - exists [], text. split; [reflexivity|constructor].
  - destruct text as [|c text]; [discriminate|].
    change (toLowerCase (c :: text)) with (lowerUnit c ++ toLowerCase text) in H.
    apply startsWith_lowerUnit in H as [Hc H]; [|assumption].
    assert (Hex : exists mid post,
               text = mid ++ post /\ Forall2 Spec.sameLetter mid needle).
    { destruct needle as [|q needle].
      - exists [], text. split; [reflexivity|constructor].
      - apply IH; [eapply plain_tail; eassumption|assumption]. }
    destruct Hex as (mid & post & -> & Hmid).
    exists (c :: mid), post. split; [reflexivity|constructor; assumption].
Qed.

Lemma includes_toLowerCase needle text :
  Spec.plain needle ->
  includes (toLowerCase text) needle = true <->
  Spec.containsIgnoringCase text needle.
Proof.
  intros Hplain. split.
  - induction text as [|c text IH]; intros H.
    + simpl in H. rewrite orb_false_r in H.
      destruct needle; [|discriminate].
      exists [], [], []. split; [reflexivity|constructor].
    + assert (Hhere : startsWith needle (toLowerCase (c :: text)) = true ->
                      Spec.containsIgnoringCase (c :: text) needle).
      { intros E. apply startsWith_toLowerCase in E as (mid & post & -> & ?);
          [|assumption].
        exists [], mid, post. auto. }
      assert (Hlater : includes (toLowerCase text) needle = true ->
                       Spec.containsIgnoringCase (c :: text) needle).
      { intros E. destruct (IH E) as (pre & mid & post & -> & ?).
        exists (c :: pre), mid, post. auto. }
      destruct needle as [|p needle].
      { exists [], [], (c :: text). split; [reflexivity|constructor]. }
      assert (Hp : p <> 775%N).
      { destruct Hplain as [Hall _]. inversion Hall as [|? ? (? & _) _]. lia. }
      change (toLowerCase (c :: text)) with (lowerUnit c ++ toLowerCase text)
        in H, Hhere.
      unfold lowerUnit in H, Hhere.
      destruct ((65 <=? c)%N && (c <=? 90)%N);
        [|destruct (c =? 304)%N; [|destruct (c =? 8490)%N]];
        simpl in H, Hhere;
        repeat match type of H with
               | (_ || _)%bool = true =>
                   apply orb_true_iff in H as [H|H]
               end; auto.
      apply andb_true_iff in H as [H _]. apply N.eqb_eq in H. congruence.
  - intros (pre & mid & post & -> & Hmid).
    apply includes_spec. rewrite !toLowerCase_app.
    rewrite (toLowerCase_sameLetter mid needle); [|apply Hplain|assumption].
    exists (toLowerCase pre), (toLowerCase post). reflexivity.
Qed.

Lemma plain_rate_limit : Spec.plain (js "rate limit").
Proof.
  split; [|vm_compute; congruence].
  repeat constructor; vm_compute; congruence.
Qed.

Lemma plain_coderabbit : Spec.plain (js "coderabbit").
Proof.
  split; [|vm_compute; congruence].
  repeat constructor; vm_compute; congruence.
Qed.

End StringFacts.

(** C8. The noise filter excludes a body exactly when the body contains
    both [rate limit] and [coderabbit], the case of letters ignored; a body
    that lacks one of the two is retained. *)
Theorem isIgnoredBotComment_iff (body : jsstring) :
  isIgnoredBotComment body = true <->
  Spec.containsIgnoringCase body (js "rate limit")
  /\ Spec.containsIgnoringCase body (js "coderabbit").
Proof.
  unfold isIgnoredBotComment.
  rewrite <- (StringFacts.includes_toLowerCase (js "rate limit"))
    by apply StringFacts.plain_rate_limit.
  rewrite <- (StringFacts.includes_toLowerCase (js "coderabbit"))
    by apply StringFacts.plain_coderabbit.
  destruct (JsString.includes _ (js "rate limit")),
           (JsString.includes _ (js "coderabbit")); simpl; intuition congruence.
Qed.

(* ===================================================================== *)
(** * The structured-text extractor *)
(* ===================================================================== *)

Module ExtractorFacts.
Import Regex Extractor.

(** ** The scan terminates within its fuel *)

Lemma promptBlock_progress input m :
  exec promptBlockRegex input = Some m ->
  (length (rest m) < length input)%nat.
Proof.
  apply (MatcherFacts.exec_progress
           (js "<details><summary>Prompt To Fix With AI</summary>")).
  discriminate.
Qed.

Lemma blocksFrom_fuel fuel : forall input fuel',
  (length input < fuel)%nat -> (length input < fuel')%nat ->
  Unrolled.blocksFrom fuel input = Unrolled.blocksFrom fuel' input.
Proof.
  induction fuel as [|fuel IH]; intros input fuel' H H'; [lia|].
  destruct fuel' as [|fuel']; [lia|]. simpl.
  destruct (exec promptBlockRegex input) as [m|] eqn:E; [|reflexivity].
  apply promptBlock_progress in E.
  f_equal. apply IH; lia.
Qed.

Section Parse.
Variables (commentId : Z) (user url createdAt : jsstring).

Lemma parseBlock_fields blockContent comments :
  parseBlock commentId user url createdAt blockContent comments =
  comments ++
  match Unrolled.blockFields blockContent with
  | Some fields => [Unrolled.commentOf commentId user url createdAt (length comments) fields]
  | None => []
  end.
Proof.
  unfold parseBlock, Unrolled.blockFields.
  destruct (match1 pathRegex blockContent);
    destruct (match1 commentRegex blockContent);
    rewrite ?app_nil_r; reflexivity.
Qed.

Lemma parseLoop_blocks fuel : forall input comments,
  parseLoop commentId user url createdAt fuel input comments =
  comments ++
  imap (fun i => Unrolled.commentOf commentId user url createdAt (length comments + i))
    (omap Unrolled.blockFields (Unrolled.blocksFrom fuel input)).
Proof.
  induction fuel as [|fuel IH]; intros input comments; simpl.
  - rewrite app_nil_r. reflexivity.
  - destruct (exec promptBlockRegex input) as [m|]; simpl.
    + rewrite IH, parseBlock_fields.
      destruct (Unrolled.blockFields (default [] (capture m))) as [fields|];
        simpl.
      * rewrite <- app_assoc. simpl. f_equal.
        rewrite Nat.add_0_r. f_equal.
        apply imap_ext. intros i x _. simpl.
        rewrite length_app. simpl. f_equal. lia.
      * rewrite !app_nil_r. reflexivity.
    + rewrite app_nil_r. reflexivity.
Qed.

Lemma parseGreptileComments_imap body :
  parseGreptileComments commentId user url createdAt body =
  imap (Unrolled.commentOf commentId user url createdAt) (omap Unrolled.blockFields (Unrolled.blockContents body)).
Proof.
  unfold parseGreptileComments. rewrite parseLoop_blocks. reflexivity.
Qed.

(** More fuel changes nothing: the scan stops because no match is left. *)
Lemma parseLoop_fuel fuel body :
  (length body < fuel)%nat ->
  parseLoop commentId user url createdAt fuel body [] =
  parseGreptileComments commentId user url createdAt body.
Proof.
  intros H. unfold parseGreptileComments.
  rewrite !parseLoop_blocks.
  rewrite (blocksFrom_fuel fuel body (S (length body))) by lia.
  reflexivity.
Qed.
End Parse.

(** ** A field needs its label *)

Lemma stripLit_sameLetter text : forall s s',
  stripLit text s = Some s' ->
  exists mid, s = mid ++ s' /\ Forall2 Spec.sameLetter mid text.
Proof.
  induction text as [|p text IH]; intros s s' H; simpl in H.
  - injection H as <-. exists []. split; [reflexivity|constructor].
  - destruct s as [|c s]; [discriminate|].
    destruct (charEq p c) eqn:E; [|discriminate].
    destruct (IH _ _ H) as (mid & -> & Hmid).
    exists (c :: mid). split; [reflexivity|]. constructor; [|assumption].
    unfold charEq, canonicalize in E. unfold Spec.sameLetter, Spec.foldCase.
    apply N.eqb_eq in E. revert E. ncases; lia.
Qed.

Lemma exec_label text r s m :
  exec (Seq (Lit text) r) s = Some m ->
  Spec.containsIgnoringCase s text.
Proof.
  intros E. apply RegexFacts.exec_matchHere in E as (pre & s0 & -> & E).
  unfold matchHere in E. simpl in E.
  destruct (stripLit text s0) as [s1|] eqn:E1; [|discriminate].
  apply stripLit_sameLetter in E1 as (mid & -> & Hmid).
  exists pre, mid, s1. auto.
Qed.

Lemma match1_label text r s v :
  match1 (Seq (Lit text) r) s = Some v ->
  Spec.containsIgnoringCase s text.
Proof.
  unfold match1. destruct (exec _ s) as [m|] eqn:E; [|discriminate].
  intros _. eapply exec_label. eassumption.
Qed.

(** Without the opening tag there is no block. *)
Lemma blockContents_opening body :
  ~ Spec.containsIgnoringCase body
      (js "<details><summary>Prompt To Fix With AI</summary>") ->
  Unrolled.blockContents body = [].
Proof.
  intros Hnot. unfold Unrolled.blockContents. simpl.
  destruct (exec promptBlockRegex body) as [m|] eqn:E; [|reflexivity].
  exfalso. apply Hnot.
  apply (exec_label
           (js "<details><summary>Prompt To Fix With AI</summary>") _ _ _ E).
Qed.

Lemma blockFields_labels blockContent fields :
  Unrolled.blockFields blockContent = Some fields ->
  Spec.containsIgnoringCase blockContent (js "Path:")
  /\ Spec.containsIgnoringCase blockContent (js "Comment:").
Proof.
  unfold Unrolled.blockFields.
  destruct (match1 pathRegex blockContent) eqn:Ep; [|discriminate].
  destruct (match1 commentRegex blockContent) eqn:Ec; [|discriminate].
  intros _. split; eapply match1_label; eassumption.
Qed.

(** ** Blocks and fields are occurrences of the expressions *)

Lemma occursIn_suffix r before after cap :
  occursIn r after cap -> occursIn r (before ++ after) cap.
Proof.
  intros (pre & s0 & s' & -> & Hm).
  exists (before ++ pre), s0, s'. rewrite app_assoc. auto.
Qed.

(** A match of the block expression sets capture 1. *)
Lemma promptBlock_capture s s' cap :
  matches promptBlockRegex s s' None cap -> exists content, cap = Some content.
Proof.
  simpl. intros H.
  repeat match goal with
         | H : exists _, _ |- _ => destruct H
         | H : _ /\ _ |- _ => destruct H
         end.
  subst. eauto.
Qed.

Lemma exec_rest_suffix r input m :
  exec r input = Some m -> exists consumed, input = consumed ++ rest m.
Proof.
  intros H. apply RegexFacts.exec_matchHere in H as (pre & s0 & -> & H).
  apply MatcherFacts.matchHere_sound, MatcherFacts.matches_suffix in H
    as (mid & ->).
  exists (pre ++ mid). rewrite app_assoc. reflexivity.
Qed.

(** Every block of the scan is the capture of an occurrence of the block
    expression in the input. *)
Lemma blocksFrom_occur fuel : forall input,
  Forall (fun content => occursIn promptBlockRegex input (Some content))
    (Unrolled.blocksFrom fuel input).
Proof.
  induction fuel as [|fuel IH]; intros input; simpl; [constructor|].
  destruct (exec promptBlockRegex input) as [m|] eqn:E; [|constructor].
  pose proof (MatcherFacts.exec_sound _ _ _ E) as Hocc.
  constructor.
  - destruct Hocc as (pre & s0 & s' & Hs & Hm).
    destruct (promptBlock_capture _ _ _ Hm) as (content & Hcap).
    rewrite Hcap in *. simpl. exists pre, s0, s'. auto.
  - destruct (exec_rest_suffix _ _ _ E) as (consumed & Hs).
    eapply Forall_impl; [apply IH|].
    intros content Hcontent. rewrite Hs.
    apply occursIn_suffix. exact Hcontent.
Qed.

Lemma blockContents_nil body :
  Unrolled.blockContents body = []
  <-> forall cap, ~ occursIn promptBlockRegex body cap.
Proof.
  unfold Unrolled.blockContents. simpl. split.
  - destruct (exec promptBlockRegex body) as [m|] eqn:E; [discriminate|].
    intros _. apply MatcherFacts.exec_complete. assumption.
  - intros Hnone.
    destruct (exec promptBlockRegex body) as [m|] eqn:E; [|reflexivity].
    exfalso. apply (Hnone (capture m)). apply MatcherFacts.exec_sound.
    assumption.
Qed.

Lemma match1_occurs r s :
  (exists v, match1 r s = Some v) <-> exists cap, occursIn r s cap.
Proof.
  rewrite <- MatcherFacts.exec_occurs. unfold match1.
  destruct (exec r s) as [m|]; split; intros (x & H); eauto; discriminate.
Qed.

Lemma blockFields_present blockContent :
  (exists fields, Unrolled.blockFields blockContent = Some fields)
  <-> (exists cap, occursIn pathRegex blockContent cap)
      /\ (exists cap, occursIn commentRegex blockContent cap).
Proof.
  rewrite <- !match1_occurs. unfold Unrolled.blockFields.
  destruct (match1 pathRegex blockContent) as [p|];
    destruct (match1 commentRegex blockContent) as [c|]; split;
    try (intros [(? & ?) (? & ?)]); try (intros (? & ?));
    try discriminate; eauto.
Qed.

End ExtractorFacts.

Module RegexExamples.
Import Regex Extractor.

(** [\s*] runs over the line break, so an empty path line takes the text of
    the next line. *)
Example path_after_line_break :
  match1 pathRegex (js "Path:
Comment: x") = Some (js "Comment: x").
Proof. vm_compute. reflexivity. Qed.

(** [\s*] gives back what [(.+)] needs. *)
Example path_backtracks :
  match1 pathRegex (js "Path:  ") = Some (js " ").
Proof. vm_compute. reflexivity. Qed.

Example path_label_alone : match1 pathRegex (js "Path:") = None.
Proof. vm_compute. reflexivity. Qed.

Example line_range_first_number :
  match1 lineRegex (js "line: 12:15") = Some (js "12").
Proof. vm_compute. reflexivity. Qed.

Example line_without_number : match1 lineRegex (js "Line: n/a") = None.
Proof. vm_compute. reflexivity. Qed.

(** The lazy capture stops at the first marker phrase, or at the end. *)
Example comment_until_marker :
  match1 commentRegex (js "COMMENT: fix it.
how can i resolve this? How can I resolve that?")
  = Some (js "fix it.
").
Proof. vm_compute. reflexivity. Qed.

Example comment_until_end :
  match1 commentRegex (js "Comment:   fix it. ") = Some (js "fix it. ").
Proof. vm_compute. reflexivity. Qed.

(** Three to five backticks open and close the fenced block. *)
Example block_with_three_backticks :
  option_map capture
    (exec promptBlockRegex
       (js "<DETAILS><summary>prompt to fix with ai</summary>```markdown
Path: a
```</details>"))
  = Some (Some (js "Path: a
")).
Proof. vm_compute. reflexivity. Qed.

Example block_with_two_backticks :
  exec promptBlockRegex
    (js "<details><summary>Prompt To Fix With AI</summary>``markdown
Path: a
``</details>")
  = None.
Proof. vm_compute. reflexivity. Qed.

End RegexExamples.

(* ===================================================================== *)
(** * Issue comments: which ones are parsed *)
(* ===================================================================== *)

Module FetchFacts.


Lemma fetch_flat_map (issueComments : list IssueComment.t) :
  fetchGreptileCommentsFromIssueComments issueComments
  = flat_map Spec.contribution issueComments.
Proof.
  rewrite <- (app_nil_l (flat_map _ _)).
  unfold fetchGreptileCommentsFromIssueComments at 1.
  generalize (@nil ReviewComment.t) as acc.
  induction issueComments as [|c l IH]; intros acc; simpl.
  - rewrite app_nil_r. reflexivity.
  - rewrite IH. unfold Spec.contribution, fetchGreptileCommentsFromIssueComments.
    simpl. destruct (_ && _); simpl.
    + rewrite <- app_assoc. reflexivity.
    + reflexivity.
Qed.

Lemma fetch_app (l1 l2 : list IssueComment.t) :
  fetchGreptileCommentsFromIssueComments (l1 ++ l2)
  = fetchGreptileCommentsFromIssueComments l1
    ++ fetchGreptileCommentsFromIssueComments l2.
Proof. rewrite !fetch_flat_map. apply flat_map_app. Qed.

(** The [user] that the loop computes is the bot's login exactly when the
    login of the record is. *)
Lemma user_is_greptile (login : option jsstring) :
  JsString.orElse (default [] login) (js "unknown") = js "greptile-apps[bot]"
  <-> login = Some (js "greptile-apps[bot]").
Proof.
  destruct login as [[|c s]|]; simpl; split; intros H;
    try discriminate; congruence.
Qed.

Lemma contribution_prompt (comment : IssueComment.t) :
  Spec.isGreptilePrompt comment ->
  Spec.contribution comment
  = Extractor.parseGreptileComments (IssueComment.id comment)
      (js "greptile-apps[bot]") (IssueComment.html_url comment)
      (IssueComment.created_at comment)
      (default [] (IssueComment.body comment)).
Proof.
  intros (Hlogin & body & Hbody & Hmark).
  unfold Spec.contribution, fetchGreptileCommentsFromIssueComments. simpl.
  rewrite Hlogin, Hbody. simpl.
  apply StringFacts.includes_spec in Hmark. rewrite Hmark. reflexivity.
Qed.

Lemma contribution_other (comment : IssueComment.t) :
  ~ Spec.isGreptilePrompt comment -> Spec.contribution comment = [].
Proof.
  intros Hnot.
  unfold Spec.contribution, fetchGreptileCommentsFromIssueComments. simpl.
  destruct (JsString.eqb _ _ && _) eqn:E; [|reflexivity].
  exfalso. apply Hnot.
  apply andb_true_iff in E as [Euser Ebody].
  unfold JsString.eqb in Euser. apply bool_decide_eq_true in Euser.
  apply user_is_greptile in Euser. split; [assumption|].
  destruct (IssueComment.body comment) as [body|]; [|discriminate].
  exists body. split; [reflexivity|].
  apply StringFacts.includes_spec. assumption.
Qed.

End FetchFacts.

(** C10. The extractor is applied to an issue comment only when its author
    login is [greptile-apps[bot]] and its body contains
    [Prompt To Fix With AI]: such a comment contributes what the extractor
    yields on its body, and any other comment contributes no Comment, in
    whatever list of issue comments it stands. *)
Theorem fetchGreptileComments_gate
    (before after : list IssueComment.t) (comment : IssueComment.t) :
  let fetch := fetchGreptileCommentsFromIssueComments in
  (Spec.isGreptilePrompt comment ->
   fetch (before ++ comment :: after)
   = fetch before
     ++ Extractor.parseGreptileComments (IssueComment.id comment)
          (js "greptile-apps[bot]") (IssueComment.html_url comment)
          (IssueComment.created_at comment)
          (default [] (IssueComment.body comment))
     ++ fetch after)
  /\ (~ Spec.isGreptilePrompt comment ->
      fetch (before ++ comment :: after) = fetch before ++ fetch after).
Proof.
  intros fetch. unfold fetch.
  change (comment :: after) with ([comment] ++ after).
  rewrite !FetchFacts.fetch_app.
  fold (Spec.contribution comment).
  split; intros H.
  - rewrite FetchFacts.contribution_prompt by assumption. reflexivity.
  - rewrite FetchFacts.contribution_other by assumption. reflexivity.
Qed.

(* ===================================================================== *)
(** * Identifiers of the merged comment set *)
(* ===================================================================== *)


Module IdFacts.

(** Within one source comment the synthesized ids are distinct. *)
Lemma parseGreptileComments_ids (commentId : Z) (user url createdAt body : jsstring) :
  let comments :=
    Extractor.parseGreptileComments commentId user url createdAt body in
  map ReviewComment.id comments
  = map (fun i => commentId + Z.of_nat i) (seq 0 (length comments)).
Proof.
  intros comments. unfold comments.
  rewrite ExtractorFacts.parseGreptileComments_imap.
  rewrite length_imap.
  change (map ReviewComment.id ?l) with (ReviewComment.id <$> l).
  rewrite fmap_imap.
  rewrite <- (imap_seq_0 (omap Unrolled.blockFields (Unrolled.blockContents body))
                (fun i => commentId + Z.of_nat i)).
  apply imap_ext. intros i [[p l] t] _. reflexivity.
Qed.

Lemma parseGreptileComments_NoDup (commentId : Z) (user url createdAt body : jsstring) :
  NoDup (map ReviewComment.id
           (Extractor.parseGreptileComments commentId user url createdAt body)).
Proof.
  rewrite parseGreptileComments_ids.
  apply NoDup_fmap_2_strong; [|apply NoDup_seq].
  intros i j _ _ H. lia.
Qed.

End IdFacts.

(** C5, at an input that breaks it.  Two issue comments of the bot with
    the consecutive ids 100 and 101, the first with two blocks: the merged
    set of the run holds the synthesized ids 100, 101 and 101, so two of
    its Comments share an id. *)
Theorem merged_ids_collide :
  let comments := fst (collectComments Examples.consecutiveRun) in
  map ReviewComment.id comments = [100; 101; 101]
  /\ map ReviewComment.path comments
     = [js "src/a.go"; js "src/b.go"; js "src/c.go"]
  /\ ~ NoDup (map ReviewComment.id comments).
Proof.
  assert (E : map ReviewComment.id
                (fst (collectComments Examples.consecutiveRun))
              = [100; 101; 101]) by (vm_compute; reflexivity).
  split; [exact E|]. split; [vm_compute; reflexivity|].
  rewrite E. intros H.
  apply NoDup_cons in H as [_ H]. apply NoDup_cons in H as [H _].
  apply H. constructor.
Qed.

(* ===================================================================== *)
(** * The resolution reconciler *)
(* ===================================================================== *)

Module ReconcilerFacts.

Lemma resolvedThreadIds_acc (threads : list ReviewThread.t) :
  forall (acc : gset (option Z)) (x : option Z),
    x ∈ fold_left
          (fun ids thread =>
             if ReviewThread.isResolved thread
                && (0 <? length (ReviewThread.comments thread))%nat
             then
               match ReviewThread.comments thread with
               | databaseId :: _ => ids ∪ {[ databaseId ]}
               | [] => ids
               end
             else ids)
          threads acc
    <-> x ∈ acc
        \/ exists thread,
             In thread threads
             /\ ReviewThread.isResolved thread = true
             /\ head (ReviewThread.comments thread) = Some x.
Proof.
  induction threads as [|thread threads IH]; intros acc x; simpl.
  - split; [auto|]. intros [H|(thread & [] & _)]. assumption.
  - rewrite IH. clear IH.
    destruct thread as [resolved [|databaseId nodes]]; simpl.
    + rewrite andb_false_r. split.
      * intros [H|(t & Ht & H)]; [auto|]. right. exists t. auto.
      * intros [H|(t & [<-|Ht] & Hr & Hh)]; [auto|discriminate|].
        right. exists t. auto.
    + destruct resolved; simpl.
      * rewrite elem_of_union, elem_of_singleton. split.
        -- intros [[H| ->]|(t & Ht & H)]; [auto| |].
           ++ right. eexists. split; [left; reflexivity|]. auto.
           ++ right. exists t. auto.
        -- intros [H|(t & [<-|Ht] & Hr & Hh)]; [auto| |].
           ++ injection Hh as ->. auto.
           ++ right. exists t. auto.
      * split.
        -- intros [H|(t & Ht & H)]; [auto|]. right. exists t. auto.
        -- intros [H|(t & [<-|Ht] & Hr & Hh)]; [auto|discriminate|].
           right. exists t. auto.
Qed.

Lemma resolvedThreadIds_anchor (threads : list ReviewThread.t) (id : Z) :
  Some id ∈ resolvedThreadIds threads <-> Spec.isResolvedAnchor threads id.
Proof.
  unfold resolvedThreadIds. rewrite resolvedThreadIds_acc.
  unfold Spec.isResolvedAnchor. split; [|auto].
  intros [H|H]; [|assumption]. apply elem_of_empty in H. contradiction.
Qed.

End ReconcilerFacts.

(** C4. When the query answers, the reconciler returns the comments in
    their order, each one unchanged but for [isResolved], which is [true]
    exactly for the comments whose id is the anchor of a resolved thread and
    [false] for all others, and nothing is logged.  When the query fails,
    the comments are returned as they are and the log holds one warning and
    no failure. *)
Theorem fetchResolvedStatus_reconciles (comments : list ReviewComment.t) :
  (forall threads,
      let (reconciled, log) := fetchResolvedStatus (GraphqlData threads) comments in
      log = []
      /\ Forall2
           (fun c c' =>
              c' = ReviewComment.setResolved c (ReviewComment.isResolved c')
              /\ (ReviewComment.isResolved c' = true
                  <-> Spec.isResolvedAnchor threads (ReviewComment.id c)))
           comments reconciled)
  /\ (forall error,
        fetchResolvedStatus (GraphqlFailure error) comments
        = (comments,
           [Warning (js "Could not fetch resolved status via GraphQL: "
                     ++ error)])).
Proof.
  split.
  - intros threads. simpl. split; [reflexivity|].
    induction comments as [|c comments IH]; simpl; constructor; [|exact IH].
    split; [reflexivity|]. simpl.
    rewrite bool_decide_eq_true.
    apply ReconcilerFacts.resolvedThreadIds_anchor.
  - intros error. reflexivity.
Qed.

(* ===================================================================== *)
(** * The open/resolved partition *)
(* ===================================================================== *)

Module PartitionFacts.

Lemma filter_partition {A} (f : A -> bool) (l : list A) :
  Permutation (List.filter (fun x => negb (f x)) l ++ List.filter f l) l.
Proof.
  induction l as [|x l IH]; simpl; [constructor|].
  destruct (f x); simpl.
  - symmetry. apply Permutation_cons_app. symmetry. exact IH.
  - constructor. exact IH.
Qed.

End PartitionFacts.

(** C3. The open set and the resolved set of the snapshot partition the
    filtered comment set: together they hold its comments, each as often as
    the set does; a comment is in the set exactly when it is in one of the
    two; no comment is in both; the open ones are those with
    [isResolved = false] and the resolved ones those with
    [isResolved = true]. *)
Theorem open_resolved_partition
    (input : RunInput.t) (prNumber : Z) (comments : list ReviewComment.t) :
  let feedback := buildFeedback input prNumber comments in
  let openComments := AggregatedFeedback.openComments feedback in
  let resolvedComments := AggregatedFeedback.resolvedComments feedback in
  Permutation (openComments ++ resolvedComments) comments
  /\ (length openComments + length resolvedComments = length comments)%nat
  /\ (forall c, In c comments <-> In c openComments \/ In c resolvedComments)
  /\ (forall c, ~ (In c openComments /\ In c resolvedComments))
  /\ (forall c, In c openComments
                <-> In c comments /\ ReviewComment.isResolved c = false)
  /\ (forall c, In c resolvedComments
                <-> In c comments /\ ReviewComment.isResolved c = true).
Proof.
  intros feedback openComments resolvedComments.
  assert (Hperm : Permutation (openComments ++ resolvedComments) comments)
    by apply (PartitionFacts.filter_partition ReviewComment.isResolved).
  assert (Hopen : forall c, In c openComments
                            <-> In c comments /\ ReviewComment.isResolved c = false).
  { intros c. unfold openComments. simpl.
    rewrite List.filter_In, negb_true_iff. reflexivity. }
  assert (Hres : forall c, In c resolvedComments
                           <-> In c comments /\ ReviewComment.isResolved c = true).
  { intros c. unfold resolvedComments. simpl.
    rewrite List.filter_In. reflexivity. }
  split; [exact Hperm|]. split; [|split; [|split; [|split; assumption]]].
  - rewrite <- length_app. apply Permutation_length. exact Hperm.
  - intros c. rewrite Hopen, Hres.
    destruct (ReviewComment.isResolved c); tauto.
  - intros c. rewrite Hopen, Hres. intros [[_ H1] [_ H2]]. congruence.
Qed.

(* ===================================================================== *)
(** * Sorting with a comparator that subtracts keys *)
(* ===================================================================== *)

Module SortFacts.
Section ByKey.
Context {A : Type} (key : A -> Z).

Let compareFn (a b : A) : Z := key a - key b.


Lemma insert_Permutation (x : A) (l : list A) :
  Permutation (JsArray.insert compareFn x l) (x :: l).
Proof.
  induction l as [|y l IH]; simpl; [reflexivity|].
  destruct (compareFn x y <=? 0); [reflexivity|].
  rewrite IH. apply perm_swap.
Qed.

Lemma sort_Permutation (l : list A) :
  Permutation (JsArray.sort compareFn l) l.
Proof.
  induction l as [|x l IH]; simpl; [reflexivity|].
  rewrite insert_Permutation, IH. reflexivity.
Qed.

Lemma insert_ascending (x : A) (l : list A) :
  Spec.ascending key l -> Spec.ascending key (JsArray.insert compareFn x l).
Proof.
  unfold Spec.ascending. induction 1 as [|y l Hl IH Hy]; simpl.
  - repeat constructor.
  - destruct (Z.leb_spec (compareFn x y) 0) as [Hle|Hgt];
      unfold compareFn in *.
    + constructor; [constructor; assumption|].
      constructor; [lia|].
      eapply Forall_impl; [exact Hy|]. simpl. intros z Hz. lia.
    + constructor; [exact IH|].
      eapply Permutation_Forall; [symmetry; apply insert_Permutation|].
      constructor; [lia|exact Hy].
Qed.

Lemma sort_ascending (l : list A) :
  Spec.ascending key (JsArray.sort compareFn l).
Proof.
  induction l as [|x l IH]; simpl; [constructor|].
  apply insert_ascending, IH.
Qed.

(** Stability: the elements of one key keep their order. *)
Lemma insert_filter (n : Z) (x : A) (l : list A) :
  List.filter (fun a => key a =? n) (JsArray.insert compareFn x l)
  = List.filter (fun a => key a =? n) (x :: l).
Proof.
  induction l as [|y l IH]; [reflexivity|].
  simpl JsArray.insert.
  destruct (Z.leb_spec (compareFn x y) 0) as [Hle|Hgt]; [reflexivity|].
  unfold compareFn in Hgt. simpl in *. rewrite IH.
  destruct (Z.eqb_spec (key x) n), (Z.eqb_spec (key y) n);
    try reflexivity; lia.
Qed.

Lemma sort_filter (n : Z) (l : list A) :
  List.filter (fun a => key a =? n) (JsArray.sort compareFn l)
  = List.filter (fun a => key a =? n) l.
Proof.
  induction l as [|x l IH]; [reflexivity|].
  simpl JsArray.sort. rewrite insert_filter. simpl. rewrite IH. reflexivity.
Qed.

End ByKey.
End SortFacts.

(* ===================================================================== *)
(** * Plain objects *)
(* ===================================================================== *)

Module ObjectFacts.

Lemma eqb_reflect (a b : jsstring) : reflect (a = b) (JsString.eqb a b).
Proof. apply bool_decide_reflect. Qed.

Lemma eqb_refl (a : jsstring) : JsString.eqb a a = true.
Proof. destruct (eqb_reflect a a); congruence. Qed.

Lemma eqb_neq (a b : jsstring) : a <> b -> JsString.eqb a b = false.
Proof. destruct (eqb_reflect a b); congruence. Qed.

(** ** Keys in the order of their first occurrence *)

Lemma firstSeen_In (k : jsstring) (keys : list jsstring) :
  In k (Spec.firstSeen keys) <-> In k keys.
Proof.
  induction keys as [|a keys IH]; simpl; [reflexivity|].
  rewrite List.filter_In, IH, negb_true_iff.
  destruct (eqb_reflect k a) as [->|Hne]; [tauto|].
  split; [tauto|]. intros [->|H]; [congruence|auto].
Qed.

Lemma firstSeen_NoDup (keys : list jsstring) : NoDup (Spec.firstSeen keys).
Proof.
  induction keys as [|a keys IH]; simpl; constructor.
  - rewrite list_elem_of_In, List.filter_In, eqb_refl. simpl.
    intros [_ H]. discriminate.
  - apply NoDup_ListNoDup, List.NoDup_filter, NoDup_ListNoDup. exact IH.
Qed.

Lemma firstSeen_snoc (keys : list jsstring) (k : jsstring) :
  Spec.firstSeen (keys ++ [k])
  = if existsb (JsString.eqb k) keys then Spec.firstSeen keys
    else Spec.firstSeen keys ++ [k].
Proof.
  induction keys as [|a keys IH]; simpl; [reflexivity|].
  rewrite IH. destruct (eqb_reflect k a) as [->|Hne]; simpl.
  - destruct (existsb (JsString.eqb a) keys); [reflexivity|].
    rewrite List.filter_app. simpl. rewrite eqb_refl. simpl.
    rewrite app_nil_r. reflexivity.
  - destruct (existsb (JsString.eqb k) keys); [reflexivity|].
    rewrite List.filter_app. simpl. rewrite (eqb_neq k a Hne). reflexivity.
Qed.

Lemma existsb_In (k : jsstring) (keys : list jsstring) :
  existsb (JsString.eqb k) keys = true <-> In k keys.
Proof.
  rewrite existsb_exists. split.
  - intros (x & Hx & E). destruct (eqb_reflect k x); congruence.
  - intros H. exists k. split; [assumption|apply eqb_refl].
Qed.

(** ** Reading and writing an object given by its keys *)

Section Keyed.
Context {V : Type}.
Implicit Types (f : jsstring -> V) (keys : list jsstring).

Lemma getOwn_In f keys k :
  In k keys -> JsObject.getOwn (map (fun k' => (k', f k')) keys) k = Some (f k).
Proof.
  induction keys as [|a keys IH]; simpl; [contradiction|].
  destruct (eqb_reflect a k) as [->|Hne]; [reflexivity|].
  intros [H|H]; [congruence|auto].
Qed.

Lemma getOwn_not_In f keys k :
  ~ In k keys -> JsObject.getOwn (map (fun k' => (k', f k')) keys) k = None.
Proof.
  induction keys as [|a keys IH]; simpl; [reflexivity|].
  destruct (eqb_reflect a k) as [->|Hne]; [tauto|].
  intros H. apply IH. tauto.
Qed.

Lemma set_In f keys k (v : V) :
  NoDup keys -> In k keys ->
  JsObject.set (map (fun k' => (k', f k')) keys) k v
  = map (fun k' => (k', if JsString.eqb k' k then v else f k')) keys.
Proof.
  induction keys as [|a keys IH]; simpl; [contradiction|].
  intros Hnd Hin. apply NoDup_cons in Hnd as [Ha Hnd].
  rewrite list_elem_of_In in Ha.
  destruct (eqb_reflect a k) as [->|Hne].
  - f_equal. apply map_ext_in. intros k' Hk'.
    rewrite eqb_neq; [reflexivity|congruence].
  - f_equal. apply IH; [assumption|]. destruct Hin; [congruence|assumption].
Qed.

Lemma set_not_In f keys k (v : V) :
  ~ In k keys ->
  JsObject.set (map (fun k' => (k', f k')) keys) k v
  = map (fun k' => (k', f k')) keys ++ [(k, v)].
Proof.
  induction keys as [|a keys IH]; simpl; [reflexivity|].
  intros H. destruct (eqb_reflect a k) as [->|Hne]; [tauto|].
  f_equal. apply IH. tauto.
Qed.

End Keyed.
End ObjectFacts.

(* ===================================================================== *)
(** * [groupByFile]: the first loop builds the groups *)
(* ===================================================================== *)

Module GroupFacts.
Import ObjectFacts.

Lemma groupMembers_snoc key comments c :
  Spec.groupMembers key (comments ++ [c])
  = Spec.groupMembers key comments
    ++ (if JsString.eqb (groupKey c) key then [c] else []).
Proof.
  unfold Spec.groupMembers. rewrite List.filter_app. reflexivity.
Qed.

Lemma groupMembers_none key comments :
  ~ In key (map groupKey comments) -> Spec.groupMembers key comments = [].
Proof.
  induction comments as [|c comments IH]; simpl; [reflexivity|].
  intros H. rewrite eqb_neq by tauto. apply IH. tauto.
Qed.

Lemma addToGroup_grouped comments c :
  JsObject.isInherited (groupKey c) = false ->
  addToGroup (Spec.grouped comments) c = Normal (Spec.grouped (comments ++ [c])).
Proof.
  intros Hown. unfold addToGroup, JsObject.get, Spec.grouped.
  rewrite map_app. change (map groupKey [c]) with [groupKey c].
  rewrite firstSeen_snoc.
  pose proof (firstSeen_NoDup (map groupKey comments)) as Hnd.
  set (keys := Spec.firstSeen (map groupKey comments)) in *.
  destruct (existsb _ _) eqn:Eseen.
  - apply existsb_In in Eseen.
    assert (Hin : In (groupKey c) keys) by (apply firstSeen_In; assumption).
    rewrite getOwn_In by assumption.
    rewrite set_In by assumption. f_equal.
    apply map_ext. intros key. rewrite groupMembers_snoc.
    destruct (eqb_reflect key (groupKey c)) as [->|Hne].
    + rewrite eqb_refl. reflexivity.
    + rewrite eqb_neq by congruence. rewrite app_nil_r. reflexivity.
  - assert (Hout : ~ In (groupKey c) (map groupKey comments)).
    { rewrite <- existsb_In. congruence. }
    assert (Hout' : ~ In (groupKey c) keys) by (unfold keys; rewrite firstSeen_In; assumption).
    rewrite getOwn_not_In by assumption. rewrite Hown.
    rewrite set_not_In by assumption. f_equal.
    rewrite map_app. simpl. f_equal.
    + apply map_ext_in. intros key Hkey. rewrite groupMembers_snoc.
      rewrite eqb_neq; [rewrite app_nil_r; reflexivity|].
      intros E. apply Hout'. congruence.
    + rewrite groupMembers_snoc, groupMembers_none by assumption.
      rewrite eqb_refl. reflexivity.
Qed.

Lemma first_loop comments :
  Forall (fun c => JsObject.isInherited (groupKey c) = false) comments ->
  fold_left (fun acc comment => let* groups := acc in addToGroup groups comment)
    comments (Normal [])
  = Normal (Spec.grouped comments).
Proof.
  induction comments as [|c comments IH] using rev_ind; intros H.
  - reflexivity.
  - apply Forall_app in H as [Hl Hc]. inversion Hc; subst.
    rewrite fold_left_app. simpl. rewrite IH by assumption. simpl.
    apply addToGroup_grouped. assumption.
Qed.

End GroupFacts.

(* ===================================================================== *)
(** * [groupByFile]: the second loop sorts every group *)
(* ===================================================================== *)

Module SortLoopFacts.
Import ObjectFacts.

Abbreviation groups := (JsObject.t (list ReviewComment.t)).


Lemma sortGroup_map (obj : groups) (path : jsstring) :
  NoDup (map fst obj) ->
  sortGroup obj path
  = map (fun entry => if JsString.eqb (fst entry) path then Spec.sortValue entry
                      else entry) obj.
Proof.
  unfold sortGroup. induction obj as [|[a v] obj IH]; simpl; [reflexivity|].
  intros Hnd. apply NoDup_cons in Hnd as [Ha Hnd].
  rewrite list_elem_of_In in Ha.
  destruct (eqb_reflect a path) as [->|Hne].
  - simpl. unfold Spec.sortValue at 1. simpl. f_equal.
    rewrite <- (map_id obj) at 1. apply map_ext_in. intros [k g] Hk. simpl.
    rewrite eqb_neq; [reflexivity|].
    intros ->. apply Ha. apply (in_map fst) in Hk. exact Hk.
  - specialize (IH Hnd).
    destruct (JsObject.getOwn obj path) as [g|]; simpl.
    + f_equal. exact IH.
    + f_equal. exact IH.
Qed.

Lemma sortGroup_keys (obj : groups) (path : jsstring) :
  NoDup (map fst obj) -> map fst (sortGroup obj path) = map fst obj.
Proof.
  intros Hnd. rewrite sortGroup_map by assumption.
  rewrite map_map. apply map_ext. intros entry.
  destruct (JsString.eqb _ _); reflexivity.
Qed.

Lemma sort_loop (paths : list jsstring) : forall obj : groups,
  NoDup (map fst obj) -> NoDup paths ->
  fold_left sortGroup paths obj
  = map (fun entry => if existsb (JsString.eqb (fst entry)) paths
                      then Spec.sortValue entry else entry) obj.
Proof.
  induction paths as [|path paths IH]; intros obj Hobj Hpaths; simpl.
  - symmetry. apply map_id.
  - apply NoDup_cons in Hpaths as [Hpath Hpaths].
    rewrite list_elem_of_In in Hpath.
    rewrite IH; [|rewrite sortGroup_keys; assumption|assumption].
    rewrite sortGroup_map by assumption.
    rewrite map_map. apply map_ext. intros entry.
    destruct (eqb_reflect (fst entry) path) as [E|Hne]; simpl.
    + rewrite E. destruct (existsb _ paths) eqn:Ex; [|reflexivity].
      apply existsb_In in Ex. contradiction.
    + reflexivity.
Qed.

(** ** The order of [Object.entries] *)

Lemma entries_Permutation {V} (obj : JsObject.t V) :
  Permutation (JsObject.entries obj) obj.
Proof.
  unfold JsObject.entries.
  etransitivity.
  - apply Permutation_app_tail.
    apply (SortFacts.sort_Permutation (fun kv => JsString.parseInt (fst kv))).
  - rewrite Permutation_app_comm.
    apply (PartitionFacts.filter_partition
             (fun kv => JsObject.isArrayIndex (fst kv))).
Qed.

Lemma insert_map {A B} (g : A -> B) cmpA cmpB (x : A) (l : list A) :
  (forall a b, cmpB (g a) (g b) = cmpA a b) ->
  JsArray.insert cmpB (g x) (map g l) = map g (JsArray.insert cmpA x l).
Proof.
  intros H. induction l as [|y l IH]; simpl; [reflexivity|].
  rewrite H. destruct (cmpA x y <=? 0); simpl; [reflexivity|].
  rewrite IH. reflexivity.
Qed.

Lemma sort_map {A B} (g : A -> B) cmpA cmpB (l : list A) :
  (forall a b, cmpB (g a) (g b) = cmpA a b) ->
  JsArray.sort cmpB (map g l) = map g (JsArray.sort cmpA l).
Proof.
  intros H. induction l as [|x l IH]; simpl; [reflexivity|].
  rewrite IH. apply insert_map. exact H.
Qed.

Lemma filter_map {A B} (g : A -> B) (p : B -> bool) (l : list A) :
  List.filter p (map g l) = map g (List.filter (fun a => p (g a)) l).
Proof.
  induction l as [|x l IH]; simpl; [reflexivity|].
  rewrite IH. destruct (p (g x)); reflexivity.
Qed.


Lemma entries_keyed {V} (f : jsstring -> V) (keys : list jsstring) :
  JsObject.entries (map (fun k => (k, f k)) keys)
  = map (fun k => (k, f k)) (Spec.listed keys).
Proof.
  unfold JsObject.entries, Spec.listed. rewrite map_app, !filter_map. simpl.
  f_equal. apply sort_map. reflexivity.
Qed.

End SortLoopFacts.

(* ===================================================================== *)
(** * [groupByFile]: the groups and their order *)
(* ===================================================================== *)

Module GroupByFileFacts.
Import ObjectFacts SortLoopFacts.

Lemma grouped_keys (comments : list ReviewComment.t) :
  map fst (Spec.grouped comments) = Spec.firstSeen (map groupKey comments).
Proof.
  unfold Spec.grouped. rewrite map_map. simpl. apply map_id.
Qed.

Lemma keys_In {V} (obj : JsObject.t V) (k : jsstring) :
  In k (JsObject.keys obj) <-> In k (map fst obj).
Proof.
  unfold JsObject.keys.
  split; apply Permutation_in, Permutation_map;
    [|symmetry]; apply entries_Permutation.
Qed.

Lemma keys_NoDup {V} (obj : JsObject.t V) :
  NoDup (map fst obj) -> NoDup (JsObject.keys obj).
Proof.
  unfold JsObject.keys. intros H.
  rewrite (Permutation_map fst (entries_Permutation obj)). exact H.
Qed.

(** The object that [groupByFile] returns, when it returns. *)
Lemma groupByFile_sorted (comments : list ReviewComment.t) :
  Forall (fun c => JsObject.isInherited (groupKey c) = false) comments ->
  groupByFile comments
  = Normal (map (fun key =>
                   (key, JsArray.sort compareByLine
                           (Spec.groupMembers key comments)))
              (Spec.firstSeen (map groupKey comments))).
Proof.
  intros H. unfold groupByFile. rewrite GroupFacts.first_loop by assumption.
  simpl. f_equal.
  assert (Hnd : NoDup (map fst (Spec.grouped comments))).
  { rewrite grouped_keys. apply firstSeen_NoDup. }
  rewrite sort_loop; [|assumption|apply keys_NoDup; assumption].
  unfold Spec.grouped at 2. rewrite map_map. apply map_ext_in.
  intros key Hkey. simpl.
  destruct (existsb _ _) eqn:E; [reflexivity|].
  assert (Hin : In key (JsObject.keys (Spec.grouped comments))).
  { apply keys_In. rewrite grouped_keys. assumption. }
  apply existsb_In in Hin. congruence.
Qed.

Lemma listed_indices (keys : list jsstring) :
  let indices :=
    JsArray.sort (fun a b => JsString.parseInt a - JsString.parseInt b)
      (List.filter JsObject.isArrayIndex keys) in
  Permutation indices (List.filter JsObject.isArrayIndex keys)
  /\ StronglySorted
       (fun a b => JsString.parseInt a <= JsString.parseInt b) indices.
Proof.
  split.
  - apply (SortFacts.sort_Permutation JsString.parseInt).
  - apply (SortFacts.sort_ascending JsString.parseInt).
Qed.

End GroupByFileFacts.


(** C2, where it fails.  For a comment on [b.go] followed by a comment on
    a file named [7], the groups are iterated with [7] first, although
    [b.go] was inserted first: a key that is an array index is listed
    before every other key. *)
Lemma groupByFile_order_counterexample :
  exists byFile,
    groupByFile GroupExamples.numericPath = Normal byFile
    /\ JsObject.keys byFile = [js "7"; js "b.go"]
    /\ Spec.firstSeen (map groupKey GroupExamples.numericPath)
       = [js "b.go"; js "7"]
    /\ JsObject.keys byFile
       <> Spec.firstSeen (map groupKey GroupExamples.numericPath).
Proof.
  eexists. split; [vm_compute; reflexivity|].
  split; [vm_compute; reflexivity|].
  split; [vm_compute; reflexivity|].
  vm_compute. discriminate.
Qed.

(** C2, amended.  For open comments none of whose group keys names a
    property of [Object.prototype], [groupByFile] returns the groups, and
    in the order in which they are iterated: first the keys that are array
    indices, in ascending numeric order, then the other keys in the order
    of their first insertion.  The group of a key holds the comments of
    that key (the path, or [general] for a comment without a path), sorted
    ascending by line with an absent line as 0, comments of one line in
    their original order. *)
Theorem groupByFile_groups (comments : list ReviewComment.t) :
  Forall (fun c => JsObject.isInherited (groupKey c) = false) comments ->
  exists byFile,
    groupByFile comments = Normal byFile
    /\ (let keys := Spec.firstSeen (map groupKey comments) in
        exists indices,
          map fst (JsObject.entries byFile)
          = indices
            ++ List.filter (fun k => negb (JsObject.isArrayIndex k)) keys
          /\ Permutation indices (List.filter JsObject.isArrayIndex keys)
          /\ StronglySorted
               (fun a b => JsString.parseInt a <= JsString.parseInt b)
               indices)
    /\ Forall
         (fun entry =>
            let members := Spec.groupMembers (fst entry) comments in
            Permutation (snd entry) members
            /\ StronglySorted (fun a b => lineOrZero a <= lineOrZero b)
                 (snd entry)
            /\ forall n,
                 List.filter (fun c => lineOrZero c =? n) (snd entry)
                 = List.filter (fun c => lineOrZero c =? n) members)
         (JsObject.entries byFile).
Proof.
  intros H. eexists. split; [apply GroupByFileFacts.groupByFile_sorted, H|].
  rewrite SortLoopFacts.entries_keyed. split.
  - intros keys.
    destruct (GroupByFileFacts.listed_indices keys) as [Hperm Hsorted].
    eexists. split; [|split; [exact Hperm|exact Hsorted]].
    rewrite map_map. simpl. rewrite map_id. reflexivity.
  - apply Forall_forall. intros entry Hentry.
    rewrite list_elem_of_In in Hentry.
    apply in_map_iff in Hentry as (key & <- & _). simpl.
    split; [|split].
    + apply (SortFacts.sort_Permutation lineOrZero).
    + apply (SortFacts.sort_ascending lineOrZero).
    + intros n. apply (SortFacts.sort_filter lineOrZero).
Qed.

(** C2 on its scenario: the groups are [b.go] and [a.go] in that order,
    and the [b.go] group holds line 2 and then line 5. *)
Lemma groupByFile_groups_witness :
  Forall (fun c => JsObject.isInherited (groupKey c) = false)
    GroupExamples.scenario
  /\ exists byFile,
       groupByFile GroupExamples.scenario = Normal byFile
       /\ map (fun entry => (fst entry, map ReviewComment.line (snd entry)))
            (JsObject.entries byFile)
          = [ (js "b.go", [Some 2; Some 5]); (js "a.go", [Some 1]) ].
Proof.
  assert (H : Forall (fun c => JsObject.isInherited (groupKey c) = false)
                GroupExamples.scenario)
    by (repeat constructor).
  split; [exact H|].
  destruct (groupByFile_groups GroupExamples.scenario H) as (byFile & E & _).
  exists byFile. split; [exact E|].
  vm_compute in E. injection E as <-. vm_compute. reflexivity.
Defined.

(* ===================================================================== *)
(** * The renderer *)
(* ===================================================================== *)


(** C6, at an input that breaks it.  For 2 open and 1 resolved comments
    with [includeResolved = true] the status is pushed as two elements of
    [lines]: the document holds the line [**Status:** 2 open issues] and,
    as the next line, [ | 1 resolved]; the text
    [2 open issues | 1 resolved] occurs nowhere in it. *)
Theorem status_line_is_split :
  exists markdown,
    Renderer.generateMarkdown RenderExamples.scenario true = Normal markdown
    /\ nth_error (JsString.split markdown) 8
       = Some (js "**Status:** 2 open issues")
    /\ nth_error (JsString.split markdown) 9 = Some (js " | 1 resolved")
    /\ nth_error (JsString.split markdown) 10 = Some []
    /\ JsString.includes markdown (js "2 open issues | 1 resolved") = false.
Proof.
  eexists. split; [vm_compute; reflexivity|].
  repeat split; vm_compute; reflexivity.
Qed.

Module RenderFacts.

(** The status of a snapshot: its first line states the open count; the
    resolved count, when it is shown, is the element after it. *)
Lemma statusLines_shape (openCount resolvedCount : Z) (includeResolved : bool) :
  Renderer.statusLines openCount resolvedCount includeResolved
  = [ js "**Status:** " ++ JsString.ofNumber openCount ++ js " open issue"
        ++ (if openCount =? 1 then [] else js "s") ]
    ++ (if includeResolved && (0 <? resolvedCount)
        then [ js " | " ++ JsString.ofNumber resolvedCount ++ js " resolved" ]
        else [])
    ++ [ []; js "---"; [] ].
Proof.
  unfold Renderer.statusLines. destruct (openCount =? 1); reflexivity.
Qed.

End RenderFacts.

(* ===================================================================== *)
(** * A run without open comments *)
(* ===================================================================== *)

Module PublisherFacts.

Lemma deleteFeedbackFile_outcome (files : gmap jsstring Publisher.entry)
    (filePath : jsstring) (prNumber : Z) :
  Publisher.deleteFeedbackFile files filePath prNumber
  = Normal (match files !! filePath with
            | Some (Publisher.File _ _) =>
                (delete filePath files,
                 [Info (js "Deleted feedback file " ++ filePath)])
            | _ => (files, [])
            end).
Proof.
  unfold Publisher.deleteFeedbackFile, Publisher.getContent,
    Publisher.deleteFile.
  destruct (files !! filePath) as [[sha content|]|] eqn:E; simpl.
  - rewrite ObjectFacts.eqb_refl. reflexivity.
  - reflexivity.
  - reflexivity.
Qed.


Lemma collectComments_log (input : RunInput.t) :
  Spec.noFailure (snd (collectComments input)).
Proof.
  unfold collectComments, Spec.noFailure.
  destruct (RunInput.graphql input) as [threads|error]; simpl;
    destruct (0 <? _)%nat; repeat constructor; discriminate.
Qed.

Lemma generateMarkdown_no_open (feedback : AggregatedFeedback.t)
    (includeResolved : bool) :
  AggregatedFeedback.openComments feedback = [] ->
  Renderer.generateMarkdown feedback includeResolved
  = Normal
      (JsString.join
         (Renderer.headerLines feedback
          ++ Renderer.statusLines 0
               (Z.of_nat (length (AggregatedFeedback.resolvedComments feedback)))
               includeResolved
          ++ Renderer.noOpenIssuesLines
          ++ Renderer.resolvedLines feedback includeResolved
          ++ Renderer.reviewsLines feedback)).
Proof.
  intros Hopen.
  unfold Renderer.generateMarkdown, Renderer.markdownLines,
    Renderer.issuesLines.
  rewrite Hopen. reflexivity.
Qed.

End PublisherFacts.

(** C7. For a snapshot without open comments, whatever the resolved
    comments, the issues section of the document is the fixed message: the
    heading [## No Open Issues], an empty line, the sentence
    [All review comments have been resolved!] and an empty line.  A run
    that finds no open comment and has a feedback file configured deletes
    the file when the branch holds it, leaves the branch as it is when the
    path holds nothing, and reports no failure. *)
Theorem zero_open_comments :
  (forall (feedback : AggregatedFeedback.t) (includeResolved : bool),
      AggregatedFeedback.openComments feedback = [] ->
      Renderer.issuesLines feedback
      = Normal [ js "## No Open Issues"; [];
                 js "All review comments have been resolved!"; [] ]
      /\ Renderer.generateMarkdown feedback includeResolved
         = Normal
             (JsString.join
                (Renderer.headerLines feedback
                 ++ Renderer.statusLines 0
                      (Z.of_nat
                         (length (AggregatedFeedback.resolvedComments feedback)))
                      includeResolved
                 ++ [ js "## No Open Issues"; [];
                      js "All review comments have been resolved!"; [] ]
                 ++ Renderer.resolvedLines feedback includeResolved
                 ++ Renderer.reviewsLines feedback)))
  /\ (forall (blobSha : jsstring -> jsstring) (input : RunInput.t)
             (files : gmap jsstring Publisher.entry) (prNumber : Z),
        numberOr (RunInput.prNumber input) None = Some prNumber ->
        AggregatedFeedback.openComments
          (buildFeedback input prNumber (fst (collectComments input))) = [] ->
        RunInput.feedbackFilePath input <> [] ->
        let path := RunInput.feedbackFilePath input in
        let result := run blobSha input files in
        (forall sha content,
            files !! path = Some (Publisher.File sha content) ->
            RunResult.files result = delete path files
            /\ RunResult.files result !! path = None)
        /\ (files !! path = None -> RunResult.files result = files)
        /\ Forall (fun entry => forall message, entry <> Failed message)
             (RunResult.log result)
        /\ RunResult.openCount result = Some 0%nat).
Proof.
  split.
  - intros feedback includeResolved Hopen. split.
    + unfold Renderer.issuesLines. rewrite Hopen. reflexivity.
    + apply PublisherFacts.generateMarkdown_no_open. assumption.
  - intros blobSha input files prNumber HprNumber Hopen Hpath path result.
    unfold result, run. rewrite HprNumber.
    destruct (collectComments input) as [comments log] eqn:Ecollect.
    cbn [fst] in Hopen. cbv zeta.
    rewrite (PublisherFacts.generateMarkdown_no_open _ _ Hopen), Hopen.
    cbn [bind]. unfold Publisher.publishFeedbackFile. fold path.
    destruct path as [|c path'] eqn:Epath; [contradiction|].
    rewrite <- Epath. simpl.
    rewrite PublisherFacts.deleteFeedbackFile_outcome.
    pose proof (PublisherFacts.collectComments_log input) as Hlog.
    rewrite Ecollect in Hlog. simpl in Hlog.
    unfold Spec.noFailure in Hlog.
    split; [|split; [|split]].
    + intros sha content Hfile. rewrite Hfile. simpl.
      split; [reflexivity|apply lookup_delete_eq].
    + intros Hnone. rewrite Hnone. reflexivity.
    + destruct (files !! path) as [[sha content|]|]; simpl;
        constructor; try discriminate;
        (apply Forall_app; split; [exact Hlog|]);
        repeat constructor; discriminate.
    + destruct (files !! path) as [[sha content|]|]; reflexivity.
Qed.


(** C7 on a run whose only comment is resolved, with the feedback file of
    an earlier run on the branch: the file is deleted. *)
Lemma zero_open_comments_witness :
  let result :=
    run (fun content => content) RunExamples.allResolved
      RunExamples.withFeedbackFile in
  RunResult.files result
  = delete RunExamples.feedbackPath RunExamples.withFeedbackFile
  /\ RunResult.files result !! RunExamples.feedbackPath = None.
Proof.
  destruct zero_open_comments as [_ H].
  specialize (H (fun content => content) RunExamples.allResolved
                RunExamples.withFeedbackFile 123).
  destruct H as (Hfile & _).
  - reflexivity.
  - vm_compute. reflexivity.
  - discriminate.
  - apply (Hfile (js "3b18e512") (js "# PR #123 Review Feedback")).
    apply lookup_singleton_eq.
Defined.

(** [groupByFile] on a file named like a property of [Object.prototype]:
    the call of [push] throws. *)
Example groupByFile_inherited_key :
  groupByFile [ GroupExamples.openComment (js "constructor") 3 ]
  = Throw (js "groups[path].push is not a function").
Proof. reflexivity. Qed.


(** C10 on three issue comments with the same well-formed body: the one
    posted by another author adds nothing. *)
Lemma fetchGreptileComments_gate_witness :
  ~ Spec.isGreptilePrompt FetchExamples.byAlice
  /\ map ReviewComment.id
       (fetchGreptileCommentsFromIssueComments
          [ FetchExamples.byGreptile 200; FetchExamples.byAlice;
            FetchExamples.byGreptile 300 ])
     = [200; 300].
Proof.
  assert (Hnot : ~ Spec.isGreptilePrompt FetchExamples.byAlice).
  { intros [Hlogin _]. discriminate Hlogin. }
  split; [exact Hnot|].
  destruct (fetchGreptileComments_gate [FetchExamples.byGreptile 200]
              [FetchExamples.byGreptile 300] FetchExamples.byAlice) as [_ H].
  change [FetchExamples.byGreptile 200; FetchExamples.byAlice;
          FetchExamples.byGreptile 300]
    with ([FetchExamples.byGreptile 200]
          ++ FetchExamples.byAlice :: [FetchExamples.byGreptile 300]).
  etransitivity; [exact (f_equal (map ReviewComment.id) (H Hnot))|].
  vm_compute. reflexivity.
Defined.

(* ===================================================================== *)
(** * Further facts: [trim] *)
(* ===================================================================== *)

Module TrimFacts.
Import JsString.

Lemma trimStart_split (s : jsstring) :
  exists pre, s = pre ++ trimStart s /\ Forall (fun c => isSpace c = true) pre.
Proof.
  induction s as [|c s (pre & E & Hpre)]; simpl.
  - exists []. split; [reflexivity|constructor].
  - destruct (isSpace c) eqn:Ec.
    + exists (c :: pre). split; [simpl; congruence|constructor; assumption].
    + exists []. split; [reflexivity|constructor].
Qed.

Lemma trimStart_clean (s : jsstring) : Props.startsClean (trimStart s).
Proof.
  induction s as [|c s IH]; simpl; [exact I|].
  destruct (isSpace c) eqn:Ec; [exact IH|exact Ec].
Qed.

Lemma trimStart_id (s : jsstring) : Props.startsClean s -> trimStart s = s.
Proof.
  destruct s as [|c s]; simpl; [reflexivity|]. intros ->. reflexivity.
Qed.

Lemma trimEnd_split (s : jsstring) :
  exists post, s = trimEnd s ++ post /\ Forall (fun c => isSpace c = true) post.
Proof.
  unfold trimEnd. destruct (trimStart_split (rev s)) as (pre & E & Hpre).
  exists (rev pre). split.
  - rewrite <- rev_app_distr, <- E, rev_involutive. reflexivity.
  - apply Forall_rev. assumption.
Qed.

Lemma trimEnd_idempotent (s : jsstring) : trimEnd (trimEnd s) = trimEnd s.
Proof.
  unfold trimEnd. rewrite rev_involutive.
  rewrite (trimStart_id (trimStart (rev s))); [reflexivity|].
  apply trimStart_clean.
Qed.

Lemma trimEnd_clean (s : jsstring) : Props.startsClean s -> Props.startsClean (trimEnd s).
Proof.
  intros H. destruct (trimEnd_split s) as (post & E & _).
  destruct (trimEnd s) as [|c t]; [exact I|].
  rewrite E in H. exact H.
Qed.

Lemma trim_idempotent (s : jsstring) : trim (trim s) = trim s.
Proof.
  unfold trim.
  rewrite (trimStart_id (trimEnd (trimStart s))).
  - apply trimEnd_idempotent.
  - apply trimEnd_clean, trimStart_clean.
Qed.

(** [trim s] is a part of [s], between white space. *)
Lemma trim_split (s : jsstring) :
  exists pre post,
    s = pre ++ trim s ++ post
    /\ Forall (fun c => isSpace c = true) pre
    /\ Forall (fun c => isSpace c = true) post.
Proof.
  destruct (trimStart_split s) as (pre & E & Hpre).
  destruct (trimEnd_split (trimStart s)) as (post & E' & Hpost).
  exists pre, post. unfold trim. rewrite <- E', <- E. auto.
Qed.

Lemma trim_Forall (P : N -> Prop) (s : jsstring) :
  Forall P s -> Forall P (trim s).
Proof.
  destruct (trim_split s) as (pre & post & E & _). intros H.
  rewrite E in H. apply Forall_app in H as [_ H].
  apply Forall_app in H as [H _]. exact H.
Qed.

Lemma trim_nil (s : jsstring) :
  trim s = [] <-> Forall (fun c => isSpace c = true) s.
Proof.
  split.
  - intros E. destruct (trim_split s) as (pre & post & Es & Hpre & Hpost).
    rewrite E in Es. rewrite Es. apply Forall_app. auto.
  - intros H. unfold trim.
    assert (E : trimStart s = []).
    { induction H as [|c s Hc _ IH]; simpl; [reflexivity|].
      rewrite Hc. exact IH. }
    rewrite E. reflexivity.
Qed.

Lemma trim_containsIgnoringCase (s needle : jsstring) :
  Spec.containsIgnoringCase (trim s) needle ->
  Spec.containsIgnoringCase s needle.
Proof.
  intros (a & mid & b & E & Hmid).
  destruct (trim_split s) as (pre & post & Es & _).
  exists (pre ++ a), mid, (b ++ post). split; [|assumption].
  rewrite Es, E. rewrite <- !app_assoc. reflexivity.
Qed.

End TrimFacts.

(* ===================================================================== *)
(** * Further facts: the fields of a block *)
(* ===================================================================== *)

Module FieldFacts.
Import Regex Extractor.

Lemma match1_matches r s v :
  match1 r s = Some v ->
  exists before after rest cap,
    s = before ++ after /\ matches r after rest None cap
    /\ v = default [] cap.
Proof.
  unfold match1. destruct (exec r s) as [m|] eqn:E; [|discriminate].
  intros [= <-]. apply MatcherFacts.exec_sound in E as (b & a & r' & ? & ?).
  exists b, a, r', (capture m). auto.
Qed.

(** The path capture holds no line terminator. *)
Lemma pathRegex_capture s v :
  match1 pathRegex s = Some v -> Props.singleLine v.
Proof.
  intros H. apply match1_matches in H as (b & a & r & cap & _ & Hm & ->).
  open_matches Hm. simpl.
  match goal with
  | E : ?m1 ++ ?t = ?m2 ++ ?t |- _ => apply app_inv_tail in E; subst
  end.
  eapply Forall_impl; [eassumption|].
  intros c Hc. simpl in Hc. apply negb_true_iff. exact Hc.
Qed.

(** The line capture is a string of digits. *)
Lemma lineRegex_capture s v :
  match1 lineRegex s = Some v ->
  Forall (fun c => JsString.isDigit c = true) v.
Proof.
  intros H. apply match1_matches in H as (b & a & r & cap & _ & Hm & ->).
  open_matches Hm; simpl;
    match goal with
    | E : ?m1 ++ ?t = ?m2 ++ ?t |- _ => apply app_inv_tail in E; subst
    end;
    assumption.
Qed.

Lemma parseInt_acc (digits : jsstring) : forall acc,
  Forall (fun c => JsString.isDigit c = true) digits ->
  0 <= acc ->
  0 <= fold_left (fun acc c => 10 * acc + (Z.of_N c - 48)) digits acc.
Proof.
  induction digits as [|c digits IH]; intros acc H Hacc; simpl; [assumption|].
  inversion H as [|? ? Hc Hrest]; subst. apply IH; [assumption|].
  unfold JsString.isDigit in Hc. apply andb_true_iff in Hc as [Hlo _].
  apply N.leb_le in Hlo. lia.
Qed.

Lemma parseInt_nonneg (digits : jsstring) :
  Forall (fun c => JsString.isDigit c = true) digits ->
  0 <= JsString.parseInt digits.
Proof. intros H. apply parseInt_acc; [assumption|lia]. Qed.

(** ** The lazy capture of the comment text *)

Lemma charEq_sameLetter p c : charEq p c = true <-> Spec.sameLetter c p.
Proof.
  unfold charEq, canonicalize, Spec.sameLetter, Spec.foldCase.
  rewrite N.eqb_eq. split; intros H; revert H; ncases; lia.
Qed.

Lemma Forall2_charEq text mid :
  Forall2 Spec.sameLetter mid text ->
  Forall2 (fun p c => charEq p c = true) text mid.
Proof.
  induction 1; constructor; [apply charEq_sameLetter|]; assumption.
Qed.

(** A lazy star hands over at the first place where the rest of the
    expression matches. *)
Lemma lazyStar_first {X} (s : jsstring) : forall (k : jsstring -> option X) x,
  mrep CAny 0 None false s k = Some x ->
  exists mid s',
    s = mid ++ s' /\ k s' = Some x
    /\ forall mid1 rest1,
         s = mid1 ++ rest1 -> (length mid1 < length mid)%nat ->
         k rest1 = None.
Proof.
  induction s as [|c s IH]; intros k x H; simpl in H.
  - exists [], []. destruct (k []) eqn:E; [|discriminate].
    injection H as ->. repeat split; auto.
    intros mid1 rest1 _ Hlt. simpl in Hlt. lia.
  - destruct (k (c :: s)) eqn:E.
    + injection H as ->. exists [], (c :: s). repeat split; auto.
      intros mid1 rest1 _ Hlt. simpl in Hlt. lia.
    + apply IH in H as (mid & s' & -> & Hk & Hfirst).
      exists (c :: mid), s'. repeat split; auto.
      intros [|c1 mid1] rest1 Hs Hlt; simpl in Hs.
      * subst rest1. exact E.
      * injection Hs as <- Hs. apply (Hfirst mid1 rest1 Hs).
        simpl in Hlt. lia.
Qed.

Lemma commentRegex_here s m :
  matchHere commentRegex s = Some m ->
  exists text,
    capture m = Some text
    /\ ~ Spec.containsIgnoringCase text Props.promptPhrase.
Proof.
  unfold matchHere, commentRegex, cat, star, lazyStar. cbn [rmatch].
  intros H.
  destruct (stripLit (js "Comment:") s) as [s1|]; [|discriminate].
  apply MatcherFacts.mrep_sound in H as (ws & s2 & _ & _ & _ & _ & H).
  apply lazyStar_first in H as (text & s3 & -> & H & Hfirst).
  exists text. split.
  - rewrite MatcherFacts.firstn_consumed in H.
    destruct (stripLit _ s3); [injection H as <-; reflexivity|].
    destruct s3; [injection H as <-; reflexivity|discriminate].
  - intros (a & mid & b & -> & Hmid).
    assert (Hlt : (length a < length (a ++ mid ++ b))%nat).
    { rewrite !length_app. apply Forall2_length in Hmid.
      change (length Props.promptPhrase) with 17%nat in Hmid. lia. }
    specialize (Hfirst a (mid ++ b ++ s3)).
    rewrite <- !app_assoc in Hfirst. specialize (Hfirst eq_refl Hlt).
    change (js "How can I resolve") with Props.promptPhrase in Hfirst.
    rewrite (MatcherFacts.stripLit_complete Props.promptPhrase mid (b ++ s3))
      in Hfirst by (apply Forall2_charEq; assumption).
    discriminate.
Qed.

Lemma commentRegex_capture s v :
  match1 commentRegex s = Some v ->
  ~ Spec.containsIgnoringCase v Props.promptPhrase.
Proof.
  unfold match1. destruct (exec commentRegex s) as [m|] eqn:E; [|discriminate].
  intros [= <-]. apply RegexFacts.exec_matchHere in E as (pre & s0 & _ & E).
  apply commentRegex_here in E as (text & -> & H). exact H.
Qed.

(** What the fields of an accepted block are like. *)
Lemma blockFields_shape blockContent path line text :
  Unrolled.blockFields blockContent = Some (path, line, text) ->
  Props.trimmed path /\ Props.singleLine path
  /\ Props.trimmed text
  /\ ~ Spec.containsIgnoringCase text Props.promptPhrase
  /\ (forall n, line = Some n -> 0 <= n).
Proof.
  unfold Unrolled.blockFields.
  destruct (match1 pathRegex blockContent) as [p|] eqn:Ep; [|discriminate].
  destruct (match1 commentRegex blockContent) as [t|] eqn:Et; [|discriminate].
  intros [= <- <- <-]. repeat split.
  - apply TrimFacts.trim_idempotent.
  - apply TrimFacts.trim_Forall, pathRegex_capture with blockContent. exact Ep.
  - apply TrimFacts.trim_idempotent.
  - intros H. apply TrimFacts.trim_containsIgnoringCase in H.
    exact (commentRegex_capture _ _ Et H).
  - intros n. destruct (match1 lineRegex blockContent) as [d|] eqn:Ed;
      [|discriminate].
    intros [= <-]. apply parseInt_nonneg, lineRegex_capture with blockContent.
    exact Ed.
Qed.

End FieldFacts.

(* ===================================================================== *)
(** * The matcher and the format of the blocks *)
(* ===================================================================== *)

Module TextFacts.
Import Regex.

(** A greedy star hands over at the last place where the rest of the
    expression matches. *)
Lemma greedyStar_last {X} (cl : cclass) (s : jsstring) :
  forall (k : jsstring -> option X) x,
    mrep cl 0 None true s k = Some x ->
    exists mid s',
      s = mid ++ s'
      /\ Forall (fun c => inClass cl c = true) mid
      /\ k s' = Some x
      /\ forall mid1 rest1,
           s = mid1 ++ rest1 ->
           Forall (fun c => inClass cl c = true) mid1 ->
           (length mid < length mid1)%nat ->
           k rest1 = None.
Proof.
  induction s as [|c s IH]; intros k x H; simpl in H.
  - exists [], []. repeat split; auto.
    intros mid1 rest1 Hs _ Hlt.
    destruct mid1; [simpl in Hlt; lia|discriminate].
  - destruct (inClass cl c) eqn:Ec.
    + destruct (mrep cl 0 None true s k) as [y|] eqn:Emore.
      * injection H as ->.
        apply IH in Emore as (mid & s' & -> & Hmid & Hk & Hlast).
        exists (c :: mid), s'. repeat split; auto.
        intros [|c1 mid1] rest1 Hs Hall Hlt; [simpl in Hlt; lia|].
        injection Hs as <- Hs. inversion Hall; subst.
        apply (Hlast mid1 rest1); [exact Hs|assumption|simpl in Hlt; lia].
      * exists [], (c :: s). repeat split; auto.
        intros [|c1 mid1] rest1 Hs Hall Hlt; [simpl in Hlt; lia|].
        injection Hs as <- Hs. inversion Hall; subst.
        apply (MatcherFacts.mrep_complete _ _ _ _ _ _ Emore mid1 rest1);
          auto; lia.
    + exists [], (c :: s). repeat split; auto.
      intros [|c1 mid1] rest1 Hs Hall Hlt; [simpl in Hlt; lia|].
      injection Hs as <- Hs. inversion Hall; subst. congruence.
Qed.



(** Two ways of cutting one text: one of the first parts is a prefix of the
    other. *)
Lemma app_eq_split {A} (a : list A) : forall a' b b',
  a ++ b = a' ++ b' ->
  (length a <= length a')%nat ->
  exists mid, a' = a ++ mid /\ b = mid ++ b'.
Proof.
  induction a as [|x a IH]; intros a' b b' E Hlen.
  - exists a'. auto.
  - destruct a' as [|x' a']; [simpl in Hlen; lia|].
    injection E as <- E. simpl in Hlen.
    destruct (IH a' b b' E) as (mid & -> & ->); [lia|].
    exists mid. auto.
Qed.

End TextFacts.

Module BlockFacts.
Import Regex Extractor TextFacts.

Lemma sameText_charEq (mid text : jsstring) :
  Grammar.sameText mid text
  <-> Forall2 (fun p c => charEq p c = true) text mid.
Proof.
  unfold Grammar.sameText. split.
  - apply FieldFacts.Forall2_charEq.
  - induction 1; constructor; [apply FieldFacts.charEq_sameLetter|];
      assumption.
Qed.


Lemma backtick_only (c : N) :
  inClass (CChar backtick) c = true <-> c = Grammar.backtick.
Proof.
  simpl. rewrite FieldFacts.charEq_sameLetter.
  unfold Spec.sameLetter, Spec.foldCase, backtick, Grammar.backtick.
  split; intros H; revert H; ncases; lia.
Qed.

Lemma fence_iff (mid : jsstring) :
  Grammar.fence mid
  <-> Forall (fun c => inClass (CChar backtick) c = true) mid
      /\ (3 <= length mid <= 5)%nat.
Proof.
  split.
  - intros (k & Hk & ->). rewrite repeat_length. split; [|exact Hk].
    apply Forall_forall. intros c Hc. rewrite list_elem_of_In in Hc.
    apply repeat_spec in Hc. apply backtick_only. exact Hc.
  - intros [Hall Hlen]. exists (length mid). split; [exact Hlen|].
    clear Hlen. induction Hall as [|c mid Hc _ IH]; [reflexivity|].
    simpl. apply backtick_only in Hc. rewrite Hc, <- IH. reflexivity.
Qed.

(** The end of the block expression: a closing and nothing else. *)
Lemma closing_Some {X} (f : jsstring -> X) (s : jsstring) (x : X) :
  mrep (CChar backtick) 3 (Some 5%nat) true s
    (fun s5 =>
       mrep CSpace 0 None true s5
         (fun s6 =>
            match stripLit (js "</details>") s6 with
            | Some s7 => Some (f s7)
            | None => None
            end))
  = Some x ->
  exists c rest, s = c ++ rest /\ Grammar.closing c /\ x = f rest.
Proof.
  intros H.
  apply MatcherFacts.mrep_sound in H
    as (ticks & s5 & -> & Hticks & Hlo & Hhi & H).
  apply MatcherFacts.mrep_sound in H as (ws & s6 & -> & Hws & _ & _ & H).
  destruct (stripLit (js "</details>") s6) as [s7|] eqn:E; [|discriminate].
  apply ExtractorFacts.stripLit_sameLetter in E as (tag & -> & Htag).
  injection H as <-.
  exists (ticks ++ ws ++ tag), s7. split; [rewrite <- !app_assoc; reflexivity|].
  split; [|reflexivity].
  exists ticks, ws, tag. split; [reflexivity|]. split; [|split].
  - apply fence_iff. split; [exact Hticks|lia].
  - exact Hws.
  - exact Htag.
Qed.

Lemma closing_None {X} (f : jsstring -> X) (s : jsstring) :
  mrep (CChar backtick) 3 (Some 5%nat) true s
    (fun s5 =>
       mrep CSpace 0 None true s5
         (fun s6 =>
            match stripLit (js "</details>") s6 with
            | Some s7 => Some (f s7)
            | None => None
            end))
  = None ->
  forall c rest, s = c ++ rest -> ~ Grammar.closing c.
Proof.
  intros H c rest -> (ticks & ws & tag & -> & Hticks & Hws & Htag).
  apply fence_iff in Hticks as [Hticks Hlen].
  pose proof (MatcherFacts.mrep_complete _ _ _ _ _ _ H ticks
                (ws ++ tag ++ rest)) as H1.
  cbv beta in H1. rewrite <- !app_assoc in H1.
  specialize (H1 eq_refl Hticks (proj1 Hlen) (proj2 Hlen)).
  pose proof (MatcherFacts.mrep_complete _ _ _ _ _ _ H1 ws (tag ++ rest)
                eq_refl Hws (Nat.le_0_l _) I) as H2.
  cbv beta in H2.
  rewrite (MatcherFacts.stripLit_complete (js "</details>") tag rest) in H2
    by (apply sameText_charEq; exact Htag).
  discriminate.
Qed.

(** A match of the block expression at the start of a text is the block
    that the text starts with. *)
Lemma promptBlock_here (s : jsstring) (m : result) :
  matchHere promptBlockRegex s = Some m ->
  exists content,
    capture m = Some content /\ Grammar.blockAt s content (rest m).
Proof.
  unfold matchHere, promptBlockRegex, cat, star, between, lazyStar.
  cbn [rmatch]. intros H.
  destruct (stripLit _ s) as [s1|] eqn:E1; [|discriminate].
  apply ExtractorFacts.stripLit_sameLetter in E1 as (tag & -> & Htag).
  apply MatcherFacts.mrep_sound in H as (ws1 & s2 & -> & Hws1 & _ & _ & H).
  apply MatcherFacts.mrep_sound in H
    as (ticks & s3 & -> & Hticks & Hlo & Hhi & H).
  destruct (stripLit (js "markdown") s3) as [s4|] eqn:E4; [|discriminate].
  apply ExtractorFacts.stripLit_sameLetter in E4 as (word & -> & Hword).
  apply greedyStar_last in H as (ws2 & s5 & -> & Hws2 & H & Hlast).
  apply FieldFacts.lazyStar_first in H as (content & s6 & -> & H & Hfirst).
  rewrite MatcherFacts.firstn_consumed in H.
  apply (closing_Some (fun s7 => {| capture := Some content; rest := s7 |}))
    in H as (c & rest' & -> & Hc & ->).
  exists content. split; [reflexivity|]. cbn [rest].
  exists (tag ++ ws1 ++ ticks ++ word ++ ws2), c.
  split; [rewrite <- !app_assoc; reflexivity|].
  split; [|split; [exact Hc|split]].
  - exists tag, ws1, ticks, word, ws2. split; [reflexivity|].
    split; [exact Htag|]. split; [exact Hws1|].
    split; [apply fence_iff; split; [exact Hticks|lia]|].
    split; [exact Hword|exact Hws2].
  - destruct content as [|c0 content']; [exact I|]. simpl.
    destruct (JsString.isSpace c0) eqn:E0; [exfalso|reflexivity].
    assert (Hnone := Hlast (ws2 ++ [c0]) (content' ++ c ++ rest')).
    rewrite <- !app_assoc in Hnone. specialize (Hnone eq_refl).
    assert (Hblank : Forall (fun c => inClass CSpace c = true) (ws2 ++ [c0])).
    { apply Forall_app. split; [exact Hws2|]. repeat constructor. exact E0. }
    specialize (Hnone Hblank).
    rewrite length_app in Hnone. simpl in Hnone.
    specialize (Hnone ltac:(lia)).
    pose proof (MatcherFacts.mrep_complete _ _ _ _ _ _ Hnone content'
                  (c ++ rest') eq_refl) as H1.
    cbv beta in H1.
    assert (Hany : Forall (fun c => inClass CAny c = true) content')
      by (apply Forall_forall; intros; reflexivity).
    specialize (H1 Hany (Nat.le_0_l _) I).
    exact (closing_None _ _ H1 c rest' eq_refl Hc).
  - intros pre post c' rest'' -> Hpost E Hc'.
    assert (Hnone := Hfirst pre (post ++ c ++ rest')).
    rewrite <- !app_assoc in Hnone. specialize (Hnone eq_refl).
    rewrite length_app in Hnone.
    assert (Hlen : (0 < length post)%nat)
      by (destruct post; [contradiction|simpl; lia]).
    specialize (Hnone ltac:(lia)).
    exact (closing_None _ _ Hnone c' rest'' E Hc').
Qed.

(** Where the block expression does not match, the text is not
    delimited. *)
Lemma promptBlock_none (s : jsstring) :
  matchHere promptBlockRegex s = None -> ~ Grammar.delimited s.
Proof.
  unfold matchHere, promptBlockRegex, cat, star, between, lazyStar.
  cbn [rmatch].
  intros H (o & content & c & rest & -> & Ho & Hc).
  destruct Ho as (tag & ws1 & ticks & word & ws2 & -> & Htag & Hws1
                  & Hticks & Hword & Hws2).
  apply fence_iff in Hticks as [Hticks Hlen].
  rewrite <- !app_assoc in H.
  rewrite (MatcherFacts.stripLit_complete _ tag) in H
    by (apply sameText_charEq; exact Htag).
  pose proof (MatcherFacts.mrep_complete _ _ _ _ _ _ H ws1 _ eq_refl Hws1
                (Nat.le_0_l _) I) as H1.
  cbv beta in H1.
  pose proof (MatcherFacts.mrep_complete _ _ _ _ _ _ H1 ticks _ eq_refl
                Hticks (proj1 Hlen) (proj2 Hlen)) as H2.
  cbv beta in H2.
  rewrite (MatcherFacts.stripLit_complete _ word) in H2
    by (apply sameText_charEq; exact Hword).
  pose proof (MatcherFacts.mrep_complete _ _ _ _ _ _ H2 ws2 _ eq_refl Hws2
                (Nat.le_0_l _) I) as H3.
  cbv beta in H3.
  assert (Hany : Forall (fun c => inClass CAny c = true) content)
    by (apply Forall_forall; intros; reflexivity).
  pose proof (MatcherFacts.mrep_complete _ _ _ _ _ _ H3 content _ eq_refl
                Hany (Nat.le_0_l _) I) as H4.
  cbv beta in H4.
  exact (closing_None _ _ H4 c rest eq_refl Hc).
Qed.

End BlockFacts.

Module ScanFacts.
Import Regex Extractor TextFacts BlockFacts.







Lemma sameLetter_not (P : N -> bool) (x y : N) :
  Spec.sameLetter x y ->
  (forall z, Spec.foldCase z = Spec.foldCase y -> P z = false) ->
  P x = false.
Proof. intros H HP. apply HP. exact H. Qed.






(** The match that [exec] returns is the first one. *)
Lemma exec_leftmost (r : Regex.t) (s : jsstring) (m : result) :
  exec r s = Some m ->
  exists pre s0,
    s = pre ++ s0 /\ matchHere r s0 = Some m
    /\ forall pre1 post1,
         s = pre1 ++ post1 -> (length pre1 < length pre)%nat ->
         matchHere r post1 = None.
Proof.
  induction s as [|c s IH]; simpl; intros H.
  - destruct (matchHere r []) eqn:E; [|discriminate].
    injection H as ->. exists [], []. repeat split; auto.
    intros pre1 post1 _ Hlt. simpl in Hlt. lia.
  - destruct (matchHere r (c :: s)) eqn:E.
    + injection H as ->. exists [], (c :: s). repeat split; auto.
      intros pre1 post1 _ Hlt. simpl in Hlt. lia.
    + destruct (IH H) as (pre & s0 & -> & Hm & Hfirst).
      exists (c :: pre), s0. repeat split; auto.
      intros [|c1 pre1] post1 Hs Hlt; simpl in Hs.
      * subst post1. exact E.
      * injection Hs as <- Hs. apply (Hfirst pre1 post1 Hs).
        simpl in Hlt. lia.
Qed.

Lemma exec_nowhere (r : Regex.t) (s : jsstring) :
  exec r s = None ->
  forall pre post, s = pre ++ post -> matchHere r post = None.
Proof.
  induction s as [|c s IH]; simpl; intros H pre post Hs.
  - destruct (matchHere r []) eqn:E; [discriminate|].
    destruct pre; [|discriminate]. simpl in Hs. subst post. exact E.
  - destruct (matchHere r (c :: s)) eqn:E; [discriminate|].
    destruct pre as [|c1 pre]; simpl in Hs.
    + subst post. exact E.
    + injection Hs as <- Hs. apply (IH H pre post Hs).
Qed.

(** The matches that the loop goes through are the blocks of the body. *)
Lemma scanned_blocksFrom (fuel : nat) : forall input,
  (length input < fuel)%nat ->
  Grammar.scanned input (Unrolled.blocksFrom fuel input).
Proof.
  induction fuel as [|fuel IH]; intros input Hfuel; [lia|]. simpl.
  destruct (exec promptBlockRegex input) as [m|] eqn:E.
  - pose proof (ExtractorFacts.promptBlock_progress _ _ E) as Hprogress.
    apply exec_leftmost in E as (gap & s0 & -> & Hm & Hfirst).
    apply promptBlock_here in Hm as (content & Hcap & Hblock).
    rewrite Hcap. simpl. apply (Grammar.scanned_block gap s0 content (rest m)).
    + intros pre post -> Hpost. apply promptBlock_none.
      apply (Hfirst pre (post ++ s0)); [rewrite <- app_assoc; reflexivity|].
      rewrite length_app. destruct post; [contradiction|simpl; lia].
    + exact Hblock.
    + apply IH. lia.
  - apply Grammar.scanned_done. intros pre post ->.
    apply promptBlock_none. apply (exec_nowhere _ _ E pre post eq_refl).
Qed.

Lemma scanned_blockContents (body : jsstring) :
  Grammar.scanned body (Unrolled.blockContents body).
Proof. apply scanned_blocksFrom. lia. Qed.


End ScanFacts.

(* ===================================================================== *)
(** * The matcher and the fields of a block *)
(* ===================================================================== *)

Module LabelFacts.
Import Regex Extractor TextFacts BlockFacts ScanFacts.

Local Abbreviation finalK :=
  (fun (s' : jsstring) (cap : option jsstring) =>
     Some {| capture := cap; rest := s' |}).





(** ** Runs *)










(** A blank prefix that the greedy white space of a field did not take in
    full: the continuation fails behind it. *)
Lemma blank_prefix_le (ws ws' s s' : jsstring) (x : N) :
  ws ++ s = ws' ++ x :: s' ->
  Grammar.blank ws -> JsString.isSpace x = false ->
  (length ws <= length ws')%nat.
Proof.
  intros E Hws Hx.
  destruct (Nat.le_gt_cases (length ws) (length ws')) as [Hle|Hgt];
    [exact Hle|exfalso].
  symmetry in E.
  destruct (app_eq_split _ _ _ _ E ltac:(lia)) as (mid & -> & Emid).
  destruct mid as [|y mid]; [rewrite app_nil_r in Hgt; lia|].
  injection Emid as <- _.
  apply Forall_app in Hws as [_ Hws]. inversion Hws; subst. congruence.
Qed.

End LabelFacts.

Module FieldValueFacts.
Import Regex Extractor TextFacts BlockFacts ScanFacts LabelFacts.

Local Abbreviation finalK :=
  (fun (s' : jsstring) (cap : option jsstring) =>
     Some {| capture := cap; rest := s' |}).

Local Abbreviation pathTail := (Seq (star CSpace) (Group (plus CDot))).

Local Abbreviation lineTail :=
  (Seq (star CSpace)
     (Seq (Group (plus CDigit)) (Opt (Seq (Lit (js ":")) (plus CDigit))))).

Local Abbreviation commentTail :=
  (Seq (star CSpace)
     (Seq (Group (lazyStar CAny)) (Alt (Lit (js "How can I resolve")) End))).

(** ** The path *)





(** ** The line *)






(** ** The comment text *)







End FieldValueFacts.

Module GrammarFacts.
Import Regex Extractor TextFacts BlockFacts ScanFacts LabelFacts
  FieldValueFacts.





(** ** What the three [match] calls of the loop find *)










End GrammarFacts.


(** The same with an opening that is not closed: the block runs on to the
    closing of the block behind it, whose fields are then part of the
    comment text of the first. *)
Example unclosed_opening_takes_the_next_block :
  let body := js "<details><summary>Prompt To Fix With AI</summary>
```markdown
Path: a.ts
Comment: first
<details><summary>Prompt To Fix With AI</summary>
```markdown
Path: b.ts
Comment: second
```
</details>" in
  exists content,
    Grammar.scanned body [content]
    /\ map ReviewComment.path
         (Extractor.parseGreptileComments 100 (js "greptile-apps[bot]")
            (js "https://example.test/issuecomment")
            (js "2024-01-15T10:30:00Z") body)
       = [js "a.ts"].
Proof.
  intros body. eexists. split; [|vm_compute; reflexivity].
  pose proof (ScanFacts.scanned_blockContents body) as H.
  vm_compute Unrolled.blockContents in H. exact H.
Qed.



(* ===================================================================== *)
(** * Further properties of the extractor *)
(* ===================================================================== *)

Module ExtractedFacts.

(** Every Comment of the extractor is built from the fields of a block. *)
Lemma parsed_from_fields commentId user url createdAt body c :
  In c (Extractor.parseGreptileComments commentId user url createdAt body) ->
  exists ordinal block path line text,
    Unrolled.blockFields block = Some (path, line, text)
    /\ c = Unrolled.commentOf commentId user url createdAt ordinal
             (path, line, text).
Proof.
  rewrite ExtractorFacts.parseGreptileComments_imap, <- list_elem_of_In.
  intros H. apply elem_of_lookup_imap in H as (i & [[p l] t] & -> & Hi).
  apply list_elem_of_lookup_2, list_elem_of_omap in Hi as (block & _ & Hb).
  exists i, block, p, l, t. auto.
Qed.

(** The [user] of the loop over the issue comments, when the test of the
    loop passes. *)
Lemma contribution_user (comment : IssueComment.t) (c : ReviewComment.t) :
  In c (Spec.contribution comment) ->
  In c (Extractor.parseGreptileComments (IssueComment.id comment)
          (js "greptile-apps[bot]") (IssueComment.html_url comment)
          (IssueComment.created_at comment)
          (default [] (IssueComment.body comment))).
Proof.
  unfold Spec.contribution, fetchGreptileCommentsFromIssueComments. simpl.
  destruct (JsString.eqb _ _) eqn:Euser; simpl; [|contradiction].
  unfold JsString.eqb in Euser. apply bool_decide_eq_true in Euser.
  rewrite Euser.
  destruct (match IssueComment.body comment with
            | Some b => _ | None => false end); [|contradiction].
  simpl. intros H. exact H.
Qed.

Lemma fetched_from_bot (issueComments : list IssueComment.t) c :
  In c (fetchGreptileCommentsFromIssueComments issueComments) ->
  ReviewComment.user c = js "greptile-apps[bot]"
  /\ ReviewComment.isResolved c = false.
Proof.
  rewrite FetchFacts.fetch_flat_map. intros Hc.
  apply in_flat_map in Hc as (comment & _ & Hc).
  apply contribution_user, parsed_from_fields
    in Hc as (i & block & p & l & t & _ & ->).
  simpl. auto.
Qed.

End ExtractedFacts.

(** X1. Within one source comment the synthesized ids count up from the id
    of the source by one per accepted block, so they are pairwise distinct;
    every Comment carries the author, the permalink and the time of its
    source. *)
Theorem parseGreptileComments_ids_count_up
    (commentId : Z) (user url createdAt body : jsstring) :
  let comments :=
    Extractor.parseGreptileComments commentId user url createdAt body in
  map ReviewComment.id comments
  = map (fun i => commentId + Z.of_nat i) (seq 0 (length comments))
  /\ NoDup (map ReviewComment.id comments)
  /\ Forall (fun c => ReviewComment.user c = user
                      /\ ReviewComment.url c = url
                      /\ ReviewComment.createdAt c = createdAt)
       comments.
Proof.
  intros comments. split; [|split].
  - apply IdFacts.parseGreptileComments_ids.
  - apply IdFacts.parseGreptileComments_NoDup.
  - apply Forall_forall. intros c Hc. rewrite list_elem_of_In in Hc.
    apply ExtractedFacts.parsed_from_fields in Hc
      as (i & block & p & l & t & _ & ->).
    simpl. auto.
Qed.

(** X2. The path and the body of every extracted Comment have no white
    space at either end, the path holds no line terminator, and a line,
    when there is one, is not negative. *)
Theorem parseGreptileComments_fields_clean
    (commentId : Z) (user url createdAt body : jsstring) :
  Forall
    (fun c =>
       Props.trimmed (ReviewComment.path c)
       /\ Props.singleLine (ReviewComment.path c)
       /\ Props.trimmed (ReviewComment.body c)
       /\ forall n, ReviewComment.line c = Some n -> 0 <= n)
    (Extractor.parseGreptileComments commentId user url createdAt body).
Proof.
  apply Forall_forall. intros c Hc. rewrite list_elem_of_In in Hc.
  apply ExtractedFacts.parsed_from_fields in Hc
    as (i & block & p & l & t & Hfields & ->).
  apply FieldFacts.blockFields_shape in Hfields
    as (Hp & Hline & Ht & _ & Hn).
  simpl. auto.
Qed.

(** X3. The body of an extracted Comment never holds the phrase
    [How can I resolve], in whatever case: the comment text ends before its
    first occurrence. *)
Theorem parseGreptileComments_drops_prompt
    (commentId : Z) (user url createdAt body : jsstring) :
  Forall
    (fun c =>
       ~ Spec.containsIgnoringCase (ReviewComment.body c)
           (js "How can I resolve"))
    (Extractor.parseGreptileComments commentId user url createdAt body).
Proof.
  apply Forall_forall. intros c Hc. rewrite list_elem_of_In in Hc.
  apply ExtractedFacts.parsed_from_fields in Hc
    as (i & block & p & l & t & Hfields & ->).
  apply FieldFacts.blockFields_shape in Hfields as (_ & _ & _ & H & _).
  exact H.
Qed.

(** X4. Every Comment that comes from the issue comments has the login of
    the bot as its author and is not resolved. *)
Theorem fetched_comments_by_the_bot (issueComments : list IssueComment.t) :
  Forall
    (fun c =>
       ReviewComment.user c = js "greptile-apps[bot]"
       /\ ReviewComment.isResolved c = false)
    (fetchGreptileCommentsFromIssueComments issueComments).
Proof.
  apply Forall_forall. intros c Hc. rewrite list_elem_of_In in Hc.
  apply ExtractedFacts.fetched_from_bot with issueComments. exact Hc.
Qed.

(* ===================================================================== *)
(** * Further properties of the sources *)
(* ===================================================================== *)

Module SourceFacts.

Lemma orElse_nonempty (a b : jsstring) : b <> [] -> JsString.orElse a b <> [].
Proof. destruct a; simpl; [auto|discriminate]. Qed.

Lemma numberOr_null (a : option Z) :
  numberOr a None = if Renderer.truthy a then a else None.
Proof.
  destruct a as [n|]; simpl; [|reflexivity].
  destruct (n =? 0); reflexivity.
Qed.

Lemma numberOr_truthy (a b : option Z) :
  numberOr a b = if Renderer.truthy a then a else b.
Proof.
  destruct a as [n|]; simpl; [|reflexivity].
  destruct (n =? 0); reflexivity.
Qed.

Lemma truthy_not_zero (a : option Z) : Renderer.truthy a = true -> a <> Some 0.
Proof. intros H E. subst a. discriminate H. Qed.

Lemma trim_notBlank (s : jsstring) :
  JsString.trim s <> [] <-> Props.notBlank s.
Proof.
  rewrite TrimFacts.trim_nil. unfold Props.notBlank. split.
  - induction s as [|c s IH]; intros H; [destruct H; constructor|].
    destruct (JsString.isSpace c) eqn:Ec.
    + apply Exists_cons_tl, IH. intros Hs. apply H. constructor; assumption.
    + apply Exists_cons_hd. exact Ec.
  - intros Hex Hall. induction Hex as [c s Hc|c s _ IH];
      inversion Hall; subst; [congruence|auto].
Qed.

(** The test of the filter of [fetchReviews]. *)
Lemma kept_iff (review : RawReview.t) :
  match RawReview.body review with
  | Some body =>
      negb (JsString.eqb body []) && negb (JsString.eqb (JsString.trim body) [])
  | None => false
  end = true
  <-> exists body, RawReview.body review = Some body /\ Props.notBlank body.
Proof.
  destruct (RawReview.body review) as [body|].
  - rewrite andb_true_iff, !negb_true_iff. unfold JsString.eqb.
    rewrite !bool_decide_eq_false, trim_notBlank. split.
    + intros [_ H]. eauto.
    + intros (b & [= <-] & H). split; [|assumption].
      intros ->. inversion H.
  - split; [discriminate|]. intros (b & E & _). discriminate.
Qed.

End SourceFacts.

(** X5. The normalizer of inline comments keeps the records in their
    order, one Comment per record with its id, path, body, permalink and
    time, and never sets [isResolved].  The line is the [line] of the
    record when that is a non-zero number, else its [original_line] when
    that is one, else absent, so it is never 0; the author is never
    empty. *)
Theorem fetchReviewComments_normalizes (reviewComments : list InlineComment.t) :
  Forall2
    (fun raw c =>
       ReviewComment.id c = InlineComment.id raw
       /\ ReviewComment.path c = InlineComment.path raw
       /\ ReviewComment.body c = InlineComment.body raw
       /\ ReviewComment.url c = InlineComment.html_url raw
       /\ ReviewComment.createdAt c = InlineComment.created_at raw
       /\ ReviewComment.isResolved c = false
       /\ ReviewComment.user c <> []
       /\ ReviewComment.line c <> Some 0
       /\ ReviewComment.line c
          = (if Renderer.truthy (InlineComment.line raw)
             then InlineComment.line raw
             else if Renderer.truthy (InlineComment.original_line raw)
                  then InlineComment.original_line raw
                  else None))
    reviewComments (fetchReviewComments reviewComments).
Proof.
  unfold fetchReviewComments.
  induction reviewComments as [|raw l IH]; simpl; constructor; [|exact IH].
  simpl. repeat split.
  - apply SourceFacts.orElse_nonempty. discriminate.
  - rewrite SourceFacts.numberOr_null, SourceFacts.numberOr_truthy.
    destruct (Renderer.truthy (InlineComment.line raw)) eqn:E1.
    + rewrite E1. apply SourceFacts.truthy_not_zero. exact E1.
    + destruct (Renderer.truthy (InlineComment.original_line raw)) eqn:E2;
        [apply SourceFacts.truthy_not_zero; exact E2|discriminate].
  - rewrite SourceFacts.numberOr_null, SourceFacts.numberOr_truthy.
    destruct (Renderer.truthy (InlineComment.line raw)) eqn:E1.
    + rewrite E1. reflexivity.
    + destruct (Renderer.truthy (InlineComment.original_line raw)) eqn:E2;
        reflexivity.
Qed.

(** X6. [fetchReviews] keeps, in their order, exactly the reviews whose
    body holds something other than white space: every review it returns
    has such a body, the body of a record, and a non-empty author, and
    every record with such a body is returned with its id, body and
    state. *)
Theorem fetchReviews_keeps_written_reviews (reviews : list RawReview.t) :
  Forall
    (fun r => Props.notBlank (Review.body r) /\ Review.user r <> [])
    (fetchReviews reviews)
  /\ sublist (map Review.id (fetchReviews reviews))
       (map RawReview.id reviews)
  /\ (forall raw body,
        In raw reviews ->
        RawReview.body raw = Some body ->
        Props.notBlank body ->
        exists r,
          In r (fetchReviews reviews)
          /\ Review.id r = RawReview.id raw
          /\ Review.body r = body
          /\ Review.state r = RawReview.state raw).
Proof.
  unfold fetchReviews. split; [|split].
  - apply Forall_forall. intros r Hr. rewrite list_elem_of_In in Hr.
    apply in_map_iff in Hr as (raw & <- & Hraw).
    apply List.filter_In in Hraw as [_ Hkept].
    apply SourceFacts.kept_iff in Hkept as (body & Ebody & Hbody).
    simpl. rewrite Ebody. simpl. split.
    + destruct body; [inversion Hbody|exact Hbody].
    + apply SourceFacts.orElse_nonempty. discriminate.
  - rewrite map_map. simpl.
    induction reviews as [|raw l IH]; simpl; [constructor|].
    destruct (match RawReview.body raw with
              | Some b => _ | None => false end); simpl.
    + apply sublist_skip. exact IH.
    + apply sublist_cons. exact IH.
  - intros raw body Hraw Ebody Hbody.
    eexists. split.
    + apply in_map. apply List.filter_In. split; [exact Hraw|].
      apply SourceFacts.kept_iff. eauto.
    + simpl. rewrite Ebody. simpl.
      destruct body; [inversion Hbody|]. auto.
Qed.

(* ===================================================================== *)
(** * Further properties of the collected comments *)
(* ===================================================================== *)

Module CollectFacts.

(** The comments of [collectComments] before the noise filter. *)
Lemma collected_In (input : RunInput.t) (c : ReviewComment.t) :
  In c (fst (collectComments input)) <->
  (In c (fst (fetchResolvedStatus (RunInput.graphql input)
                (fetchReviewComments (RunInput.reviewComments input))))
   \/ In c (fetchGreptileCommentsFromIssueComments
              (RunInput.issueComments input)))
  /\ isIgnoredBotComment (ReviewComment.body c) = false.
Proof.
  unfold collectComments.
  destruct (fetchResolvedStatus _ _) as [comments log]. simpl.
  rewrite List.filter_In, in_app_iff, negb_true_iff. reflexivity.
Qed.

Lemma normalized_open (reviewComments : list InlineComment.t) c :
  In c (fetchReviewComments reviewComments) ->
  ReviewComment.isResolved c = false
  /\ exists raw, In raw reviewComments
                 /\ InlineComment.id raw = ReviewComment.id c
                 /\ InlineComment.path raw = ReviewComment.path c.
Proof.
  unfold fetchReviewComments. intros H.
  apply in_map_iff in H as (raw & <- & Hraw). simpl. eauto.
Qed.

Lemma isIgnored_noise (body : jsstring) :
  isIgnoredBotComment body = false <-> ~ Props.noise body.
Proof.
  unfold isIgnoredBotComment, Props.noise.
  rewrite <- (StringFacts.includes_toLowerCase (js "rate limit"))
    by apply StringFacts.plain_rate_limit.
  rewrite <- (StringFacts.includes_toLowerCase (js "coderabbit"))
    by apply StringFacts.plain_coderabbit.
  destruct (JsString.includes _ (js "rate limit")),
           (JsString.includes _ (js "coderabbit")); simpl;
    intuition congruence.
Qed.

End CollectFacts.

(** X7. In the comment set of a run only inline comments are ever resolved:
    a resolved Comment has the id and the path of an inline comment of the
    input, the query has answered, and that id is the anchor of a resolved
    thread.  The Comments extracted from issue comments stay open. *)
Theorem only_inline_anchors_are_resolved
    (input : RunInput.t) (c : ReviewComment.t) :
  In c (fst (collectComments input)) ->
  ReviewComment.isResolved c = true ->
  (exists raw,
      In raw (RunInput.reviewComments input)
      /\ InlineComment.id raw = ReviewComment.id c
      /\ InlineComment.path raw = ReviewComment.path c)
  /\ exists threads,
       RunInput.graphql input = GraphqlData threads
       /\ Spec.isResolvedAnchor threads (ReviewComment.id c).
Proof.
  intros Hc Hres. apply CollectFacts.collected_In in Hc as [[Hc|Hc] _].
  - destruct (RunInput.graphql input) as [threads|error]; simpl in Hc.
    + apply in_map_iff in Hc as (c0 & <- & Hc0).
      apply CollectFacts.normalized_open in Hc0 as (_ & raw & Hraw & Hid & Hp).
      simpl in *. split; [eauto|].
      exists threads. split; [reflexivity|].
      apply bool_decide_eq_true in Hres.
      apply ReconcilerFacts.resolvedThreadIds_anchor. exact Hres.
    + apply CollectFacts.normalized_open in Hc as (Hopen & _). congruence.
  - apply ExtractedFacts.fetched_from_bot in Hc as [_ Hopen]. congruence.
Qed.

(** X7 on the run whose inline comment 3 is the anchor of a resolved
    thread. *)
Lemma only_inline_anchors_are_resolved_witness :
  let c := ReviewComment.mk 3 (js "src/b.go") (Some 1) (js "Done?")
             (js "carol") (js "https://example.test/comment")
             (js "2024-01-15T10:30:00Z") true in
  (exists raw,
      In raw (RunInput.reviewComments RunExamples.allResolved)
      /\ InlineComment.id raw = ReviewComment.id c
      /\ InlineComment.path raw = ReviewComment.path c)
  /\ exists threads,
       RunInput.graphql RunExamples.allResolved = GraphqlData threads
       /\ Spec.isResolvedAnchor threads (ReviewComment.id c).
Proof.
  apply (only_inline_anchors_are_resolved RunExamples.allResolved).
  - vm_compute. left. reflexivity.
  - reflexivity.
Defined.

(** X8. When the query for the resolved threads fails, every comment of
    the snapshot is open and none is resolved, and the log of the run holds
    the warning and, for it, no failure: the run goes on to render and to
    publish. *)
Theorem failed_query_leaves_all_open
    (blobSha : jsstring -> jsstring) (input : RunInput.t)
    (files : gmap jsstring Publisher.entry) (prNumber : Z) (error : jsstring) :
  RunInput.graphql input = GraphqlFailure error ->
  numberOr (RunInput.prNumber input) None = Some prNumber ->
  let feedback :=
    buildFeedback input prNumber (fst (collectComments input)) in
  AggregatedFeedback.resolvedComments feedback = []
  /\ AggregatedFeedback.openComments feedback = fst (collectComments input)
  /\ Spec.noFailure (snd (collectComments input))
  /\ In (Warning (js "Could not fetch resolved status via GraphQL: " ++ error))
       (RunResult.log (run blobSha input files)).
Proof.
  intros Hfail Hpr feedback.
  assert (Hopen : Forall (fun c => ReviewComment.isResolved c = false)
                    (fst (collectComments input))).
  { apply Forall_forall. intros c Hc. rewrite list_elem_of_In in Hc.
    apply CollectFacts.collected_In in Hc as [[Hc|Hc] _].
    - rewrite Hfail in Hc. simpl in Hc.
      apply CollectFacts.normalized_open in Hc as [H _]. exact H.
    - apply ExtractedFacts.fetched_from_bot in Hc as [_ H]. exact H. }
  split; [|split; [|split]].
  - unfold feedback. simpl.
    induction Hopen as [|c l Hc _ IH]; simpl; [reflexivity|].
    rewrite Hc. exact IH.
  - unfold feedback. simpl.
    induction Hopen as [|c l Hc _ IH]; simpl; [reflexivity|].
    rewrite Hc. simpl. f_equal. exact IH.
  - apply PublisherFacts.collectComments_log.
  - assert (Hlog : In (Warning (js "Could not fetch resolved status via GraphQL: "
                                ++ error))
                     (snd (collectComments input))).
    { unfold collectComments. rewrite Hfail. simpl.
      destruct (0 <? _)%nat; simpl; auto. }
    unfold run. rewrite Hpr.
    destruct (collectComments input) as [comments log]. simpl in Hlog.
    destruct (bind _ _) as [[files' log']|message]; simpl;
      right; apply in_or_app; left; exact Hlog.
Qed.

(** X8 on a run with one inline comment whose query fails. *)
Lemma failed_query_leaves_all_open_witness :
  let input :=
    RunInput.mk RunExamples.feedbackPath true (Some 123)
      (js "Add user authentication") (js "https://example.test/pull/123")
      (RunInput.reviewComments RunExamples.allResolved)
      (GraphqlFailure (js "HttpError: Bad credentials")) [] []
      (js "2024-01-15T10:30:00Z") in
  AggregatedFeedback.resolvedComments
    (buildFeedback input 123 (fst (collectComments input))) = []
  /\ length (AggregatedFeedback.openComments
               (buildFeedback input 123 (fst (collectComments input))))
     = 1%nat.
Proof.
  intros input.
  destruct (failed_query_leaves_all_open (fun content => content) input
              RunExamples.withFeedbackFile 123
              (js "HttpError: Bad credentials") eq_refl eq_refl)
    as (Hres & Hopen & _).
  split; [exact Hres|]. rewrite Hopen. reflexivity.
Defined.

(** X9. The snapshot of a run holds no comment and no review whose body
    contains both [rate limit] and [coderabbit], the case of letters
    ignored. *)
Theorem snapshot_without_noise (input : RunInput.t) (prNumber : Z) :
  let feedback :=
    buildFeedback input prNumber (fst (collectComments input)) in
  Forall (fun c => ~ Props.noise (ReviewComment.body c))
    (AggregatedFeedback.openComments feedback
     ++ AggregatedFeedback.resolvedComments feedback)
  /\ Forall (fun r => ~ Props.noise (Review.body r))
       (AggregatedFeedback.reviews feedback).
Proof.
  intros feedback. split.
  - apply Forall_forall. intros c Hc. rewrite list_elem_of_In in Hc.
    apply CollectFacts.isIgnored_noise.
    assert (Hin : In c (fst (collectComments input))).
    { unfold feedback in Hc. simpl in Hc.
      apply in_app_iff in Hc as [Hc|Hc];
        apply List.filter_In in Hc as [Hc _]; exact Hc. }
    apply CollectFacts.collected_In in Hin as [_ H]. exact H.
  - apply Forall_forall. intros r Hr. rewrite list_elem_of_In in Hr.
    apply CollectFacts.isIgnored_noise.
    unfold feedback in Hr. simpl in Hr.
    apply List.filter_In in Hr as [_ H].
    apply negb_true_iff in H. exact H.
Qed.

(* ===================================================================== *)
(** * [groupByFile]: when it throws, and what the groups hold together *)
(* ===================================================================== *)

Module GroupCoverFacts.
Import ObjectFacts.

Lemma isInherited_In (key : jsstring) :
  JsObject.isInherited key = true <-> In key JsObject.objectPrototypeNames.
Proof.
  unfold JsObject.isInherited. rewrite existsb_exists. split.
  - intros (k & Hk & E). destruct (eqb_reflect key k) as [->|]; [exact Hk|].
    discriminate.
  - intros H. exists key. split; [exact H|apply eqb_refl].
Qed.

(** The comments before the first one whose key is inherited. *)
Lemma first_inherited (comments : list ReviewComment.t) :
  Exists (fun c => JsObject.isInherited (groupKey c) = true) comments ->
  exists pre c post,
    comments = pre ++ c :: post
    /\ Forall (fun c => JsObject.isInherited (groupKey c) = false) pre
    /\ JsObject.isInherited (groupKey c) = true.
Proof.
  induction comments as [|c comments IH]; intros H.
  - inversion H.
  - destruct (JsObject.isInherited (groupKey c)) eqn:E.
    + exists [], c, comments. repeat split; [constructor|exact E].
    + inversion H as [? ? Hc|? ? Hrest]; subst; [congruence|].
      destruct (IH Hrest) as (pre & c' & post & -> & Hpre & Hc').
      exists (c :: pre), c', post. repeat split; [|exact Hc'].
      constructor; assumption.
Qed.

Lemma fold_Throw (message : jsstring) (comments : list ReviewComment.t) :
  fold_left (fun acc comment => let* groups := acc in addToGroup groups comment)
    comments (Throw message)
  = Throw message.
Proof. induction comments as [|c comments IH]; simpl; [reflexivity|exact IH]. Qed.

Lemma groupByFile_Throw (comments : list ReviewComment.t) :
  Exists (fun c => JsObject.isInherited (groupKey c) = true) comments ->
  groupByFile comments = Throw (js "groups[path].push is not a function").
Proof.
  intros H. destruct (first_inherited comments H)
    as (pre & c & post & -> & Hpre & Hc).
  unfold groupByFile. rewrite fold_left_app.
  rewrite GroupFacts.first_loop by assumption. simpl.
  assert (Hthrow : addToGroup (Spec.grouped pre) c
                   = Throw (js "groups[path].push is not a function")).
  { unfold addToGroup, JsObject.get.
    assert (Hout : ~ In (groupKey c)
                     (Spec.firstSeen (map groupKey pre))).
    { rewrite firstSeen_In. intros Hin.
      apply in_map_iff in Hin as (c' & Hkey & Hc').
      rewrite Forall_forall in Hpre. rewrite <- list_elem_of_In in Hc'.
      specialize (Hpre c' Hc'). simpl in Hpre. congruence. }
    unfold Spec.grouped. rewrite getOwn_not_In by assumption.
    rewrite Hc. reflexivity. }
  rewrite Hthrow, fold_Throw. reflexivity.
Qed.

Lemma flat_map_Permutation {A B} (f g : A -> list B) (l : list A) :
  (forall a, In a l -> Permutation (f a) (g a)) ->
  Permutation (flat_map f l) (flat_map g l).
Proof.
  induction l as [|a l IH]; intros H; simpl; [constructor|].
  apply Permutation_app.
  - apply H. left. reflexivity.
  - apply IH. intros b Hb. apply H. right. exact Hb.
Qed.

(** Distributing a list over distinct keys that cover it loses and
    repeats nothing. *)
Lemma flat_map_cons_member {A} (key : A -> jsstring) (c : A)
    (f : jsstring -> list A) (keys : list jsstring) :
  NoDup keys -> In (key c) keys ->
  Permutation
    (flat_map (fun k => if JsString.eqb (key c) k then c :: f k else f k) keys)
    (c :: flat_map f keys).
Proof.
  induction keys as [|k keys IH]; intros Hnd Hin; [destruct Hin|].
  apply NoDup_cons in Hnd as [Hk Hnd]. rewrite list_elem_of_In in Hk.
  simpl. destruct (eqb_reflect (key c) k) as [E|Hne].
  - simpl. apply perm_skip. apply Permutation_app_head.
    apply flat_map_Permutation.
    intros k' Hk'. rewrite eqb_neq; [reflexivity|]. congruence.
  - destruct Hin as [E|Hin]; [congruence|].
    rewrite (IH Hnd Hin). symmetry. apply Permutation_middle.
Qed.

Lemma members_cover (comments : list ReviewComment.t) :
  forall keys, NoDup keys -> incl (map groupKey comments) keys ->
  Permutation (flat_map (fun k => Spec.groupMembers k comments) keys) comments.
Proof.
  induction comments as [|c comments IH]; intros keys Hnd Hincl.
  - simpl. unfold Spec.groupMembers. simpl.
    induction keys as [|k keys IHk]; simpl; [constructor|].
    apply IHk.
    + apply NoDup_cons in Hnd. tauto.
    + intros x [].
  - unfold Spec.groupMembers. simpl.
    etransitivity.
    + apply (flat_map_cons_member groupKey c
               (fun k => Spec.groupMembers k comments) keys Hnd).
      apply Hincl. left. reflexivity.
    + apply perm_skip. apply IH; [exact Hnd|].
      intros k Hk. apply Hincl. right. exact Hk.
Qed.

Lemma flat_map_Permutation_list {A B} (f : A -> list B) (l l' : list A) :
  Permutation l l' -> Permutation (flat_map f l) (flat_map f l').
Proof.
  induction 1; simpl.
  - constructor.
  - apply Permutation_app_head. assumption.
  - rewrite !app_assoc. apply Permutation_app_tail, Permutation_app_comm.
  - etransitivity; eassumption.
Qed.

Lemma groupByFile_covers (comments : list ReviewComment.t) :
  Forall (fun c => JsObject.isInherited (groupKey c) = false) comments ->
  exists byFile,
    groupByFile comments = Normal byFile
    /\ Permutation (flat_map snd (JsObject.entries byFile)) comments.
Proof.
  intros H. eexists. split; [apply GroupByFileFacts.groupByFile_sorted, H|].
  etransitivity.
  { apply flat_map_Permutation_list, SortLoopFacts.entries_Permutation. }
  rewrite flat_map_concat_map, map_map, <- flat_map_concat_map. simpl.
  etransitivity.
  { apply (flat_map_Permutation _ (fun k => Spec.groupMembers k comments)).
    intros k _. apply (SortFacts.sort_Permutation lineOrZero). }
  apply members_cover.
  - apply firstSeen_NoDup.
  - intros k Hk. apply firstSeen_In. exact Hk.
Qed.

(** What each group holds: comments of the list with the key of the
    group, and at least one. *)
Lemma groupByFile_entries (comments : list ReviewComment.t)
    (byFile : JsObject.t (list ReviewComment.t)) :
  Forall (fun c => JsObject.isInherited (groupKey c) = false) comments ->
  groupByFile comments = Normal byFile ->
  Forall (fun entry =>
            Forall (fun c => In c comments /\ groupKey c = fst entry)
              (snd entry)
            /\ snd entry <> [])
    (JsObject.entries byFile).
Proof.
  intros Hall E.
  rewrite (GroupByFileFacts.groupByFile_sorted comments Hall) in E.
  injection E as <-.
  apply Forall_forall. intros entry Hentry.
  rewrite list_elem_of_In in Hentry.
  apply (Permutation_in _ (SortLoopFacts.entries_Permutation _)) in Hentry.
  apply in_map_iff in Hentry as (key & <- & Hkey). simpl.
  assert (Hsort : Permutation
                    (JsArray.sort compareByLine
                       (Spec.groupMembers key comments))
                    (Spec.groupMembers key comments))
    by apply (SortFacts.sort_Permutation lineOrZero).
  split.
  - apply Forall_forall. intros c Hc. rewrite list_elem_of_In in Hc.
    apply (Permutation_in _ Hsort) in Hc.
    apply List.filter_In in Hc as [Hin Hc]. split; [exact Hin|].
    destruct (eqb_reflect (groupKey c) key); [assumption|].
    discriminate.
  - intros Hnil. rewrite Hnil in Hsort.
    apply Permutation_nil in Hsort.
    rewrite firstSeen_In in Hkey.
    apply in_map_iff in Hkey as (c & Hc & Hin).
    assert (Hmem : In c (Spec.groupMembers key comments)).
    { apply List.filter_In. split; [exact Hin|].
      rewrite Hc. apply eqb_refl. }
    rewrite Hsort in Hmem. destruct Hmem.
Qed.

Lemma inherited_dec (comments : list ReviewComment.t) :
  Forall (fun c => JsObject.isInherited (groupKey c) = false) comments
  \/ Exists (fun c => JsObject.isInherited (groupKey c) = true) comments.
Proof.
  induction comments as [|c comments [IH|IH]].
  - left. constructor.
  - destruct (JsObject.isInherited (groupKey c)) eqn:E.
    + right. apply Exists_cons_hd. exact E.
    + left. constructor; assumption.
  - right. apply Exists_cons_tl. exact IH.
Qed.

End GroupCoverFacts.

(** X10. [groupByFile] fails exactly when the group key of some comment,
    its path or [general] for an empty path, is the name of a property of
    [Object.prototype] ([constructor], [toString], [valueOf], ...): it then
    throws [groups[path].push is not a function], whatever the other
    comments are; for every other list it returns the groups. *)
Theorem groupByFile_throws_iff (comments : list ReviewComment.t) :
  (groupByFile comments = Throw (js "groups[path].push is not a function")
   <-> exists c, In c comments
                 /\ In (groupKey c) JsObject.objectPrototypeNames)
  /\ ((exists byFile, groupByFile comments = Normal byFile)
      <-> forall c, In c comments
                    -> ~ In (groupKey c) JsObject.objectPrototypeNames).
Proof.
  destruct (GroupCoverFacts.inherited_dec comments) as [Hall|Hex].
  - destruct (GroupCoverFacts.groupByFile_covers comments Hall)
      as (byFile & E & _).
    assert (Hnone : forall c, In c comments
                      -> ~ In (groupKey c) JsObject.objectPrototypeNames).
    { intros c Hc Hin. apply GroupCoverFacts.isInherited_In in Hin.
      rewrite Forall_forall in Hall. rewrite <- list_elem_of_In in Hc.
      specialize (Hall c Hc). simpl in Hall. congruence. }
    split; split.
    + rewrite E. discriminate.
    + intros (c & Hc & Hin). exfalso. exact (Hnone c Hc Hin).
    + intros _. exact Hnone.
    + intros _. exists byFile. exact E.
  - pose proof (GroupCoverFacts.groupByFile_Throw comments Hex) as E.
    assert (Hsome : exists c, In c comments
                      /\ In (groupKey c) JsObject.objectPrototypeNames).
    { apply Exists_exists in Hex as (c & Hc & Hin).
      rewrite list_elem_of_In in Hc.
      exists c. split; [exact Hc|]. apply GroupCoverFacts.isInherited_In.
      exact Hin. }
    split; split.
    + intros _. exact Hsome.
    + intros _. exact E.
    + intros (byFile & E'). rewrite E in E'. discriminate.
    + intros Hnone. destruct Hsome as (c & Hc & Hin).
      exfalso. exact (Hnone c Hc Hin).
Qed.

(** X11. The groups that [groupByFile] returns hold every comment of the
    list exactly once: the groups, one after the other in the order of
    iteration, are a rearrangement of the list, so that no comment is lost
    and none is listed under two files. *)
Theorem groupByFile_loses_nothing (comments : list ReviewComment.t)
    (byFile : JsObject.t (list ReviewComment.t)) :
  groupByFile comments = Normal byFile ->
  Permutation (flat_map snd (JsObject.entries byFile)) comments
  /\ Forall (fun entry =>
               Forall (fun c => groupKey c = fst entry) (snd entry)
               /\ snd entry <> [])
       (JsObject.entries byFile).
Proof.
  intros E.
  destruct (GroupCoverFacts.inherited_dec comments) as [Hall|Hex].
  - destruct (GroupCoverFacts.groupByFile_covers comments Hall)
      as (byFile' & E' & Hperm).
    assert (byFile' = byFile) by congruence. subst byFile'.
    split; [exact Hperm|].
    eapply Forall_impl;
      [apply (GroupCoverFacts.groupByFile_entries comments byFile Hall E)|].
    intros entry [Hmembers Hne]. split; [|exact Hne].
    eapply Forall_impl; [exact Hmembers|]. intros c [_ Hkey]. exact Hkey.
  - rewrite (GroupCoverFacts.groupByFile_Throw comments Hex) in E.
    discriminate.
Qed.

(** X11 on the scenario with two comments on [b.go] and one on [a.go]. *)
Lemma groupByFile_loses_nothing_witness :
  exists byFile,
    groupByFile GroupExamples.scenario = Normal byFile
    /\ Permutation (flat_map snd (JsObject.entries byFile))
         GroupExamples.scenario.
Proof.
  eexists. split; [vm_compute; reflexivity|].
  eapply proj1. apply (groupByFile_loses_nothing GroupExamples.scenario).
  vm_compute. reflexivity.
Defined.

(* ===================================================================== *)
(** * The renderer leaves the snapshot as it is *)
(* ===================================================================== *)

Module HeapFacts.
Import ObjectFacts.

Abbreviation valued f :=
  (map (fun entry : jsstring * Heap.ref => (fst entry, f (snd entry)))).

Lemma getOwn_valued {V} (f : Heap.ref -> V) (groups : JsObject.t Heap.ref)
    (path : jsstring) :
  JsObject.getOwn (valued f groups) path
  = option_map f (JsObject.getOwn groups path).
Proof.
  induction groups as [|[k r] groups IH]; simpl; [reflexivity|].
  destruct (JsString.eqb k path); [reflexivity|exact IH].
Qed.

Lemma get_valued {V} (f : Heap.ref -> V) (groups : JsObject.t Heap.ref)
    (path : jsstring) :
  JsObject.get (valued f groups) path
  = match JsObject.get groups path with
    | JsObject.Own r => JsObject.Own (f r)
    | JsObject.Inherited => JsObject.Inherited
    | JsObject.Undefined => JsObject.Undefined
    end.
Proof.
  unfold JsObject.get. rewrite getOwn_valued.
  destruct (JsObject.getOwn groups path); simpl; [reflexivity|].
  destruct (JsObject.isInherited path); reflexivity.
Qed.

Lemma set_valued {V} (f : Heap.ref -> V) (groups : JsObject.t Heap.ref)
    (path : jsstring) (r : Heap.ref) :
  JsObject.set (valued f groups) path (f r)
  = valued f (JsObject.set groups path r).
Proof.
  induction groups as [|[k r0] groups IH]; simpl; [reflexivity|].
  destruct (JsString.eqb k path); simpl; [reflexivity|].
  rewrite IH. reflexivity.
Qed.

Lemma getOwn_ref {V} (groups : JsObject.t V) (path : jsstring) (r : V) :
  JsObject.getOwn groups path = Some r -> In r (map snd groups).
Proof.
  induction groups as [|[k r0] groups IH]; simpl; [discriminate|].
  destruct (JsString.eqb k path).
  - intros [= ->]. auto.
  - intros H. right. exact (IH H).
Qed.

(** Writing to the array of one group changes the value of that group
    only. *)
Lemma set_at_ref {V} (f f' : Heap.ref -> V) (groups : JsObject.t Heap.ref)
    (path : jsstring) (r : Heap.ref) :
  JsObject.getOwn groups path = Some r ->
  NoDup (map snd groups) ->
  (forall r', r' <> r -> f' r' = f r') ->
  JsObject.set (valued f groups) path (f' r) = valued f' groups.
Proof.
  intros Hget Hnd Hother.
  induction groups as [|[k r0] groups IH]; simpl in *; [discriminate|].
  apply NoDup_cons in Hnd as [Hr0 Hnd]. rewrite list_elem_of_In in Hr0.
  destruct (JsString.eqb k path).
  - injection Hget as ->. simpl. f_equal.
    apply map_ext_in. intros [k' r'] Hin. simpl. f_equal. symmetry.
    apply Hother. intros ->. apply Hr0.
    apply (in_map snd) in Hin. exact Hin.
  - simpl. rewrite (IH Hget Hnd). f_equal. f_equal. symmetry.
    apply Hother. intros ->. apply Hr0. apply (getOwn_ref _ _ _ Hget).
Qed.

Lemma getOwn_set {V} (groups : JsObject.t V) (path : jsstring) (v : V) :
  JsObject.getOwn (JsObject.set groups path v) path = Some v.
Proof.
  induction groups as [|[k v0] groups IH]; simpl.
  - rewrite eqb_refl. reflexivity.
  - destruct (JsString.eqb k path) eqn:E; simpl; rewrite E;
      [reflexivity|exact IH].
Qed.

Lemma set_fresh {V} (groups : JsObject.t V) (path : jsstring) (v : V) :
  JsObject.getOwn groups path = None ->
  JsObject.set groups path v = groups ++ [(path, v)].
Proof.
  induction groups as [|[k v0] groups IH]; simpl; [reflexivity|].
  destruct (JsString.eqb k path); [discriminate|].
  intros H. rewrite (IH H). reflexivity.
Qed.

Lemma get_insert_eq (h : Heap.t) (r : Heap.ref) (array : list ReviewComment.t) :
  (r < length h)%nat -> Heap.get (Heap.set h r array) r = array.
Proof.
  intros H. unfold Heap.get, Heap.set, Heap.ref, Heap.t in *.
  rewrite list_lookup_insert_eq by exact H. reflexivity.
Qed.

Lemma get_insert_ne (h : Heap.t) (r r' : Heap.ref)
    (array : list ReviewComment.t) :
  r' <> r -> Heap.get (Heap.set h r array) r' = Heap.get h r'.
Proof.
  intros H. unfold Heap.get, Heap.set, Heap.ref, Heap.t in *.
  rewrite list_lookup_insert_ne by congruence. reflexivity.
Qed.

Lemma length_set (h : Heap.t) (r : Heap.ref) (array : list ReviewComment.t) :
  length (Heap.set h r array) = length h.
Proof. unfold Heap.set, Heap.ref, Heap.t in *. apply length_insert. Qed.

Lemma get_app_l (h h' : Heap.t) (r : Heap.ref) :
  (r < length h)%nat -> Heap.get (h ++ h') r = Heap.get h r.
Proof.
  intros H. unfold Heap.get, Heap.ref, Heap.t in *.
  rewrite lookup_app_l by exact H. reflexivity.
Qed.

Lemma get_middle (h h' : Heap.t) (array : list ReviewComment.t) :
  Heap.get (h ++ array :: h') (length h) = array.
Proof.
  unfold Heap.get, Heap.ref, Heap.t in *.
  rewrite list_lookup_middle by reflexivity. reflexivity.
Qed.

(** Writing to the array of a group keeps the groups represented. *)
Lemma represents_write (h0 h : Heap.t) (groups : JsObject.t Heap.ref)
    (byFile : JsObject.t (list ReviewComment.t)) (path : jsstring)
    (r : Heap.ref) (array : list ReviewComment.t) :
  Stateful.represents h0 h groups byFile ->
  JsObject.getOwn groups path = Some r ->
  Stateful.represents h0 (Heap.set h r array) groups
    (JsObject.set byFile path array).
Proof.
  intros (Hlen & Hframe & Hrefs & Hnd & ->) Hget.
  assert (Hr : (length h0 <= r < length h)%nat).
  { rewrite Forall_forall in Hrefs.
    apply getOwn_ref, in_map_iff in Hget as ([k r'] & <- & Hin).
    rewrite <- list_elem_of_In in Hin. exact (Hrefs _ Hin). }
  unfold Stateful.represents. rewrite length_set.
  split; [exact Hlen|]. split; [|split; [exact Hrefs|split; [exact Hnd|]]].
  - intros r' Hr'. rewrite get_insert_ne by lia. exact (Hframe r' Hr').
  - rewrite <- (get_insert_eq h r array) at 1 by lia.
    apply (set_at_ref (Heap.get h) (Heap.get (Heap.set h r array)));
      [exact Hget|exact Hnd|].
    intros r' Hne. apply get_insert_ne. exact Hne.
Qed.

(** Creating the array of a new group and pushing to it. *)
Lemma represents_create (h0 h : Heap.t) (groups : JsObject.t Heap.ref)
    (byFile : JsObject.t (list ReviewComment.t)) (path : jsstring)
    (comment : ReviewComment.t) :
  Stateful.represents h0 h groups byFile ->
  JsObject.getOwn groups path = None ->
  Stateful.represents h0 (Heap.push (h ++ [ [] ]) (length h) comment)
    (JsObject.set groups path (length h))
    (JsObject.set byFile path [comment]).
Proof.
  intros (Hlen & Hframe & Hrefs & Hnd & ->) Hget.
  set (h2 := Heap.push (h ++ [ [] ]) (length h) comment).
  assert (Hlen2 : length h2 = S (length h)).
  { unfold h2, Heap.push. rewrite length_set, length_app. simpl. lia. }
  assert (Hold : forall r, (r < length h)%nat -> Heap.get h2 r = Heap.get h r).
  { intros r Hr. unfold h2, Heap.push.
    rewrite get_insert_ne by lia. apply get_app_l. exact Hr. }
  assert (Hnew : Heap.get h2 (length h) = [comment]).
  { unfold h2, Heap.push. rewrite get_insert_eq
      by (rewrite length_app; simpl; lia).
    rewrite get_middle. reflexivity. }
  split; [lia|]. split; [|split; [|split]].
  - intros r Hr. rewrite Hold by lia. exact (Hframe r Hr).
  - rewrite set_fresh by exact Hget. apply Forall_app. split.
    + eapply Forall_impl; [exact Hrefs|]. intros entry H. simpl in H. lia.
    + repeat constructor; simpl; lia.
  - rewrite set_fresh by exact Hget. rewrite map_app. simpl.
    apply NoDup_app. split; [exact Hnd|]. split; [|repeat constructor].
    + intros r Hr Hr'. apply list_elem_of_In in Hr.
      apply in_map_iff in Hr as ([k r'] & <- & Hin).
      rewrite Forall_forall in Hrefs. rewrite <- list_elem_of_In in Hin.
      specialize (Hrefs _ Hin). simpl in Hrefs, Hr'.
      apply list_elem_of_In in Hr'. destruct Hr' as [Hr'|[]]. lia.
    + intros H. apply list_elem_of_In in H. destruct H.
  - rewrite <- Hnew. rewrite <- set_valued. f_equal.
    apply map_ext_in. intros [k r] Hin. simpl. f_equal.
    rewrite Forall_forall in Hrefs. rewrite <- list_elem_of_In in Hin.
    specialize (Hrefs _ Hin). simpl in Hrefs.
    rewrite Hold by lia. reflexivity.
Qed.

Lemma represents_preserves (h0 h : Heap.t) (groups : JsObject.t Heap.ref)
    (byFile : JsObject.t (list ReviewComment.t)) :
  Stateful.represents h0 h groups byFile -> Stateful.preserves h0 h.
Proof. intros (Hlen & Hframe & _). split; assumption. Qed.

(** The first loop builds in the heap the groups that the fold over the
    Comments builds as values. *)
Lemma groupLoop_fold (h0 : Heap.t) (comments : Heap.ref) :
  (comments < length h0)%nat ->
  forall rest done h groups byFile fuel,
    Heap.get h0 comments = done ++ rest ->
    Stateful.represents h0 h groups byFile ->
    (length rest < fuel)%nat ->
    exists result h',
      Stateful.groupLoop fuel h comments (length done) groups
      = Some (result, h')
      /\ Stateful.preserves h0 h'
      /\ match
           fold_left
             (fun acc comment => let* groups := acc in
                                 addToGroup groups comment)
             rest (Normal byFile),
           result
         with
         | Normal byFile', Normal groups' =>
             Stateful.represents h0 h' groups' byFile'
         | Throw error, Throw error' => error = error'
         | _, _ => False
         end.
Proof.
  intros Hcomments rest.
  induction rest as [|comment rest IH];
    intros done h groups byFile fuel Hcs Hrep Hfuel.
  - destruct fuel as [|fuel]; [simpl in Hfuel; lia|]. simpl.
    assert (Hread : Heap.get h comments = done ++ []).
    { destruct Hrep as (_ & Hframe & _).
      rewrite (Hframe _ Hcomments). exact Hcs. }
    rewrite Hread, app_nil_r, lookup_ge_None_2 by lia.
    exists (Normal groups), h. split; [reflexivity|].
    split; [exact (represents_preserves _ _ _ _ Hrep)|exact Hrep].
  - destruct fuel as [|fuel]; [simpl in Hfuel; lia|].
    simpl in Hfuel.
    assert (Hread : Heap.get h comments = done ++ comment :: rest).
    { destruct Hrep as (_ & Hframe & _).
      rewrite (Hframe _ Hcomments). exact Hcs. }
    cbn [Stateful.groupLoop].
    rewrite Hread, list_lookup_middle by reflexivity.
    cbn [fold_left bind].
    assert (Hnext : Heap.get h0 comments = (done ++ [comment]) ++ rest)
      by (rewrite <- app_assoc; exact Hcs).
    assert (Hi : S (length done) = length (done ++ [comment]))
      by (rewrite length_app; simpl; lia).
    pose proof Hrep as (_ & _ & _ & _ & Hvalues).
    assert (Hstep : addToGroup byFile comment
                    = match JsObject.get groups (groupKey comment) with
                      | JsObject.Own r =>
                          Normal (JsObject.set byFile (groupKey comment)
                                    (Heap.get h r ++ [comment]))
                      | JsObject.Inherited =>
                          Throw (js "groups[path].push is not a function")
                      | JsObject.Undefined =>
                          Normal (JsObject.set byFile (groupKey comment)
                                    [comment])
                      end).
    { unfold addToGroup. cbv zeta. rewrite Hvalues at 1. rewrite get_valued.
      destruct (JsObject.get groups (groupKey comment)); reflexivity. }
    rewrite Hstep. clear Hstep Hvalues.
    destruct (JsObject.getOwn groups (groupKey comment)) as [r|] eqn:Hget.
    + assert (Hown : JsObject.get groups (groupKey comment) = JsObject.Own r)
        by (unfold JsObject.get; rewrite Hget; reflexivity).
      rewrite !Hown. rewrite Hi.
      apply (IH (done ++ [comment]) _ groups _ fuel Hnext); [|lia].
      apply represents_write; assumption.
    + destruct (JsObject.isInherited (groupKey comment)) eqn:Hinh.
      * assert (Hown : JsObject.get groups (groupKey comment)
                       = JsObject.Inherited)
          by (unfold JsObject.get; rewrite Hget, Hinh; reflexivity).
        rewrite !Hown. rewrite GroupCoverFacts.fold_Throw.
        exists (Throw (js "groups[path].push is not a function")), h.
        split; [reflexivity|].
        split; [exact (represents_preserves _ _ _ _ Hrep)|reflexivity].
      * assert (Hown : JsObject.get groups (groupKey comment)
                       = JsObject.Undefined)
          by (unfold JsObject.get; rewrite Hget, Hinh; reflexivity).
        rewrite !Hown. unfold Heap.alloc.
        assert (Hnew : JsObject.get
                         (JsObject.set groups (groupKey comment) (length h))
                         (groupKey comment) = JsObject.Own (length h))
          by (unfold JsObject.get; rewrite getOwn_set; reflexivity).
        rewrite Hnew, Hi.
        apply (IH (done ++ [comment]) _ _ _ fuel Hnext); [|lia].
        apply represents_create; assumption.
Qed.

(** The second loop sorts in the heap what the fold over the keys sorts
    as values. *)
Lemma sortLoop_fold (h0 : Heap.t) (groups : JsObject.t Heap.ref)
    (paths : list jsstring) :
  forall h byFile,
    Stateful.represents h0 h groups byFile ->
    Stateful.represents h0
      (fold_left (Stateful.sortGroup groups) paths h) groups
      (fold_left sortGroup paths byFile).
Proof.
  induction paths as [|path paths IH]; intros h byFile Hrep; simpl;
    [exact Hrep|].
  apply IH. unfold Stateful.sortGroup, sortGroup.
  pose proof Hrep as (_ & _ & _ & _ & Hvalues).
  rewrite Hvalues at 1. rewrite getOwn_valued.
  destruct (JsObject.getOwn groups path) as [r|] eqn:Hget; simpl.
  - apply represents_write; assumption.
  - exact Hrep.
Qed.

Lemma entries_valued {V} (f : Heap.ref -> V)
    (groups : JsObject.t Heap.ref) :
  JsObject.entries (valued f groups) = valued f (JsObject.entries groups).
Proof.
  unfold JsObject.entries. rewrite map_app, !SortLoopFacts.filter_map. simpl.
  f_equal. apply SortLoopFacts.sort_map. reflexivity.
Qed.

Lemma keys_valued {V} (f : Heap.ref -> V) (groups : JsObject.t Heap.ref) :
  JsObject.keys (valued f groups) = JsObject.keys groups.
Proof.
  unfold JsObject.keys. rewrite entries_valued, map_map. reflexivity.
Qed.

Lemma flat_map_valued {V W} (f : Heap.ref -> V)
    (g : jsstring * V -> list W) (groups : JsObject.t Heap.ref) :
  flat_map g (valued f groups)
  = flat_map (fun entry => g (fst entry, f (snd entry))) groups.
Proof.
  induction groups as [|entry groups IH]; simpl; [reflexivity|].
  rewrite IH. reflexivity.
Qed.

Lemma represents_nil (h0 : Heap.t) : Stateful.represents h0 h0 [] [].
Proof.
  split; [lia|]. split; [reflexivity|].
  split; [constructor|]. split; [constructor|reflexivity].
Qed.

(** [groupByFile] on the heap and [groupByFile] on values. *)
Lemma groupByFile_heap (h0 : Heap.t) (comments : Heap.ref) :
  (comments < length h0)%nat ->
  exists result h',
    Stateful.groupByFile h0 comments = Some (result, h')
    /\ Stateful.preserves h0 h'
    /\ match groupByFile (Heap.get h0 comments), result with
       | Normal byFile, Normal groups =>
           Stateful.represents h0 h' groups byFile
       | Throw error, Throw error' => error = error'
       | _, _ => False
       end.
Proof.
  intros Hcomments.
  destruct (groupLoop_fold h0 comments Hcomments (Heap.get h0 comments) []
              h0 [] [] (S (length (Heap.get h0 comments))) eq_refl
              (represents_nil h0) ltac:(lia))
    as (result & h1 & Hloop & Hpreserves & Hresult).
  unfold Stateful.groupByFile. simpl length in Hloop. rewrite Hloop.
  match type of Hresult with
  | match ?folded with _ => _ end =>
      change (groupByFile (Heap.get h0 comments))
        with (let* groups := folded in
              Normal (fold_left sortGroup (JsObject.keys groups) groups));
      revert Hresult; destruct folded as [byFile|error]
  end;
    destruct result as [groups|error']; intros Hresult; try contradiction.
  - cbn [bind].
    pose proof Hresult as (_ & _ & _ & _ & Hvalues).
    assert (Hkeys : JsObject.keys byFile = JsObject.keys groups)
      by (rewrite Hvalues; apply keys_valued).
    pose proof (sortLoop_fold h0 groups (JsObject.keys groups) h1 byFile
                  Hresult) as Hsorted.
    rewrite Hkeys.
    exists (Normal groups),
      (fold_left (Stateful.sortGroup groups) (JsObject.keys groups) h1).
    split; [reflexivity|].
    split; [exact (represents_preserves _ _ _ _ Hsorted)|exact Hsorted].
  - cbn [bind]. eexists. eexists. split; [reflexivity|].
    split; [exact Hpreserves|exact Hresult].
Qed.

Lemma preserves_get (h0 h : Heap.t) (r : Heap.ref) :
  Stateful.preserves h0 h -> (r < length h0)%nat ->
  Heap.get h r = Heap.get h0 r.
Proof. intros [_ H] Hr. exact (H r Hr). Qed.

(** [generateMarkdown] on the heap returns what [generateMarkdown] on the
    value of the snapshot returns, and leaves the arrays that were
    there. *)
Lemma generateMarkdown_heap (h : Heap.t) (s : Stateful.Snapshot)
    (includeResolved : bool) :
  (Stateful.openComments s < length h)%nat ->
  (Stateful.resolvedComments s < length h)%nat ->
  exists h',
    Stateful.generateMarkdown h s includeResolved
    = Some (Renderer.generateMarkdown (Stateful.read h s) includeResolved, h')
    /\ Stateful.preserves h h'.
Proof.
  intros Hopen Hresolved.
  unfold Stateful.generateMarkdown, Renderer.generateMarkdown,
    Renderer.markdownLines, Stateful.issuesLines, Renderer.issuesLines.
  cbv zeta. cbn [AggregatedFeedback.openComments
                   AggregatedFeedback.resolvedComments Stateful.read].
  destruct (0 <? Z.of_nat (length (Heap.get h (Stateful.openComments s)))).
  - destruct (groupByFile_heap h (Stateful.openComments s) Hopen)
      as (result & h1 & Hgroup & Hpreserves & Hresult).
    rewrite Hgroup. revert Hresult.
    destruct (groupByFile (Heap.get h (Stateful.openComments s)))
      as [byFile|error]; destruct result as [groups|error']; intros Hresult;
      try contradiction.
    + cbn [bind]. exists h1. split; [|exact Hpreserves].
      destruct Hresult as (_ & _ & _ & _ & ->).
      rewrite entries_valued, flat_map_valued.
      unfold Stateful.resolvedLines, Renderer.resolvedLines.
      cbn [AggregatedFeedback.resolvedComments].
      rewrite (preserves_get h h1 _ Hpreserves Hresolved). reflexivity.
    + cbn [bind]. subst error'. exists h1. split; [reflexivity|].
      exact Hpreserves.
  - cbn [bind]. exists h. split; [reflexivity|].
    split; [lia|reflexivity].
Qed.

End HeapFacts.

(** C9. [generateMarkdown] is pure and repeatable.  Called in a heap that
    holds the two arrays of the snapshot, it ends; what it returns is a
    function of the flag and of what the snapshot holds, the one that
    [Renderer.generateMarkdown] computes on values; the arrays that
    existed before the call, those of the snapshot among them, are as they
    were, although [groupByFile] creates, fills and sorts arrays.  So a
    second call with the same snapshot and the same flag, in the heap that
    the first call has left, returns the same: the same string, or the
    same failure. *)
Theorem generateMarkdown_repeatable (h : Heap.t) (s : Stateful.Snapshot)
    (includeResolved : bool) :
  (Stateful.openComments s < length h)%nat ->
  (Stateful.resolvedComments s < length h)%nat ->
  exists result h1 h2,
    Stateful.generateMarkdown h s includeResolved = Some (result, h1)
    /\ Stateful.generateMarkdown h1 s includeResolved = Some (result, h2)
    /\ result = Renderer.generateMarkdown (Stateful.read h s) includeResolved
    /\ Stateful.preserves h h1
    /\ Stateful.read h1 s = Stateful.read h s.
Proof.
  intros Hopen Hresolved.
  destruct (HeapFacts.generateMarkdown_heap h s includeResolved Hopen
              Hresolved) as (h1 & Hfirst & Hpreserves).
  assert (Hread : Stateful.read h1 s = Stateful.read h s).
  { unfold Stateful.read.
    rewrite (HeapFacts.preserves_get h h1 _ Hpreserves Hopen).
    rewrite (HeapFacts.preserves_get h h1 _ Hpreserves Hresolved).
    reflexivity. }
  destruct Hpreserves as [Hlen Hframe].
  destruct (HeapFacts.generateMarkdown_heap h1 s includeResolved
              ltac:(lia) ltac:(lia)) as (h2 & Hsecond & _).
  rewrite Hread in Hsecond.
  eexists. exists h1, h2. split; [exact Hfirst|].
  split; [exact Hsecond|]. split; [reflexivity|].
  split; [split; assumption|exact Hread].
Qed.

(** C9 on PR #123, whose two open comments are on one file, the later
    line first: the hypotheses hold, so the two calls return the same. *)
Lemma generateMarkdown_repeatable_witness :
  exists result h1 h2,
    Stateful.generateMarkdown RenderExamples.heap RenderExamples.snapshot true
    = Some (result, h1)
    /\ Stateful.generateMarkdown h1 RenderExamples.snapshot true
       = Some (result, h2)
    /\ result
       = Renderer.generateMarkdown
           (Stateful.read RenderExamples.heap RenderExamples.snapshot) true
    /\ Stateful.preserves RenderExamples.heap h1
    /\ Stateful.read h1 RenderExamples.snapshot
       = Stateful.read RenderExamples.heap RenderExamples.snapshot.
Proof.
  apply (generateMarkdown_repeatable RenderExamples.heap
           RenderExamples.snapshot true);
    unfold RenderExamples.heap, RenderExamples.snapshot; simpl; lia.
Defined.

(** On PR #123 the call does write: it leaves a third array, the group of
    [src/a.go] sorted by line, while the array of the snapshot keeps the
    order it had; a second call leaves a fourth. *)
Example generateMarkdown_sorts_a_copy :
  exists markdown h1 h2,
    Stateful.generateMarkdown RenderExamples.heap RenderExamples.snapshot true
    = Some (Normal markdown, h1)
    /\ Stateful.generateMarkdown h1 RenderExamples.snapshot true
       = Some (Normal markdown, h2)
    /\ Heap.get h1 0%nat
       = [ RenderExamples.inline 1 (js "src/a.go") 10 (js "alice") false;
           RenderExamples.inline 2 (js "src/a.go") 5 (js "bob") false ]
    /\ Heap.get h1 2%nat
       = [ RenderExamples.inline 2 (js "src/a.go") 5 (js "bob") false;
           RenderExamples.inline 1 (js "src/a.go") 10 (js "alice") false ]
    /\ length RenderExamples.heap = 2%nat
    /\ length h1 = 3%nat
    /\ length h2 = 4%nat.
Proof.
  eexists. eexists. eexists.
  split; [vm_compute; reflexivity|].
  split; [vm_compute; reflexivity|].
  repeat split; vm_compute; reflexivity.
Qed.

(** A snapshot whose two fields hold one and the same array is rendered
    as the snapshot that holds the array twice. *)
Example generateMarkdown_shared_array :
  let s := Stateful.mkSnapshot 123 (js "Add user authentication")
             (js "https://example.test/pull/123") 0%nat 0%nat []
             (js "2024-01-15T10:30:00Z") in
  exists h1,
    Stateful.generateMarkdown RenderExamples.heap s true
    = Some (Renderer.generateMarkdown (Stateful.read RenderExamples.heap s)
              true, h1)
    /\ Heap.get h1 0%nat = Heap.get RenderExamples.heap 0%nat.
Proof.
  eexists. split; vm_compute; reflexivity.
Qed.

(* ===================================================================== *)
(** * The renderer: the items of the document *)
(* ===================================================================== *)

Module ItemFacts.

Lemma count_app {A} (p : A -> bool) (l l' : list A) :
  length (List.filter p (l ++ l'))
  = (length (List.filter p l) + length (List.filter p l'))%nat.
Proof. rewrite List.filter_app, length_app. reflexivity. Qed.

Lemma count_none {A} (p : A -> bool) (l : list A) :
  Forall (fun a => p a = false) l -> length (List.filter p l) = 0%nat.
Proof.
  induction 1 as [|a l Ha _ IH]; simpl; [reflexivity|]. rewrite Ha. exact IH.
Qed.

Lemma count_all {A} (p : A -> bool) (l : list A) :
  Forall (fun a => p a = true) l -> length (List.filter p l) = length l.
Proof.
  induction 1 as [|a l Ha _ IH]; simpl; [reflexivity|]. rewrite Ha.
  simpl. rewrite IH. reflexivity.
Qed.

Lemma count_flat_map {A B} (p : B -> bool) (f : A -> list B) (n : A -> nat)
    (l : list A) :
  (forall a, length (List.filter p (f a)) = n a) ->
  length (List.filter p (flat_map f l)) = list_sum (map n l).
Proof.
  intros H. induction l as [|a l IH]; simpl; [reflexivity|].
  rewrite count_app, H, IH. reflexivity.
Qed.

Lemma list_sum_const {A} (l : list A) (k : nat) :
  list_sum (map (fun _ => k) l) = (k * length l)%nat.
Proof. induction l as [|a l IH]; simpl; lia. Qed.

Lemma list_sum_lengths {A B} (f : A -> list B) (l : list A) :
  list_sum (map (fun a => length (f a)) l) = length (flat_map f l).
Proof.
  induction l as [|a l IH]; simpl; [reflexivity|].
  rewrite length_app, IH. reflexivity.
Qed.

Lemma quoted_not_item (prefix needle : jsstring) (pieces : list jsstring) :
  (forall piece, JsString.startsWith needle (prefix ++ piece) = false) ->
  Forall (fun line => JsString.startsWith needle line = false)
    (map (fun piece => prefix ++ piece) pieces).
Proof.
  intros H. apply Forall_forall. intros line Hline.
  rewrite list_elem_of_In in Hline.
  apply in_map_iff in Hline as (piece & <- & _). apply H.
Qed.

Lemma commentLines_open (c : ReviewComment.t) :
  length (List.filter Props.isOpenItem (Renderer.commentLines c)) = 1%nat.
Proof.
  unfold Renderer.commentLines. cbv zeta. rewrite !count_app.
  rewrite (count_none _ (map _ _)).
  - reflexivity.
  - apply (quoted_not_item (js "  > ") (js "- [ ] **")). reflexivity.
Qed.

Lemma commentLines_resolved (c : ReviewComment.t) :
  length (List.filter Props.isResolvedItem (Renderer.commentLines c)) = 0%nat.
Proof.
  unfold Renderer.commentLines. cbv zeta. rewrite !count_app.
  rewrite (count_none _ (map _ _)).
  - reflexivity.
  - apply (quoted_not_item (js "  > ") (js "- [x] ~~")). reflexivity.
Qed.

Lemma groupLines_open (entry : jsstring * list ReviewComment.t) :
  length (List.filter Props.isOpenItem (Renderer.groupLines entry))
  = length (snd entry).
Proof.
  destruct entry as [filePath comments]. unfold Renderer.groupLines.
  rewrite count_app.
  rewrite (count_flat_map _ _ (fun _ => 1%nat)) by apply commentLines_open.
  rewrite list_sum_const. simpl. lia.
Qed.

Lemma groupLines_resolved (entry : jsstring * list ReviewComment.t) :
  length (List.filter Props.isResolvedItem (Renderer.groupLines entry))
  = 0%nat.
Proof.
  destruct entry as [filePath comments]. unfold Renderer.groupLines.
  rewrite count_app.
  rewrite (count_flat_map _ _ (fun _ => 0%nat)) by apply commentLines_resolved.
  rewrite list_sum_const. reflexivity.
Qed.

Lemma reviewLines_items (needle : jsstring) (r : Review.t) :
  needle = js "- [ ] **" \/ needle = js "- [x] ~~" ->
  length (List.filter (JsString.startsWith needle) (Renderer.reviewLines r))
  = 0%nat.
Proof.
  intros H. unfold Renderer.reviewLines. cbv zeta. rewrite !count_app.
  rewrite (count_none _ (map _ _)).
  - destruct H as [-> | ->]; reflexivity.
  - apply (quoted_not_item (js "> ")). destruct H as [-> | ->]; reflexivity.
Qed.

Lemma reviewsLines_items (needle : jsstring) (feedback : AggregatedFeedback.t) :
  needle = js "- [ ] **" \/ needle = js "- [x] ~~" ->
  length (List.filter (JsString.startsWith needle)
            (Renderer.reviewsLines feedback))
  = 0%nat.
Proof.
  intros H. unfold Renderer.reviewsLines. cbv zeta.
  destruct (0 <? _)%nat; [|reflexivity].
  rewrite count_app.
  rewrite (count_flat_map _ _ (fun _ => 0%nat))
    by (intros r; apply reviewLines_items; exact H).
  rewrite list_sum_const. destruct H as [-> | ->]; reflexivity.
Qed.

Lemma resolvedLines_open (feedback : AggregatedFeedback.t)
    (includeResolved : bool) :
  length (List.filter Props.isOpenItem
            (Renderer.resolvedLines feedback includeResolved))
  = 0%nat.
Proof.
  unfold Renderer.resolvedLines. cbv zeta.
  destruct (includeResolved && _); [|reflexivity].
  rewrite !count_app. rewrite (count_none _ (map _ _)); [reflexivity|].
  apply Forall_forall. intros line Hline. rewrite list_elem_of_In in Hline.
  apply in_map_iff in Hline as (c & <- & _). reflexivity.
Qed.

Lemma resolvedLines_resolved (feedback : AggregatedFeedback.t)
    (includeResolved : bool) :
  length (List.filter Props.isResolvedItem
            (Renderer.resolvedLines feedback includeResolved))
  = if includeResolved
    then length (AggregatedFeedback.resolvedComments feedback)
    else 0%nat.
Proof.
  unfold Renderer.resolvedLines. cbv zeta.
  destruct includeResolved; [|reflexivity]. simpl andb.
  destruct (AggregatedFeedback.resolvedComments feedback) as [|c resolved];
    [reflexivity|].
  replace (0 <? Z.of_nat (length (c :: resolved))) with true
    by (symmetry; apply Z.ltb_lt; simpl length; lia).
  rewrite !count_app. rewrite (count_all _ (map _ _)).
  - rewrite length_map. simpl. lia.
  - apply Forall_forall. intros line Hline. rewrite list_elem_of_In in Hline.
    apply in_map_iff in Hline as (c' & <- & _). reflexivity.
Qed.

Lemma statusLines_items (needle : jsstring) (openCount resolvedCount : Z)
    (includeResolved : bool) :
  needle = js "- [ ] **" \/ needle = js "- [x] ~~" ->
  length (List.filter (JsString.startsWith needle)
            (Renderer.statusLines openCount resolvedCount includeResolved))
  = 0%nat.
Proof.
  intros H. unfold Renderer.statusLines.
  destruct (includeResolved && _); destruct H as [-> | ->]; reflexivity.
Qed.

(** The issues section holds one unchecked item for each open comment. *)
Lemma issuesLines_items (feedback : AggregatedFeedback.t)
    (issues : list jsstring) :
  Renderer.issuesLines feedback = Normal issues ->
  length (List.filter Props.isOpenItem issues)
  = length (AggregatedFeedback.openComments feedback)
  /\ length (List.filter Props.isResolvedItem issues) = 0%nat.
Proof.
  unfold Renderer.issuesLines. cbv zeta.
  destruct (0 <? _) eqn:Eopen.
  - destruct (GroupCoverFacts.inherited_dec
                (AggregatedFeedback.openComments feedback)) as [Hall|Hex].
    + destruct (GroupCoverFacts.groupByFile_covers _ Hall)
        as (byFile & -> & Hperm).
      simpl. intros H. injection H as <-. split.
      * change (length (List.filter Props.isOpenItem
                          (flat_map Renderer.groupLines
                             (JsObject.entries byFile)))
                = length (AggregatedFeedback.openComments feedback)).
        rewrite (count_flat_map _ _ (fun entry => length (snd entry)))
          by apply groupLines_open.
        rewrite list_sum_lengths. apply Permutation_length. exact Hperm.
      * change (length (List.filter Props.isResolvedItem
                          (flat_map Renderer.groupLines
                             (JsObject.entries byFile))) = 0%nat).
        rewrite (count_flat_map _ _ (fun _ => 0%nat))
          by apply groupLines_resolved.
        rewrite list_sum_const. reflexivity.
    + rewrite (GroupCoverFacts.groupByFile_Throw _ Hex). discriminate.
  - intros H. injection H as <-.
    apply Z.ltb_ge in Eopen.
    destruct (AggregatedFeedback.openComments feedback);
      [split; reflexivity|simpl length in Eopen; lia].
Qed.

Lemma markdownLines_Normal (feedback : AggregatedFeedback.t)
    (includeResolved : bool) (lines : list jsstring) :
  Renderer.markdownLines feedback includeResolved = Normal lines ->
  exists issues,
    Renderer.issuesLines feedback = Normal issues
    /\ lines
       = Renderer.headerLines feedback
         ++ Renderer.statusLines
              (Z.of_nat (length (AggregatedFeedback.openComments feedback)))
              (Z.of_nat (length (AggregatedFeedback.resolvedComments feedback)))
              includeResolved
         ++ issues
         ++ Renderer.resolvedLines feedback includeResolved
         ++ Renderer.reviewsLines feedback.
Proof.
  unfold Renderer.markdownLines. cbv zeta.
  destruct (Renderer.issuesLines feedback) as [issues|message];
    [|discriminate].
  intros H. exists issues. split; [reflexivity|].
  apply (f_equal (fun c => match c with Normal l => l | Throw _ => [] end))
    in H.
  symmetry. exact H.
Qed.


Lemma split_noNewline (s : jsstring) :
  Forall (Forall (fun c => c <> JsString.newline)) (JsString.split s).
Proof.
  induction s as [|c s IH]; simpl; [repeat constructor|].
  destruct (N.eqb_spec c JsString.newline) as [E|Hne].
  - constructor; [constructor|exact IH].
  - destruct (JsString.split s) as [|piece pieces]; [repeat constructor; exact Hne|].
    inversion IH; subst. constructor; [constructor; assumption|assumption].
Qed.


End ItemFacts.

(** X12. The lines of the document hold one unchecked item
    ([- [ ] **...]) for each open comment of the snapshot, and one checked
    item ([- [x] ~~...]) for each resolved comment when resolved comments
    are included, none otherwise: the quoted bodies, the headings, the
    status and the review summaries never count as an item. *)
Theorem one_item_per_comment (feedback : AggregatedFeedback.t)
    (includeResolved : bool) (lines : list jsstring) :
  Renderer.markdownLines feedback includeResolved = Normal lines ->
  length (List.filter Props.isOpenItem lines)
  = length (AggregatedFeedback.openComments feedback)
  /\ length (List.filter Props.isResolvedItem lines)
     = if includeResolved
       then length (AggregatedFeedback.resolvedComments feedback)
       else 0%nat.
Proof.
  intros H.
  apply ItemFacts.markdownLines_Normal in H as (issues & E & ->).
  destruct (ItemFacts.issuesLines_items feedback issues E) as [Hopen Hres].
  set (openCount := Z.of_nat (length (AggregatedFeedback.openComments feedback))).
  set (resolvedCount :=
         Z.of_nat (length (AggregatedFeedback.resolvedComments feedback))).
  split.
  - pose proof (ItemFacts.statusLines_items (js "- [ ] **") openCount
                  resolvedCount includeResolved (or_introl eq_refl))
      as Hstatus.
    pose proof (ItemFacts.reviewsLines_items (js "- [ ] **") feedback
                  (or_introl eq_refl)) as Hreviews.
    change (JsString.startsWith (js "- [ ] **")) with Props.isOpenItem
      in Hstatus, Hreviews.
    rewrite !ItemFacts.count_app.
    rewrite Hstatus, Hreviews, Hopen, ItemFacts.resolvedLines_open.
    change (length (List.filter Props.isOpenItem
                      (Renderer.headerLines feedback))) with 0%nat.
    lia.
  - pose proof (ItemFacts.statusLines_items (js "- [x] ~~") openCount
                  resolvedCount includeResolved (or_intror eq_refl))
      as Hstatus.
    pose proof (ItemFacts.reviewsLines_items (js "- [x] ~~") feedback
                  (or_intror eq_refl)) as Hreviews.
    change (JsString.startsWith (js "- [x] ~~")) with Props.isResolvedItem
      in Hstatus, Hreviews.
    rewrite !ItemFacts.count_app.
    rewrite Hstatus, Hreviews, Hres, ItemFacts.resolvedLines_resolved.
    change (length (List.filter Props.isResolvedItem
                      (Renderer.headerLines feedback))) with 0%nat.
    lia.
Qed.

(** X12 on the scenario of PR #123: two unchecked items, one checked. *)
Lemma one_item_per_comment_witness :
  exists lines,
    Renderer.markdownLines RenderExamples.scenario true = Normal lines
    /\ length (List.filter Props.isOpenItem lines) = 2%nat
    /\ length (List.filter Props.isResolvedItem lines) = 1%nat.
Proof.
  eexists. split; [vm_compute; reflexivity|].
  apply (one_item_per_comment RenderExamples.scenario true).
  vm_compute. reflexivity.
Defined.

(* ===================================================================== *)
(** * The renderer: the document and its lines *)
(* ===================================================================== *)

Module LineFacts.

Lemma noNewline_literal (s : jsstring) :
  forallb (fun c => negb (c =? JsString.newline)%N) s = true ->
  Props.noNewline s.
Proof.
  intros H. apply Forall_forall. intros c Hc. rewrite list_elem_of_In in Hc.
  rewrite forallb_forall in H. specialize (H c Hc).
  apply negb_true_iff, N.eqb_neq in H. exact H.
Qed.

Lemma noNewline_app (a b : jsstring) :
  Props.noNewline a -> Props.noNewline b -> Props.noNewline (a ++ b).
Proof. intros Ha Hb. apply Forall_app. split; assumption. Qed.

Lemma digitsOfUint_noNewline (d : Decimal.uint) :
  Props.noNewline (JsString.digitsOfUint d).
Proof. induction d; simpl; constructor; try discriminate; assumption. Qed.

Lemma ofNumber_noNewline (z : Z) : Props.noNewline (JsString.ofNumber z).
Proof.
  destruct z; simpl.
  - repeat constructor. discriminate.
  - apply digitsOfUint_noNewline.
  - constructor; [discriminate|apply digitsOfUint_noNewline].
Qed.

Lemma toLowerCase_noNewline (s : jsstring) :
  Props.noNewline s -> Props.noNewline (JsString.toLowerCase s).
Proof.
  induction 1 as [|c s Hc _ IH]; simpl; [constructor|].
  apply noNewline_app; [|exact IH].
  unfold JsString.lowerUnit, JsString.newline in *.
  destruct ((65 <=? c) && (c <=? 90))%N eqn:E.
  - apply andb_true_iff in E as [E1 E2]. apply N.leb_le in E1.
    repeat constructor. unfold JsString.newline. lia.
  - destruct (c =? 304)%N; [repeat constructor; discriminate|].
    destruct (c =? 8490)%N; [repeat constructor; discriminate|].
    repeat constructor. exact Hc.
Qed.

Lemma replaceFirst_noNewline (s : jsstring) :
  Props.noNewline s -> Props.noNewline (Renderer.replaceFirst 95 32 s).
Proof.
  induction 1 as [|c s Hc Hs IH]; simpl; [constructor|].
  destruct (c =? 95)%N; constructor; try assumption. discriminate.
Qed.

Lemma split_one (s : jsstring) :
  Props.noNewline s -> JsString.split s = [s].
Proof.
  induction 1 as [|c s Hc _ IH]; simpl; [reflexivity|].
  apply N.eqb_neq in Hc. rewrite Hc, IH. reflexivity.
Qed.

Lemma split_app_newline (l rest : jsstring) :
  Props.noNewline l ->
  JsString.split (l ++ JsString.newline :: rest) = l :: JsString.split rest.
Proof.
  induction 1 as [|c l Hc _ IH]; simpl.
  - reflexivity.
  - apply N.eqb_neq in Hc. rewrite Hc, IH. reflexivity.
Qed.

Lemma split_join (lines : list jsstring) :
  lines <> [] -> Forall Props.noNewline lines ->
  JsString.split (JsString.join lines) = lines.
Proof.
  intros Hne H. induction H as [|l lines Hl Hlines IH]; [contradiction|].
  destruct lines as [|l' lines].
  - simpl. apply split_one. exact Hl.
  - change (JsString.join (l :: l' :: lines))
      with (l ++ JsString.newline :: JsString.join (l' :: lines)).
    rewrite split_app_newline by exact Hl. rewrite IH by discriminate.
    reflexivity.
Qed.

Lemma quoted_noNewline (prefix body : jsstring) :
  Props.noNewline prefix ->
  Forall Props.noNewline
    (map (fun piece => prefix ++ piece) (JsString.split body)).
Proof.
  intros Hprefix. apply Forall_forall. intros line Hline.
  rewrite list_elem_of_In in Hline.
  apply in_map_iff in Hline as (piece & <- & Hpiece).
  apply noNewline_app; [exact Hprefix|].
  pose proof (ItemFacts.split_noNewline body) as Hall.
  rewrite Forall_forall in Hall. apply Hall. rewrite list_elem_of_In.
  exact Hpiece.
Qed.

Lemma Forall_flat_map {A B} (P : B -> Prop) (f : A -> list B) (l : list A) :
  (forall a, In a l -> Forall P (f a)) -> Forall P (flat_map f l).
Proof.
  induction l as [|a l IH]; intros H; simpl; [constructor|].
  apply Forall_app. split.
  - apply H. left. reflexivity.
  - apply IH. intros b Hb. apply H. right. exact Hb.
Qed.

Lemma commentLines_noNewline (c : ReviewComment.t) :
  Props.noNewline (ReviewComment.user c) ->
  Forall Props.noNewline (Renderer.commentLines c).
Proof.
  intros Huser. unfold Renderer.commentLines. cbv zeta.
  apply Forall_app. split; [|apply Forall_app; split].
  - constructor; [|repeat constructor].
    apply noNewline_app; [apply noNewline_literal; reflexivity|].
    apply noNewline_app.
    + destruct (Renderer.truthy _).
      * apply noNewline_app; [apply noNewline_literal; reflexivity|].
        apply ofNumber_noNewline.
      * apply noNewline_literal. reflexivity.
    + apply noNewline_app; [apply noNewline_literal; reflexivity|].
      apply noNewline_app; [apply noNewline_literal; reflexivity|].
      apply noNewline_app; [apply noNewline_literal; reflexivity|].
      exact Huser.
  - apply quoted_noNewline. apply noNewline_literal. reflexivity.
  - repeat constructor.
Qed.

Lemma resolvedLine_noNewline (c : ReviewComment.t) :
  Props.noNewline (ReviewComment.path c) ->
  Props.noNewline (ReviewComment.user c) ->
  Props.noNewline (Renderer.resolvedLine c).
Proof.
  intros Hpath Huser. unfold Renderer.resolvedLine. cbv zeta.
  apply noNewline_app; [apply noNewline_literal; reflexivity|].
  apply noNewline_app.
  - destruct (Renderer.truthy _);
      repeat first [ assumption
                   | apply ofNumber_noNewline
                   | apply noNewline_app
                   | apply noNewline_literal; reflexivity ].
  - repeat first [ assumption
                 | apply noNewline_app
                 | apply noNewline_literal; reflexivity ].
Qed.

Lemma reviewLines_noNewline (r : Review.t) :
  Props.noNewline (Review.user r) -> Props.noNewline (Review.state r) ->
  Forall Props.noNewline (Renderer.reviewLines r).
Proof.
  intros Huser Hstate. unfold Renderer.reviewLines. cbv zeta.
  apply Forall_app. split; [|apply Forall_app; split].
  - constructor; [|repeat constructor].
    apply noNewline_app; [apply noNewline_literal; reflexivity|].
    apply noNewline_app.
    { destruct (JsString.eqb _ _); [constructor|].
      destruct (JsString.eqb _ _); constructor. }
    apply noNewline_app; [apply noNewline_literal; reflexivity|].
    apply noNewline_app; [exact Huser|].
    apply noNewline_app; [apply noNewline_literal; reflexivity|].
    apply noNewline_app; [|apply noNewline_literal; reflexivity].
    apply replaceFirst_noNewline, toLowerCase_noNewline. exact Hstate.
  - apply quoted_noNewline. apply noNewline_literal. reflexivity.
  - repeat constructor.
Qed.

Lemma groupKey_noNewline (c : ReviewComment.t) :
  Props.noNewline (ReviewComment.path c) -> Props.noNewline (groupKey c).
Proof.
  intros H. unfold groupKey, JsString.orElse.
  destruct (ReviewComment.path c); [apply noNewline_literal; reflexivity|].
  exact H.
Qed.

End LineFacts.


Module DocumentFacts.
Import LineFacts.

Ltac one_line :=
  repeat first
    [ assumption
    | apply ofNumber_noNewline
    | apply noNewline_literal; reflexivity
    | apply noNewline_app
    | constructor ].

Lemma headerLines_noNewline (feedback : AggregatedFeedback.t) :
  Props.noNewline (AggregatedFeedback.prTitle feedback) ->
  Props.noNewline (AggregatedFeedback.prUrl feedback) ->
  Props.noNewline (AggregatedFeedback.updatedAt feedback) ->
  Forall Props.noNewline (Renderer.headerLines feedback).
Proof.
  intros Htitle Hurl Hat. unfold Renderer.headerLines.
  repeat (apply List.Forall_cons; [one_line|]). constructor.
Qed.

Lemma statusLines_noNewline (openCount resolvedCount : Z)
    (includeResolved : bool) :
  Forall Props.noNewline
    (Renderer.statusLines openCount resolvedCount includeResolved).
Proof.
  unfold Renderer.statusLines.
  apply Forall_app. split; [|apply Forall_app; split].
  - constructor; [|constructor].
    destruct (negb _); one_line.
  - destruct (includeResolved && _); [|constructor].
    constructor; [|constructor]. one_line.
  - repeat (apply List.Forall_cons; [one_line|]). constructor.
Qed.

Lemma issuesLines_noNewline (feedback : AggregatedFeedback.t)
    (issues : list jsstring) :
  Forall (fun c => Props.noNewline (ReviewComment.path c)
                   /\ Props.noNewline (ReviewComment.user c))
    (AggregatedFeedback.openComments feedback) ->
  Renderer.issuesLines feedback = Normal issues ->
  Forall Props.noNewline issues.
Proof.
  intros Hfields. unfold Renderer.issuesLines. cbv zeta.
  destruct (0 <? _).
  - destruct (GroupCoverFacts.inherited_dec
                (AggregatedFeedback.openComments feedback)) as [Hall|Hex];
      [|rewrite (GroupCoverFacts.groupByFile_Throw _ Hex); discriminate].
    destruct (groupByFile (AggregatedFeedback.openComments feedback))
      as [byFile|message] eqn:E; [|discriminate].
    pose proof (GroupCoverFacts.groupByFile_entries _ byFile Hall E)
      as Hentries.
    cbn [bind]. intros H.
    apply (f_equal (fun c => match c with Normal l => l | Throw _ => [] end))
      in H.
    rewrite <- H.
    apply Forall_app. split.
    { repeat (apply List.Forall_cons; [one_line|]). constructor. }
    apply Forall_flat_map. intros [filePath comments] Hentry.
    rewrite Forall_forall in Hentries. rewrite <- list_elem_of_In in Hentry.
    destruct (Hentries _ Hentry) as [Hmembers Hne]. simpl in Hmembers, Hne.
    assert (Hmember : forall c, In c comments ->
              Props.noNewline (ReviewComment.path c)
              /\ Props.noNewline (ReviewComment.user c)
              /\ groupKey c = filePath).
    { intros c Hc. rewrite Forall_forall in Hmembers.
      rewrite <- list_elem_of_In in Hc.
      destruct (Hmembers c Hc) as [Hin Hkey].
      rewrite Forall_forall in Hfields. rewrite <- list_elem_of_In in Hin.
      destruct (Hfields c Hin). auto. }
    unfold Renderer.groupLines. apply Forall_app. split.
    + constructor; [|repeat constructor].
      destruct comments as [|c comments']; [contradiction|].
      destruct (Hmember c (or_introl eq_refl)) as (Hpath & _ & <-).
      apply groupKey_noNewline in Hpath. one_line.
    + apply Forall_flat_map. intros c Hc.
      apply commentLines_noNewline. apply (Hmember c Hc).
  - intros H.
    apply (f_equal (fun c => match c with Normal l => l | Throw _ => [] end))
      in H.
    rewrite <- H. unfold Renderer.noOpenIssuesLines.
    repeat (apply List.Forall_cons; [one_line|]). constructor.
Qed.

Lemma resolvedLines_noNewline (feedback : AggregatedFeedback.t)
    (includeResolved : bool) :
  Forall (fun c => Props.noNewline (ReviewComment.path c)
                   /\ Props.noNewline (ReviewComment.user c))
    (AggregatedFeedback.resolvedComments feedback) ->
  Forall Props.noNewline (Renderer.resolvedLines feedback includeResolved).
Proof.
  intros Hfields. unfold Renderer.resolvedLines. cbv zeta.
  destruct (includeResolved && _); [|constructor].
  apply Forall_app. split; [|apply Forall_app; split].
  - repeat (apply List.Forall_cons; [one_line|]). constructor.
  - apply Forall_forall. intros line Hline. rewrite list_elem_of_In in Hline.
    apply in_map_iff in Hline as (c & <- & Hc).
    rewrite Forall_forall in Hfields. rewrite <- list_elem_of_In in Hc.
    destruct (Hfields c Hc). apply resolvedLine_noNewline; assumption.
  - repeat constructor.
Qed.

Lemma reviewsLines_noNewline (feedback : AggregatedFeedback.t) :
  Forall (fun r => Props.noNewline (Review.user r)
                   /\ Props.noNewline (Review.state r))
    (AggregatedFeedback.reviews feedback) ->
  Forall Props.noNewline (Renderer.reviewsLines feedback).
Proof.
  intros Hfields. unfold Renderer.reviewsLines. cbv zeta.
  destruct (0 <? _)%nat; [|constructor].
  apply Forall_app. split.
  - repeat (apply List.Forall_cons; [one_line|]). constructor.
  - apply Forall_flat_map. intros r Hr.
    apply List.filter_In in Hr as [Hr _].
    rewrite Forall_forall in Hfields. rewrite <- list_elem_of_In in Hr.
    destruct (Hfields r Hr). apply reviewLines_noNewline; assumption.
Qed.

Lemma markdownLines_noNewline (feedback : AggregatedFeedback.t)
    (includeResolved : bool) (lines : list jsstring) :
  Props.oneLineFields feedback ->
  Renderer.markdownLines feedback includeResolved = Normal lines ->
  Forall Props.noNewline lines /\ lines <> [].
Proof.
  intros (Htitle & Hurl & Hat & Hcomments & Hreviews) H.
  apply Forall_app in Hcomments as [Hopen Hresolved].
  apply ItemFacts.markdownLines_Normal in H as (issues & E & ->).
  split.
  - apply Forall_app. split; [apply headerLines_noNewline; assumption|].
    apply Forall_app. split; [apply statusLines_noNewline|].
    apply Forall_app. split;
      [apply (issuesLines_noNewline feedback); assumption|].
    apply Forall_app. split; [apply resolvedLines_noNewline; assumption|].
    apply reviewsLines_noNewline. assumption.
  - intros Hnil. apply app_eq_nil in Hnil as [Hnil _].
    discriminate Hnil.
Qed.

End DocumentFacts.

(** X14. For a snapshot whose one-line fields (title, link, time, paths,
    authors, review states) hold no line feed, the document read line by
    line is the sequence of lines that the renderer pushed: joining with
    line feeds and splitting at line feeds is a round trip, although the
    bodies of comments and reviews may hold any number of lines. *)
Theorem document_splits_into_its_lines (feedback : AggregatedFeedback.t)
    (includeResolved : bool) (lines : list jsstring) :
  Props.oneLineFields feedback ->
  Renderer.markdownLines feedback includeResolved = Normal lines ->
  exists markdown,
    Renderer.generateMarkdown feedback includeResolved = Normal markdown
    /\ JsString.split markdown = lines.
Proof.
  intros Hfields Hlines.
  destruct (DocumentFacts.markdownLines_noNewline _ _ _ Hfields Hlines)
    as [Hall Hne].
  exists (JsString.join lines). split.
  - unfold Renderer.generateMarkdown. rewrite Hlines. reflexivity.
  - apply LineFacts.split_join; assumption.
Qed.

(** X14 on the scenario of PR #123: the document has 31 lines. *)
Lemma document_splits_into_its_lines_witness :
  exists markdown,
    Renderer.generateMarkdown RenderExamples.scenario true = Normal markdown
    /\ length (JsString.split markdown) = 31%nat.
Proof.
  assert (Hfields : Props.oneLineFields RenderExamples.scenario).
  { unfold Props.oneLineFields.
    repeat split;
      repeat first [ apply LineFacts.noNewline_literal; reflexivity
                   | constructor ]. }
  destruct (Renderer.markdownLines RenderExamples.scenario true)
    as [lines|message] eqn:E; [|vm_compute in E; discriminate E].
  destruct (document_splits_into_its_lines RenderExamples.scenario true lines
              Hfields E) as (markdown & Hdoc & Hsplit).
  exists markdown. split; [exact Hdoc|].
  rewrite Hsplit. vm_compute in E. injection E as <-. reflexivity.
Defined.

(* ===================================================================== *)
(** * The committed file: upsert and removal *)
(* ===================================================================== *)

Module FileFacts.

Lemma commitFeedbackFile_outcome (blobSha : jsstring -> jsstring)
    (files : gmap jsstring Publisher.entry) (filePath content : jsstring)
    (prNumber : Z) :
  Publisher.commitFeedbackFile blobSha files filePath content prNumber
  = match files !! filePath with
    | Some Publisher.Directory => Throw (js "Unprocessable Entity")
    | _ =>
        Normal (<[filePath := Publisher.File (blobSha content) content]> files,
                [Info (js "Committed feedback file to " ++ filePath)])
    end.
Proof.
  unfold Publisher.commitFeedbackFile, Publisher.getContent,
    Publisher.createOrUpdateFileContents.
  destruct (files !! filePath) as [[sha old|]|] eqn:E; simpl.
  - rewrite ObjectFacts.eqb_refl. reflexivity.
  - reflexivity.
  - reflexivity.
Qed.

Lemma publishFeedbackFile_frame (blobSha : jsstring -> jsstring)
    (files files' : gmap jsstring Publisher.entry)
    (feedbackFilePath markdown : jsstring)
    (openComments : list ReviewComment.t) (prNumber : Z)
    (log : list LogEntry) :
  Publisher.publishFeedbackFile blobSha files feedbackFilePath openComments
    markdown prNumber = Normal (files', log) ->
  (forall path, path <> feedbackFilePath -> files' !! path = files !! path)
  /\ (feedbackFilePath = [] -> files' = files).
Proof.
  unfold Publisher.publishFeedbackFile.
  destruct feedbackFilePath as [|c rest] eqn:Epath.
  - intros H. injection H as <- _. split; reflexivity.
  - rewrite <- Epath. destruct (length openComments =? 0)%nat.
    + rewrite PublisherFacts.deleteFeedbackFile_outcome.
      intros H. injection H as H. split; [|intros E; rewrite Epath in E; discriminate].
      intros path Hpath.
      destruct (files !! feedbackFilePath) as [[sha old|]|];
        injection H as <- _; [|reflexivity|reflexivity].
      apply lookup_delete_ne. congruence.
    + rewrite commitFeedbackFile_outcome.
      destruct (files !! feedbackFilePath) as [[sha old|]|];
        try discriminate;
        (intros H; injection H as <- _;
         split; [|intros E; rewrite Epath in E; discriminate];
         intros path Hpath; apply lookup_insert_ne; congruence).
Qed.

End FileFacts.

(** X15. [commitFeedbackFile] writes the document whether or not the
    branch already holds the file, and it never runs into a conflict: the
    version token it passes is the one it has just read.  Afterwards the
    path holds the document, every other path is as before, and the one
    line logged names the path.  [deleteFeedbackFile] then takes the file
    away again, which for a path that held nothing before gives the branch
    back as it was. *)
Theorem commitFeedbackFile_upserts (blobSha : jsstring -> jsstring)
    (files : gmap jsstring Publisher.entry) (filePath content : jsstring)
    (prNumber : Z) :
  files !! filePath <> Some Publisher.Directory ->
  exists files',
    Publisher.commitFeedbackFile blobSha files filePath content prNumber
    = Normal (files', [Info (js "Committed feedback file to " ++ filePath)])
    /\ Publisher.getContent files' filePath
       = Publisher.Ok (Publisher.File (blobSha content) content)
    /\ (forall path, path <> filePath -> files' !! path = files !! path)
    /\ Publisher.deleteFeedbackFile files' filePath prNumber
       = Normal (delete filePath files,
                 [Info (js "Deleted feedback file " ++ filePath)])
    /\ (files !! filePath = None -> delete filePath files = files).
Proof.
  intros Hdir. eexists. split; [|split; [|split; [|split]]].
  - rewrite FileFacts.commitFeedbackFile_outcome.
    destruct (files !! filePath) as [[sha old|]|]; try reflexivity.
    contradiction.
  - unfold Publisher.getContent. rewrite lookup_insert_eq. reflexivity.
  - intros path Hpath. apply lookup_insert_ne. congruence.
  - rewrite PublisherFacts.deleteFeedbackFile_outcome, lookup_insert_eq.
    rewrite delete_insert_eq. reflexivity.
  - intros Hnone. apply delete_id. exact Hnone.
Qed.

(** X15 on a branch that holds the feedback file of an earlier run. *)
Lemma commitFeedbackFile_upserts_witness :
  exists files',
    Publisher.commitFeedbackFile (fun content => content)
      RunExamples.withFeedbackFile RunExamples.feedbackPath
      (js "# PR #123 Review Feedback, again") 123
    = Normal (files',
              [Info (js "Committed feedback file to "
                     ++ RunExamples.feedbackPath)])
    /\ Publisher.getContent files' RunExamples.feedbackPath
       = Publisher.Ok
           (Publisher.File (js "# PR #123 Review Feedback, again")
              (js "# PR #123 Review Feedback, again")).
Proof.
  destruct (commitFeedbackFile_upserts (fun content => content)
              RunExamples.withFeedbackFile RunExamples.feedbackPath
              (js "# PR #123 Review Feedback, again") 123)
    as (files' & Hcommit & Hread & _).
  - unfold RunExamples.withFeedbackFile. rewrite lookup_singleton_eq.
    discriminate.
  - exists files'. split; [exact Hcommit|exact Hread].
Defined.

(* ===================================================================== *)
(** * The PR comment: found again, or missed *)
(* ===================================================================== *)

Module CommentFacts.
Import CommentSink.

Lemma feedbackBody_hasMarker (c : IssueComment.t) (markdown : jsstring) :
  hasMarker (setBody c (Props.feedbackBody markdown)) = true.
Proof.
  unfold hasMarker, setBody, Props.feedbackBody. simpl. reflexivity.
Qed.

Lemma find_nowhere {A} (p : A -> bool) (l : list A) :
  Forall (fun a => p a = false) l -> List.find p l = None.
Proof.
  induction 1 as [|a l Ha _ IH]; simpl; [reflexivity|]. rewrite Ha. exact IH.
Qed.

Lemma find_some_of {A} (p : A -> bool) (l : list A) (a : A) :
  In a l -> p a = true -> exists b, List.find p l = Some b.
Proof.
  intros Hin Ha. destruct (List.find p l) as [b|] eqn:E; [eauto|].
  pose proof (find_none p l E a Hin). congruence.
Qed.

(** A marker comment with a non-zero id among the first hundred, when all
    ids are non-zero, is enough for the search to succeed, with the id of
    a comment of the conversation. *)
Lemma findExistingComment_Some (conversation : list IssueComment.t)
    (c : IssueComment.t) :
  Props.idsNonZero conversation ->
  In c (listComments conversation) -> hasMarker c = true ->
  exists existing,
    In existing conversation
    /\ hasMarker existing = true
    /\ findExistingComment conversation = Some (IssueComment.id existing).
Proof.
  intros Hids Hin Hmarker. unfold findExistingComment. cbv zeta.
  destruct (find_some_of hasMarker _ c Hin Hmarker) as (existing & E).
  rewrite E. apply find_some in E as [Hexisting Hmark].
  assert (Hconv : In existing conversation).
  { unfold listComments in Hexisting.
    rewrite <- (firstn_skipn 100 conversation). apply in_or_app. auto. }
  exists existing. split; [exact Hconv|]. split; [exact Hmark|].
  unfold Props.idsNonZero in Hids. rewrite Forall_forall in Hids.
  rewrite <- list_elem_of_In in Hconv. specialize (Hids _ Hconv).
  unfold numberOr. simpl.
  destruct (IssueComment.id existing) eqn:Eid; [contradiction| |]; reflexivity.
Qed.

Lemma findExistingComment_None (conversation : list IssueComment.t) :
  Forall (fun c => hasMarker c = false) (listComments conversation) ->
  findExistingComment conversation = None.
Proof.
  intros H. unfold findExistingComment. cbv zeta.
  rewrite (find_nowhere _ _ H). reflexivity.
Qed.

(** What the search returns is the id of a comment of the conversation. *)
Lemma findExistingComment_In (conversation : list IssueComment.t)
    (existingId : Z) :
  findExistingComment conversation = Some existingId ->
  exists existing,
    In existing conversation /\ IssueComment.id existing = existingId.
Proof.
  unfold findExistingComment. cbv zeta.
  destruct (List.find hasMarker (listComments conversation))
    as [existing|] eqn:E; [|discriminate].
  intros H. apply find_some in E as [Hin _].
  exists existing. split.
  - unfold listComments in Hin.
    rewrite <- (firstn_skipn 100 conversation). apply in_or_app. auto.
  - unfold numberOr in H. simpl in H.
    destruct (IssueComment.id existing); [discriminate| |];
      injection H as <-; reflexivity.
Qed.

Lemma updateComment_Ok (conversation : list IssueComment.t)
    (existing : IssueComment.t) (body : jsstring) :
  In existing conversation ->
  updateComment conversation (IssueComment.id existing) body
  = Publisher.Ok
      (map (fun c => if IssueComment.id c =? IssueComment.id existing
                     then setBody c body else c)
         conversation).
Proof.
  intros Hin. unfold updateComment.
  assert (E : existsb (fun c => IssueComment.id c =? IssueComment.id existing)
                conversation = true).
  { apply existsb_exists. exists existing. split; [exact Hin|].
    apply Z.eqb_refl. }
  rewrite E. reflexivity.
Qed.

Lemma update_ids (conversation : list IssueComment.t) (existingId : Z)
    (body : jsstring) :
  map IssueComment.id
    (map (fun c => if IssueComment.id c =? existingId
                   then setBody c body else c) conversation)
  = map IssueComment.id conversation.
Proof.
  rewrite map_map. apply map_ext. intros c.
  destruct (IssueComment.id c =? existingId); reflexivity.
Qed.

Lemma idsNonZero_ids (a b : list IssueComment.t) :
  map IssueComment.id a = map IssueComment.id b ->
  Props.idsNonZero b -> Props.idsNonZero a.
Proof.
  unfold Props.idsNonZero. intros E H.
  apply (List.Forall_map IssueComment.id (fun id => id <> 0)).
  rewrite E.
  apply (List.Forall_map IssueComment.id (fun id => id <> 0)). exact H.
Qed.

(** One call, whatever the conversation. *)
Lemma postOrUpdateComment_outcome (created : IssueComment.t)
    (conversation : list IssueComment.t) (markdown : jsstring) :
  match findExistingComment conversation with
  | Some existingId =>
      postOrUpdateComment created conversation markdown
      = Normal
          (map (fun c => if IssueComment.id c =? existingId
                         then setBody c (Props.feedbackBody markdown) else c)
             conversation,
           [Info (js "Updated existing comment "
                  ++ JsString.ofNumber existingId)])
  | None =>
      postOrUpdateComment created conversation markdown
      = Normal
          (conversation ++ [setBody created (Props.feedbackBody markdown)],
           [Info (js "Created new comment")])
  end.
Proof.
  unfold postOrUpdateComment. cbv zeta.
  destruct (findExistingComment conversation) as [existingId|] eqn:E;
    [|reflexivity].
  apply findExistingComment_In in E as (existing & Hin & <-).
  rewrite (updateComment_Ok _ _ _ Hin). reflexivity.
Qed.

End CommentFacts.

(** X16. [postOrUpdateComment] always leaves a comment that carries the
    document behind the marker, and does not fail: when the search finds a
    comment it rewrites the body of that comment, and the conversation
    keeps its length and its ids; otherwise it adds one comment at the
    end. *)
Theorem postOrUpdateComment_carries_document (created : IssueComment.t)
    (conversation : list IssueComment.t) (markdown : jsstring) :
  exists conversation' log,
    CommentSink.postOrUpdateComment created conversation markdown
    = Normal (conversation', log)
    /\ (exists c, In c conversation'
                  /\ IssueComment.body c
                     = Some (CommentSink.marker ++ JsString.newline :: markdown))
    /\ match CommentSink.findExistingComment conversation with
       | Some existingId =>
           map IssueComment.id conversation'
           = map IssueComment.id conversation
           /\ log = [Info (js "Updated existing comment "
                           ++ JsString.ofNumber existingId)]
           /\ Forall2
                (fun old new =>
                   if IssueComment.id old =? existingId
                   then new = CommentSink.setBody old
                                (CommentSink.marker
                                 ++ JsString.newline :: markdown)
                   else new = old)
                conversation conversation'
       | None =>
           conversation'
           = conversation
             ++ [CommentSink.setBody created
                   (CommentSink.marker ++ JsString.newline :: markdown)]
           /\ log = [Info (js "Created new comment")]
       end.
Proof.
  pose proof (CommentFacts.postOrUpdateComment_outcome created conversation
                markdown) as H.
  destruct (CommentSink.findExistingComment conversation)
    as [existingId|] eqn:E.
  - eexists. eexists. split; [exact H|]. split; [|split; [|split]].
    + apply CommentFacts.findExistingComment_In in E
        as (existing & Hin & Hid).
      exists (CommentSink.setBody existing (Props.feedbackBody markdown)).
      split; [|reflexivity].
      apply in_map_iff. exists existing. split; [|exact Hin].
      rewrite Hid, Z.eqb_refl. reflexivity.
    + apply CommentFacts.update_ids.
    + reflexivity.
    + clear. induction conversation as [|c conversation IH]; simpl;
        constructor; [|exact IH].
      destruct (IssueComment.id c =? existingId); reflexivity.
  - eexists. eexists. split; [exact H|]. split; [|split; reflexivity].
    exists (CommentSink.setBody created (Props.feedbackBody markdown)).
    split; [|reflexivity]. apply in_or_app. right. left. reflexivity.
Qed.

(** X17. While the conversation of the PR has fewer than a hundred
    comments, the comment of one run is found again by the next: a second
    call rewrites a comment and adds none, whatever the two documents
    are. *)
Theorem posted_comment_is_found_again (created created' : IssueComment.t)
    (conversation : list IssueComment.t) (markdown markdown' : jsstring) :
  (length conversation < 100)%nat ->
  Props.idsNonZero (conversation ++ [created]) ->
  exists conversation1 log1 conversation2 existingId,
    CommentSink.postOrUpdateComment created conversation markdown
    = Normal (conversation1, log1)
    /\ CommentSink.postOrUpdateComment created' conversation1 markdown'
       = Normal (conversation2,
                 [Info (js "Updated existing comment "
                        ++ JsString.ofNumber existingId)])
    /\ map IssueComment.id conversation2 = map IssueComment.id conversation1
    /\ exists c, In c conversation2
                 /\ IssueComment.id c = existingId
                 /\ IssueComment.body c
                    = Some (CommentSink.marker
                            ++ JsString.newline :: markdown').
Proof.
  intros Hshort Hids.
  assert (Hfirst : exists conversation1 log1 c,
             CommentSink.postOrUpdateComment created conversation markdown
             = Normal (conversation1, log1)
             /\ Props.idsNonZero conversation1
             /\ In c (CommentSink.listComments conversation1)
             /\ CommentSink.hasMarker c = true).
  { pose proof (CommentFacts.postOrUpdateComment_outcome created conversation
                  markdown) as H.
    apply Forall_app in Hids as [Hconv Hcreated].
    destruct (CommentSink.findExistingComment conversation)
      as [existingId|] eqn:E.
    - apply CommentFacts.findExistingComment_In in E
        as (existing & Hin & Hid).
      eexists. eexists.
      exists (CommentSink.setBody existing (Props.feedbackBody markdown)).
      split; [exact H|]. split; [|split].
      + apply (CommentFacts.idsNonZero_ids _ conversation);
          [apply CommentFacts.update_ids|exact Hconv].
      + unfold CommentSink.listComments. rewrite firstn_all2
          by (rewrite length_map; lia).
        apply in_map_iff. exists existing. split; [|exact Hin].
        rewrite Hid, Z.eqb_refl. reflexivity.
      + apply CommentFacts.feedbackBody_hasMarker.
    - eexists. eexists.
      exists (CommentSink.setBody created (Props.feedbackBody markdown)).
      split; [exact H|]. split; [|split].
      + apply Forall_app. split; [exact Hconv|].
        inversion Hcreated; subst. repeat constructor. assumption.
      + unfold CommentSink.listComments. rewrite firstn_all2
          by (rewrite length_app; simpl; lia).
        apply in_or_app. right. left. reflexivity.
      + apply CommentFacts.feedbackBody_hasMarker. }
  destruct Hfirst as (conversation1 & log1 & c & Hpost & Hids1 & Hc & Hmark).
  destruct (CommentFacts.findExistingComment_Some conversation1 c Hids1 Hc
              Hmark) as (existing & Hin & _ & Hfound).
  pose proof (CommentFacts.postOrUpdateComment_outcome created' conversation1
                markdown') as H.
  rewrite Hfound in H.
  exists conversation1, log1. eexists. exists (IssueComment.id existing).
  split; [exact Hpost|]. split; [exact H|]. split.
  - apply CommentFacts.update_ids.
  - exists (CommentSink.setBody existing (Props.feedbackBody markdown')).
    split; [|split; reflexivity].
    apply in_map_iff. exists existing. split; [|exact Hin].
    rewrite Z.eqb_refl. reflexivity.
Qed.

(** X17 on an empty conversation: the second run rewrites comment 900. *)
Lemma posted_comment_is_found_again_witness :
  let created :=
    IssueComment.mk 900 (Some (js "github-actions[bot]")) None
      (js "https://example.test/issuecomment") (js "2024-01-15T10:30:00Z") in
  exists conversation1 log1 conversation2 existingId,
    CommentSink.postOrUpdateComment created [] (js "first") 
    = Normal (conversation1, log1)
    /\ CommentSink.postOrUpdateComment created conversation1 (js "second")
       = Normal (conversation2,
                 [Info (js "Updated existing comment "
                        ++ JsString.ofNumber existingId)])
    /\ map IssueComment.id conversation2 = map IssueComment.id conversation1.
Proof.
  intros created.
  destruct (posted_comment_is_found_again created created [] (js "first")
              (js "second"))
    as (conversation1 & log1 & conversation2 & existingId & H1 & H2 & H3 & _).
  - simpl. lia.
  - repeat constructor. discriminate.
  - exists conversation1, log1, conversation2, existingId. auto.
Defined.

(** X18. The search reads the first hundred comments only.  When none of
    them carries the marker, as in a conversation whose marker comment
    comes after a hundred others, every run adds a comment: two runs in a
    row leave two more comments, the first of which is not rewritten. *)
Theorem marker_beyond_first_page_is_missed (created created' : IssueComment.t)
    (conversation : list IssueComment.t) (markdown markdown' : jsstring) :
  (100 <= length conversation)%nat ->
  Forall (fun c => CommentSink.hasMarker c = false)
    (firstn 100 conversation) ->
  let first :=
    CommentSink.setBody created
      (CommentSink.marker ++ JsString.newline :: markdown) in
  let second :=
    CommentSink.setBody created'
      (CommentSink.marker ++ JsString.newline :: markdown') in
  CommentSink.findExistingComment conversation = None
  /\ CommentSink.postOrUpdateComment created conversation markdown
     = Normal (conversation ++ [first], [Info (js "Created new comment")])
  /\ CommentSink.postOrUpdateComment created' (conversation ++ [first])
       markdown'
     = Normal (conversation ++ [first; second],
               [Info (js "Created new comment")]).
Proof.
  intros Hlong Hnone first second.
  assert (E : CommentSink.findExistingComment conversation = None)
    by (apply CommentFacts.findExistingComment_None; exact Hnone).
  split; [exact E|].
  pose proof (CommentFacts.postOrUpdateComment_outcome created conversation
                markdown) as H1.
  rewrite E in H1. split; [exact H1|].
  assert (E1 : CommentSink.findExistingComment (conversation ++ [first])
               = None).
  { apply CommentFacts.findExistingComment_None.
    unfold CommentSink.listComments.
    rewrite firstn_app.
    replace (100 - length conversation)%nat with 0%nat by lia.
    simpl. rewrite app_nil_r. exact Hnone. }
  pose proof (CommentFacts.postOrUpdateComment_outcome created'
                (conversation ++ [first]) markdown') as H2.
  rewrite E1 in H2. rewrite H2.
  rewrite <- app_assoc. reflexivity.
Qed.

(** X18 on a conversation of a hundred comments without the marker,
    followed by the comment of an earlier run. *)
Lemma marker_beyond_first_page_is_missed_witness :
  let other :=
    IssueComment.mk 7 (Some (js "alice")) (Some (js "Looks good."))
      (js "https://example.test/issuecomment") (js "2024-01-15T10:30:00Z") in
  let created :=
    IssueComment.mk 900 (Some (js "github-actions[bot]")) None
      (js "https://example.test/issuecomment") (js "2024-01-15T10:30:00Z") in
  let conversation :=
    repeat other 100 ++ [CommentSink.setBody created (Props.feedbackBody [])] in
  CommentSink.findExistingComment conversation = None
  /\ exists conversation' log,
       CommentSink.postOrUpdateComment created conversation (js "again")
       = Normal (conversation', log)
       /\ length conversation' = 102%nat.
Proof.
  intros other created conversation.
  destruct (marker_beyond_first_page_is_missed created created conversation
              (js "again") (js "again")) as (Hnone & Hpost & _).
  - unfold conversation. rewrite length_app, repeat_length. simpl. lia.
  - apply Forall_forall. intros c Hc. rewrite list_elem_of_In in Hc.
    unfold conversation in Hc.
    rewrite firstn_app, repeat_length, firstn_all2 in Hc
      by (rewrite repeat_length; lia).
    replace (100 - 100)%nat with 0%nat in Hc by reflexivity.
    rewrite firstn_O in Hc. apply in_app_or in Hc as [Hc|[]].
    apply repeat_spec in Hc. subst c. reflexivity.
  - split; [exact Hnone|]. eexists. eexists. split; [exact Hpost|].
    rewrite length_app. unfold conversation.
    rewrite length_app, repeat_length. reflexivity.
Defined.

(* ===================================================================== *)
(** * The run: its edges *)
(* ===================================================================== *)

Module RunFacts.

Lemma generateMarkdown_Normal (feedback : AggregatedFeedback.t)
    (includeResolved : bool) :
  Forall (fun c => JsObject.isInherited (groupKey c) = false)
    (AggregatedFeedback.openComments feedback) ->
  exists lines,
    Renderer.markdownLines feedback includeResolved = Normal lines
    /\ Renderer.generateMarkdown feedback includeResolved
       = Normal (JsString.join lines).
Proof.
  intros Hall.
  destruct (GroupCoverFacts.groupByFile_covers _ Hall) as (byFile & E & _).
  unfold Renderer.generateMarkdown, Renderer.markdownLines,
    Renderer.issuesLines.
  cbv zeta. rewrite E. destruct (0 <? _); eexists; split; reflexivity.
Qed.

Lemma generateMarkdown_Throw (feedback : AggregatedFeedback.t)
    (includeResolved : bool) :
  Exists (fun c => JsObject.isInherited (groupKey c) = true)
    (AggregatedFeedback.openComments feedback) ->
  Renderer.generateMarkdown feedback includeResolved
  = Throw (js "groups[path].push is not a function").
Proof.
  intros Hex.
  unfold Renderer.generateMarkdown, Renderer.markdownLines,
    Renderer.issuesLines.
  cbv zeta. rewrite (GroupCoverFacts.groupByFile_Throw _ Hex).
  replace (0 <? Z.of_nat (length (AggregatedFeedback.openComments feedback)))
    with true; [reflexivity|].
  symmetry. apply Z.ltb_lt.
  destruct (AggregatedFeedback.openComments feedback);
    [inversion Hex|simpl length; lia].
Qed.

Lemma numberOr_None (n : option Z) :
  numberOr n None = None <-> n = None \/ n = Some 0.
Proof.
  unfold numberOr. destruct n as [z|]; [|tauto].
  destruct (Z.eqb_spec z 0) as [->|Hne].
  - tauto.
  - split; [discriminate|]. intros [H|H]; [discriminate|]. congruence.
Qed.

Lemma publishFeedbackFile_commit (blobSha : jsstring -> jsstring)
    (files : gmap jsstring Publisher.entry)
    (feedbackFilePath markdown : jsstring)
    (openComments : list ReviewComment.t) (prNumber : Z) :
  feedbackFilePath <> [] -> openComments <> [] ->
  files !! feedbackFilePath <> Some Publisher.Directory ->
  Publisher.publishFeedbackFile blobSha files feedbackFilePath openComments
    markdown prNumber
  = Normal
      (<[feedbackFilePath := Publisher.File (blobSha markdown) markdown]> files,
       [Info (js "Committed feedback file to " ++ feedbackFilePath)]).
Proof.
  intros Hpath Hopen Hdir. unfold Publisher.publishFeedbackFile.
  destruct feedbackFilePath as [|c rest] eqn:Epath; [contradiction|].
  rewrite <- Epath in *.
  destruct openComments as [|o opens]; [contradiction|]. cbn [length Nat.eqb].
  rewrite FileFacts.commitFeedbackFile_outcome.
  destruct (files !! feedbackFilePath) as [[sha old|]|]; try reflexivity.
  contradiction.
Qed.

End RunFacts.

(** X19. A run fails with [Could not determine PR number from context],
    and with nothing else in its log, exactly when the event names no PR
    number or the number 0; it then leaves the branch as it is and sets no
    output. *)
Theorem run_needs_pr_number (blobSha : jsstring -> jsstring)
    (input : RunInput.t) (files : gmap jsstring Publisher.entry) :
  let result := run blobSha input files in
  (RunResult.log result
   = [Failed (js "Could not determine PR number from context")]
   <-> RunInput.prNumber input = None \/ RunInput.prNumber input = Some 0)
  /\ (RunResult.log result
      = [Failed (js "Could not determine PR number from context")] ->
      RunResult.files result = files
      /\ RunResult.openCount result = None
      /\ RunResult.resolvedCount result = None).
Proof.
  intros result. unfold result, run.
  rewrite <- RunFacts.numberOr_None.
  destruct (numberOr (RunInput.prNumber input) None) as [prNumber|].
  - destruct (collectComments input) as [comments log]. cbv zeta.
    destruct (bind _ _) as [[files' log']|message]; simpl; split;
      try (split; discriminate); discriminate.
  - simpl. split; [split; reflexivity|]. intros _. repeat split.
Qed.

(** X20. A run changes nothing on the branch but the feedback file: every
    other path holds after the run what it held before, whatever the run
    finds and however it ends; with an empty path configured the branch is
    not changed at all. *)
Theorem run_touches_only_the_feedback_file (blobSha : jsstring -> jsstring)
    (input : RunInput.t) (files : gmap jsstring Publisher.entry) :
  let result := run blobSha input files in
  (forall path, path <> RunInput.feedbackFilePath input ->
                RunResult.files result !! path = files !! path)
  /\ (RunInput.feedbackFilePath input = [] -> RunResult.files result = files).
Proof.
  intros result. unfold result, run.
  destruct (numberOr (RunInput.prNumber input) None) as [prNumber|];
    [|split; reflexivity].
  destruct (collectComments input) as [comments log]. cbv zeta.
  destruct (Renderer.generateMarkdown _ _) as [markdown|message];
    [|split; reflexivity].
  cbn [bind].
  destruct (Publisher.publishFeedbackFile _ _ _ _ _ _)
    as [[files' log']|message] eqn:E; [|split; reflexivity].
  exact (FileFacts.publishFeedbackFile_frame _ _ _ _ _ _ _ _ E).
Qed.

(** X21. A run that finds open comments, none on a file named like a
    property of [Object.prototype], with a feedback file configured at a
    path that holds no directory, commits the document it rendered: after
    the run the path holds that document, the log holds no failure and
    ends with [Done!], and the outputs are the two counts. *)
Theorem run_commits_the_document (blobSha : jsstring -> jsstring)
    (input : RunInput.t) (files : gmap jsstring Publisher.entry)
    (prNumber : Z) :
  let feedback := buildFeedback input prNumber (fst (collectComments input)) in
  let path := RunInput.feedbackFilePath input in
  numberOr (RunInput.prNumber input) None = Some prNumber ->
  AggregatedFeedback.openComments feedback <> [] ->
  Forall (fun c => ~ In (groupKey c) JsObject.objectPrototypeNames)
    (AggregatedFeedback.openComments feedback) ->
  path <> [] ->
  files !! path <> Some Publisher.Directory ->
  let result := run blobSha input files in
  exists markdown,
    Renderer.generateMarkdown feedback (RunInput.includeResolved input)
    = Normal markdown
    /\ RunResult.files result
       = <[path := Publisher.File (blobSha markdown) markdown]> files
    /\ Spec.noFailure (RunResult.log result)
    /\ List.last (RunResult.log result) (Failed []) = Info (js "Done!")
    /\ RunResult.openCount result
       = Some (length (AggregatedFeedback.openComments feedback))
    /\ RunResult.resolvedCount result
       = Some (length (AggregatedFeedback.resolvedComments feedback)).
Proof.
  intros feedback path HprNumber Hopen Hkeys Hpath Hdir result.
  assert (Hall : Forall (fun c => JsObject.isInherited (groupKey c) = false)
                   (AggregatedFeedback.openComments feedback)).
  { eapply Forall_impl; [exact Hkeys|]. intros c Hc. simpl in Hc.
    destruct (JsObject.isInherited (groupKey c)) eqn:E; [|reflexivity].
    apply GroupCoverFacts.isInherited_In in E. contradiction. }
  destruct (RunFacts.generateMarkdown_Normal feedback
              (RunInput.includeResolved input) Hall) as (lines & _ & Hdoc).
  exists (JsString.join lines). split; [exact Hdoc|].
  pose proof (PublisherFacts.collectComments_log input) as Hlog.
  unfold result, run. rewrite HprNumber.
  unfold feedback, path in *. clear feedback result path.
  destruct (collectComments input) as [comments log]. cbn [fst snd] in *.
  cbv zeta. rewrite Hdoc. cbn [bind].
  rewrite (RunFacts.publishFeedbackFile_commit blobSha files _
             (JsString.join lines) _ prNumber Hpath Hopen Hdir).
  cbn [RunResult.files RunResult.log RunResult.openCount
         RunResult.resolvedCount].
  split; [reflexivity|]. split; [|split; [|split; reflexivity]].
  - unfold Spec.noFailure in *. constructor; [discriminate|].
    apply Forall_app. split; [exact Hlog|].
    repeat constructor; discriminate.
  - rewrite app_comm_cons.
    change (?a :: ?b ++ [?c]) with ((a :: b) ++ [c]).
    rewrite app_assoc. apply last_last.
Qed.

(** X21 on a run with one open inline comment and an empty branch. *)
Lemma run_commits_the_document_witness :
  let input :=
    RunInput.mk RunExamples.feedbackPath true (Some 123)
      (js "Add user authentication") (js "https://example.test/pull/123")
      (RunInput.reviewComments RunExamples.allResolved)
      (GraphqlData []) [] [] (js "2024-01-15T10:30:00Z") in
  let result := run (fun content => content) input ∅ in
  exists markdown,
    RunResult.files result !! RunExamples.feedbackPath
    = Some (Publisher.File markdown markdown)
    /\ RunResult.openCount result = Some 1%nat.
Proof.
  intros input result.
  destruct (run_commits_the_document (fun content => content) input ∅ 123)
    as (markdown & _ & Hfiles & _ & _ & Hopen & _).
  - reflexivity.
  - vm_compute. discriminate.
  - apply Forall_forall. intros c Hc Hin.
    apply GroupCoverFacts.isInherited_In in Hin.
    vm_compute in Hc. apply list_elem_of_In in Hc as [<-|[]].
    vm_compute in Hin. discriminate Hin.
  - discriminate.
  - rewrite lookup_empty. discriminate.
  - exists markdown. split.
    + unfold result. rewrite Hfiles. apply lookup_insert_eq.
    + unfold result. rewrite Hopen. vm_compute. reflexivity.
Defined.

(** X22. An open comment on a file named like a property of
    [Object.prototype] ([constructor], [toString], ...) makes the whole run
    fail: the log ends with the failure
    [groups[path].push is not a function], the branch is left as it is,
    also when it holds the feedback file of an earlier run, and no output
    is set. *)
Theorem run_fails_on_inherited_key (blobSha : jsstring -> jsstring)
    (input : RunInput.t) (files : gmap jsstring Publisher.entry)
    (prNumber : Z) :
  numberOr (RunInput.prNumber input) None = Some prNumber ->
  Exists (fun c => In (groupKey c) JsObject.objectPrototypeNames)
    (AggregatedFeedback.openComments
       (buildFeedback input prNumber (fst (collectComments input)))) ->
  let result := run blobSha input files in
  RunResult.files result = files
  /\ List.last (RunResult.log result) (Info [])
     = Failed (js "groups[path].push is not a function")
  /\ RunResult.openCount result = None
  /\ RunResult.resolvedCount result = None.
Proof.
  intros HprNumber Hkey result.
  assert (Hex : Exists (fun c => JsObject.isInherited (groupKey c) = true)
                  (AggregatedFeedback.openComments
                     (buildFeedback input prNumber
                        (fst (collectComments input))))).
  { eapply Exists_impl; [exact Hkey|]. intros c Hc.
    apply GroupCoverFacts.isInherited_In. exact Hc. }
  pose proof (RunFacts.generateMarkdown_Throw _
                (RunInput.includeResolved input) Hex) as Hdoc.
  unfold result, run. rewrite HprNumber. clear result.
  destruct (collectComments input) as [comments log]. cbn [fst] in *.
  cbv zeta. rewrite Hdoc. cbn [bind RunResult.files RunResult.log
                                 RunResult.openCount RunResult.resolvedCount].
  split; [reflexivity|]. split; [|split; reflexivity].
  rewrite app_comm_cons.
  change [?a; ?b] with ([a] ++ [b]). rewrite app_assoc. apply last_last.
Qed.

(** X22 on a run with one open inline comment on a file named
    [constructor] and the feedback file of an earlier run on the branch. *)
Lemma run_fails_on_inherited_key_witness :
  let input :=
    RunInput.mk RunExamples.feedbackPath true (Some 123)
      (js "Add user authentication") (js "https://example.test/pull/123")
      [ InlineComment.mk 3 (js "constructor") (Some 1) None (js "Done?")
          (Some (js "carol")) (js "https://example.test/comment")
          (js "2024-01-15T10:30:00Z") ]
      (GraphqlData []) [] [] (js "2024-01-15T10:30:00Z") in
  let result := run (fun content => content) input
                  RunExamples.withFeedbackFile in
  RunResult.files result = RunExamples.withFeedbackFile
  /\ List.last (RunResult.log result) (Info [])
     = Failed (js "groups[path].push is not a function").
Proof.
  intros input result.
  destruct (run_fails_on_inherited_key (fun content => content) input
              RunExamples.withFeedbackFile 123)
    as (Hfiles & Hlog & _).
  - reflexivity.
  - apply Exists_cons_hd. vm_compute. auto 20.
  - split; [exact Hfiles|exact Hlog].
Defined.
